(** * teeny-tiny-router: path resolver, page cache, prefetch and navigation

    A shallow embedding of [src/utils.js] ([normalizePath], [parsePath]) and
    of the [MiniRouter] class of [src/index.js] ([fetchPage], [prefetch],
    [navigate], the hover handlers and [setPrefetchOnHover]), followed by the
    properties of the specification that concern them.

    JavaScript strings are sequences of UTF-16 code units: [list N].
    Objects used as dictionaries are [gmap]s keyed by such strings.  The
    asynchronous methods are run to completion one after the other: an
    [await] is a sequencing point, and no two calls are interleaved.
    Callbacks and listeners return or throw; they do not call back into the
    router.  The click and popstate listeners, [parseHTML]'s use of the DOM
    and [executeScripts] are outside the model. *)

From Stdlib Require Import NArith ZArith Ascii String.
From stdpp Require Import base option list gmap.

Local Open Scope N_scope.

(** ** JavaScript strings *)

Abbreviation jsstring := (list N).

(** The code units of an ASCII literal. *)
Definition js (s : string) : jsstring :=
  (fun a => N_of_ascii a) <$> list_ascii_of_string s.
Arguments js : simpl never.

Definition c_slash : N := 47.
Definition c_percent : N := 37.
Definition c_colon : N := 58.
Definition c_question : N := 63.
Definition c_hash : N := 35.

(** ** Thrown values and completions *)

(** [URIError] is what [decodeURIComponent] throws; [Thrown d] is any other
    thrown value, [d] being what [String(err)] yields for it. *)
Inductive exn :=
  | URIError
  | Thrown (description : jsstring).

Inductive res (A : Type) :=
  | Ret (a : A)
  | Throw (e : exn).
Arguments Ret {A} a.
Arguments Throw {A} e.

Definition res_bind {A B} (m : res A) (k : A -> res B) : res B :=
  match m with
  | Ret a => k a
  | Throw e => Throw e
  end.

(** ** String operations used by [normalizePath] *)

(** [path.split(/[?#]/)[0]]: the part before the first [?] or [#]. *)
Fixpoint before_query_or_hash (s : jsstring) : jsstring :=
  match s with
  | [] => []
  | c :: r =>
      if (c =? c_question) || (c =? c_hash) then []
      else c :: before_query_or_hash r
  end.

(** [p.replace(/\/+$/, "")]: the whole trailing run of slashes is removed. *)
Fixpoint strip_trailing_slashes (s : jsstring) : jsstring :=
  match s with
  | [] => []
  | c :: r =>
      match strip_trailing_slashes r with
      | [] => if c =? c_slash then [] else [c]
      | r' => c :: r'
      end
  end.

(** Case folding of the [i] flag (without [u]): only the ASCII letters have
    an ASCII partner. *)
Definition ascii_lower (c : N) : N :=
  if (65 <=? c) && (c <=? 90) then c + 32 else c.

Definition ci_eqb (c d : N) : bool := ascii_lower c =? ascii_lower d.

Fixpoint ci_eqb_list (s t : jsstring) : bool :=
  match s, t with
  | [], [] => true
  | c :: s', d :: t' => ci_eqb c d && ci_eqb_list s' t'
  | _, _ => false
  end.

(** [s] matches [/suf$/i]. *)
Definition has_suffix_ci (suf s : jsstring) : bool :=
  (length suf <=? length s)%nat &&
  ci_eqb_list (drop (length s - length suf) s) suf.

(** [s.replace(/suf$/i, "")]. *)
Definition strip_suffix_ci (suf s : jsstring) : jsstring :=
  if has_suffix_ci suf s then take (length s - length suf) s else s.

Definition jsstring_eqb (s t : jsstring) : bool := bool_decide (s = t).

Definition starts_with_char (c : N) (s : jsstring) : bool :=
  match s with
  | d :: _ => d =? c
  | [] => false
  end.

(** ** [normalizePath] *)

Definition normalizePath (path : jsstring) : jsstring :=
  match path with
  | [] => js "/"
  | _ =>
      let p := before_query_or_hash path in
      let p := if (1 <? length p)%nat then strip_trailing_slashes p else p in
      let p := if negb (jsstring_eqb p (js "/"))
               then strip_suffix_ci (js ".html") p else p in
      let p := strip_suffix_ci (js "/index") p in
      let p := if (1 <? length p)%nat then strip_trailing_slashes p else p in
      if starts_with_char c_slash p then p else c_slash :: p
  end.

(** ** [decodeURIComponent]

    The built-in follows the Decode operation of ECMA-262 with an empty
    reserved set: every escape [%XX] is an octet, octets at or above 0x80
    must form one well-formed UTF-8 sequence of escapes, and anything else
    throws a [URIError].  The input is read one code unit at a time. *)

Definition hex_digit (c : N) : option N :=
  if (48 <=? c) && (c <=? 57) then Some (c - 48)
  else if (65 <=? c) && (c <=? 70) then Some (c - 55)
  else if (97 <=? c) && (c <=? 102) then Some (c - 87)
  else None.

(** Number of leading 1 bits of an octet at or above 0x80 (5 stands for
    "five or more"). *)
Definition leading_ones (b : N) : nat :=
  if b <? 192 then 1%nat
  else if b <? 224 then 2%nat
  else if b <? 240 then 3%nat
  else if b <? 248 then 4%nat
  else 5%nat.

Definition is_continuation (b : N) : bool := (128 <=? b) && (b <=? 191).

(** The code point of a well-formed UTF-8 sequence of two to four octets:
    continuation octets are [10xxxxxx], the encoding is the shortest one, no
    surrogate, nothing above U+10FFFF. *)
Definition utf8_code_point (octets : list N) : option N :=
  match octets with
  | [b0; b1] =>
      let cp := N.lor (N.shiftl (N.land b0 31) 6) (N.land b1 63) in
      if is_continuation b1 && (128 <=? cp) then Some cp else None
  | [b0; b1; b2] =>
      let cp := N.lor (N.shiftl (N.land b0 15) 12)
                  (N.lor (N.shiftl (N.land b1 63) 6) (N.land b2 63)) in
      if is_continuation b1 && is_continuation b2 && (2048 <=? cp)
         && negb ((55296 <=? cp) && (cp <=? 57343))
      then Some cp else None
  | [b0; b1; b2; b3] =>
      let cp := N.lor (N.shiftl (N.land b0 7) 18)
                  (N.lor (N.shiftl (N.land b1 63) 12)
                     (N.lor (N.shiftl (N.land b2 63) 6) (N.land b3 63))) in
      if is_continuation b1 && is_continuation b2 && is_continuation b3
         && (65536 <=? cp) && (cp <=? 1114111)
      then Some cp else None
  | _ => None
  end.

(** UTF-16 code units of a code point. *)
Definition utf16_encode (cp : N) : jsstring :=
  if cp <? 65536 then [cp]
  else
    let v := cp - 65536 in
    [55296 + N.shiftr v 10; 56320 + N.land v 1023].

Inductive dstate :=
  | DText
  | DEsc1 (n : nat) (octets : list N)
  | DEsc2 (n : nat) (octets : list N) (hi : N)
  | DCont (n : nat) (octets : list N).

(** One code unit: the next state and the code units produced, or [None]
    where Decode throws. *)
Definition dstep (st : dstate) (c : N) : option (dstate * jsstring) :=
  match st with
  | DText =>
      if c =? c_percent then Some (DEsc1 0 [], []) else Some (DText, [c])
  | DEsc1 n os =>
      match hex_digit c with
      | Some h => Some (DEsc2 n os h, [])
      | None => None
      end
  | DEsc2 n os hi =>
      match hex_digit c with
      | None => None
      | Some lo =>
          let b := 16 * hi + lo in
          match os with
          | [] =>
              if b <? 128 then Some (DText, [b])
              else
                let n := leading_ones b in
                if bool_decide (n = 1%nat) || bool_decide (4 < n)%nat
                then None
                else Some (DCont n [b], [])
          | _ =>
              let os' := os ++ [b] in
              if bool_decide (length os' = n) then
                match utf8_code_point os' with
                | Some cp => Some (DText, utf16_encode cp)
                | None => None
                end
              else Some (DCont n os', [])
          end
      end
  | DCont n os => if c =? c_percent then Some (DEsc1 n os, []) else None
  end.

Fixpoint decode_from (st : dstate) (s : jsstring) : res jsstring :=
  match s with
  | [] => match st with DText => Ret [] | _ => Throw URIError end
  | c :: r =>
      match dstep st c with
      | None => Throw URIError
      | Some (st', out) =>
          res_bind (decode_from st' r) (fun t => Ret (out ++ t))
      end
  end.

Definition decodeURIComponent (s : jsstring) : res jsstring :=
  decode_from DText s.

(** ** Splitting and joining *)

(** [s.split(sep)] for a one-character separator. *)
Fixpoint split_on (sep : N) (s : jsstring) : list jsstring :=
  match s with
  | [] => [[]]
  | c :: r =>
      if c =? sep then [] :: split_on sep r
      else
        match split_on sep r with
        | [] => [[c]]
        | w :: ws => (c :: w) :: ws
        end
  end.

Definition nonempty (s : jsstring) : bool :=
  match s with [] => false | _ => true end.

(** [s.split("/").filter(Boolean)] *)
Definition segments (s : jsstring) : list jsstring :=
  List.filter nonempty (split_on c_slash s).

(** [l.join("/")] *)
Fixpoint join_slash (l : list jsstring) : jsstring :=
  match l with
  | [] => []
  | [x] => x
  | x :: xs => x ++ c_slash :: join_slash xs
  end.

(** ** Parameter objects *)

(** [params[key] = v] on an object literal, [v] a string.  The key
    [__proto__] reaches the setter inherited from [Object.prototype], which
    ignores a value that is neither an object nor [null]: no property is
    created. *)
Definition obj_set (params : gmap (list N) (list N)) (key v : jsstring)
  : gmap (list N) (list N) :=
  if jsstring_eqb key (js "__proto__") then params else <[key := v]> params.

(** ** [parsePath] *)

(** The [for] loop of [parsePath]: [ptn] are the pattern segments from
    index [i] on, [urlSeg] all URL segments. *)
Fixpoint match_loop (ptn : list jsstring) (i : nat) (urlSeg : list jsstring)
    (params : gmap (list N) (list N)) : res (option (gmap (list N) (list N))) :=
  match ptn with
  | [] => Ret (Some params)
  | a :: ptn' =>
      let b := urlSeg !! i in
      if jsstring_eqb a (js "*") then
        res_bind (decodeURIComponent (join_slash (drop i urlSeg)))
          (fun d => Ret (Some (obj_set params (js "*") d)))
      else if starts_with_char c_colon a then
        let key := drop 1 a in
        match b with
        | None | Some [] => Ret None
        | Some b =>
            res_bind (decodeURIComponent b)
              (fun d => match_loop ptn' (S i) urlSeg (obj_set params key d))
        end
      else if bool_decide (b = Some a) then match_loop ptn' (S i) urlSeg params
      else Ret None
  end.

Definition hasWildcard (ptnSeg : list jsstring) : bool :=
  bool_decide (last ptnSeg = Some (js "*")).

Definition parsePath (pattern urlPath : jsstring)
  : res (option (gmap (list N) (list N))) :=
  let ptn := normalizePath pattern in
  let url := normalizePath urlPath in
  let ptnSeg := segments ptn in
  let urlSeg := segments url in
  if negb (hasWildcard ptnSeg)
     && negb (bool_decide (length ptnSeg = length urlSeg))
  then Ret None
  else if hasWildcard ptnSeg && (length urlSeg <? length ptnSeg - 1)%nat
  then Ret None
  else match_loop ptnSeg 0 urlSeg ∅.

(** ** Vocabulary of the normalization properties *)

Definition no_query_or_hash (s : list N) : Prop :=
  Forall (fun c => c ≠ c_question ∧ c ≠ c_hash) s.

(** The shape of every normalized path. *)
Record normal_form (q : list N) : Prop := {
  nf_leading : starts_with_char c_slash q = true;
  nf_clean : no_query_or_hash q;
  nf_trailing : q = js "/" ∨ last q ≠ Some c_slash;
}.

(** ** Vocabulary of the matching properties *)

(** The pattern segments before the first [*]. *)
Fixpoint stem (ps : list (list N)) : list (list N) :=
  match ps with
  | [] => []
  | a :: r => if jsstring_eqb a (js "*") then [] else a :: stem r
  end.

(** The names bound by the parameter segments of a list of segments. *)
Fixpoint param_keys (ps : list (list N)) : list (list N) :=
  match ps with
  | [] => []
  | a :: r =>
      if starts_with_char c_colon a then drop 1 a :: param_keys r
      else param_keys r
  end.

(** A successful match is complete: every pattern segment before the
    wildcard has accepted the URL segment at its position, every parameter
    name is bound (the last binding of a name wins, and [__proto__] cannot be
    bound), the wildcard holds the decoded rest, and nothing else is bound. *)
Definition complete_match (ps us : list (list N))
    (params : gmap (list N) (list N)) : Prop :=
  (∀ j a, stem ps !! j = Some a ->
     ∃ b, us !! j = Some b
          ∧ if starts_with_char c_colon a
            then b ≠ [] ∧ ∃ d, decodeURIComponent b = Ret d
                 ∧ (drop 1 a ≠ js "__proto__" ->
                    drop 1 a ∉ param_keys (drop (S j) (stem ps)) ->
                    (drop 1 a = js "*" -> js "*" ∉ ps) ->
                    params !! drop 1 a = Some d)
            else b = a)
  ∧ (∀ key, key ∈ param_keys (stem ps) -> key ≠ js "__proto__" ->
       is_Some (params !! key))
  ∧ (js "*" ∈ ps ->
       ∃ d, decodeURIComponent (join_slash (drop (length (stem ps)) us)) = Ret d
            ∧ params !! js "*" = Some d)
  ∧ (∀ key, is_Some (params !! key) ->
       key ∈ param_keys (stem ps) ∨ (key = js "*" ∧ js "*" ∈ ps)).

(** * The router ([src/index.js])

    The DOM, the network and the timers are collaborators.  What the router
    does to them is recorded in a trace of effects; what they answer is given
    by an environment. *)

(** ** Values *)

(** The [{title, body}] object built by [parseHTML] or by the fallback of
    [fetchPage]. *)
Record Page := {
  page_title : list N;
  page_body : list N;
}.

(** The values that occur as fields of the content and of event payloads.
    [VOther t r] is any other value, [t] its truthiness and [r] what
    [String] makes of it. *)
Inductive jsval :=
  | VStr (s : list N)
  | VParams (p : gmap (list N) (list N))
  | VPage (d : Page)
  | VError (e : exn)
  | VOther (truthy_ : bool) (rendering : list N).

(** Truthiness of a property read; a missing property reads [undefined]. *)
Definition truthy (v : option jsval) : bool :=
  match v with
  | None => false
  | Some (VStr s) => nonempty s
  | Some (VOther t _) => t
  | Some _ => true
  end.

(** [String(err)] *)
Definition exn_string (e : exn) : list N :=
  match e with
  | URIError => js "URIError: URI malformed"
  | Thrown d => d
  end.

(** What a route callback hands back once awaited. *)
Inductive HandlerResult :=
  | RNullish                                   (* undefined or null *)
  | RString (s : list N)                       (* typeof result === "string" *)
  | RObject (fields : gmap (list N) jsval)     (* typeof result === "object" *)
  | ROther.                                    (* number, boolean, function, ... *)

(** A route callback: it is called with the parameter object alone, and
    returns or throws (rejects).  What a callback or a listener does to the
    page on its own account is not recorded: the trace holds the calls of
    the router, and [document_title] and [app_container] hold what the
    router has last written there. *)
Definition handler : Type := gmap (list N) (list N) -> res HandlerResult.

(** A listener registered with [on]: it is called with the payload, and
    returns or throws. *)
Record listener := {
  l_id : N;
  l_run : gmap (list N) jsval -> res unit;
}.

(** ** Effects *)

Inductive effect :=
  | EFetch (url : list N) (headers : list (list N * list N))
  | EHandler (pattern : list N) (params : gmap (list N) (list N))
  | EEmit (event : list N) (payload : gmap (list N) jsval)
  | EListener (id : N) (event : list N) (payload : gmap (list N) jsval)
  | EConsoleDebug (url : list N) (e : exn)
  | ESetTitle (v : jsval)
  | ESetInnerHTML (html : list N)
  | EExecuteScripts
  | EPushState (title_ : jsval) (url : list N)     (* an entry [history] took *)
  | EReplaceState (title_ : jsval) (url : list N)
  | ESetTimeout (id : N) (href : list N) (delay : Z)
  | EClearTimeout (id : N).

(** ** Collaborators *)

(** A response of [fetch]: a status and the outcome of [res.text()].  [fetch]
    resolves with a response whatever its status; it rejects when the request
    itself fails. *)
Record Response := {
  resp_status : N;
  resp_text : res (list N);
}.

Record Env := {
  (** [fetch(url, {headers, credentials})], given what happened so far *)
  env_fetch : list effect -> list N -> list (list N * list N) -> res Response;
  (** [parseHTML(htmlString, contentSelector)] of [src/utils.js], which rests
      on [DOMParser] and [querySelector] *)
  env_parseHTML : list N -> list N -> res Page;
  (** whether [history.pushState] and [history.replaceState] take [url]: it
      parses against the URL of the document and is of its origin *)
  env_history_accepts : list N -> bool;
}.

(** What the hover handlers read from the element found by
    [e.target.closest("a[href], [data-link]")]. *)
Record LinkElement := {
  link_id : N;
  link_href : option (list N);
  link_is_anchor : bool;                 (* tagName === "A" *)
  link_target_blank : bool;
  link_download : bool;
  link_rel_external : bool;
  link_same_origin : option bool;        (* None: new URL(...) throws *)
  link_no_prefetch : bool;               (* data-no-prefetch *)
}.

(** ** JavaScript [Map]s in insertion order *)

Section ordered_map.
Context {K V : Type} `{EqDecision K}.

(** [m.set(k, v)]: an existing key keeps its place. *)
Fixpoint omap_set (k : K) (v : V) (m : list (K * V)) : list (K * V) :=
  match m with
  | [] => [(k, v)]
  | (k', v') :: m' =>
      if decide (k' = k) then (k, v) :: m' else (k', v') :: omap_set k v m'
  end.

Fixpoint omap_get (k : K) (m : list (K * V)) : option V :=
  match m with
  | [] => None
  | (k', v') :: m' => if decide (k' = k) then Some v' else omap_get k m'
  end.

Fixpoint omap_delete (k : K) (m : list (K * V)) : list (K * V) :=
  match m with
  | [] => []
  | (k', v') :: m' =>
      if decide (k' = k) then m' else (k', v') :: omap_delete k m'
  end.
End ordered_map.

(** ** State *)

Record Router := {
  cache : gmap (list N) Page;
  routes : list (list N * handler);
  events : gmap (list N) (list listener);
  htmlExtension : bool;
  interceptAllLinks : bool;
  contentSelector : list N;
  prefetchOnHover : bool;
  prefetchDelay : Z;
  prefetchTimeouts : list (N * N);       (* link element, timeout id *)
}.

Record Browser := {
  trace : list effect;
  timers : gmap N (list N);              (* pending timeouts: id, href *)
  next_timer : N;
  document_title : list N;
  app_container : option (list N);       (* innerHTML of #app, if there is one *)
  mouseenter_listener : bool;            (* installed by the constructor *)
  mouseleave_listener : bool;
}.

Record state := {
  router : Router;
  browser : Browser;
}.

Definition set_cache (c : gmap (list N) Page) (s : state) : state :=
  let r := router s in
  {| router := {| cache := c; routes := routes r; events := events r;
                  htmlExtension := htmlExtension r;
                  interceptAllLinks := interceptAllLinks r;
                  contentSelector := contentSelector r;
                  prefetchOnHover := prefetchOnHover r;
                  prefetchDelay := prefetchDelay r;
                  prefetchTimeouts := prefetchTimeouts r |};
     browser := browser s |}.

Definition set_routes (rs : list (list N * handler)) (s : state) : state :=
  let r := router s in
  {| router := {| cache := cache r; routes := rs; events := events r;
                  htmlExtension := htmlExtension r;
                  interceptAllLinks := interceptAllLinks r;
                  contentSelector := contentSelector r;
                  prefetchOnHover := prefetchOnHover r;
                  prefetchDelay := prefetchDelay r;
                  prefetchTimeouts := prefetchTimeouts r |};
     browser := browser s |}.

Definition set_events (ev : gmap (list N) (list listener)) (s : state) : state :=
  let r := router s in
  {| router := {| cache := cache r; routes := routes r; events := ev;
                  htmlExtension := htmlExtension r;
                  interceptAllLinks := interceptAllLinks r;
                  contentSelector := contentSelector r;
                  prefetchOnHover := prefetchOnHover r;
                  prefetchDelay := prefetchDelay r;
                  prefetchTimeouts := prefetchTimeouts r |};
     browser := browser s |}.

Definition set_prefetchOnHover (b : bool) (s : state) : state :=
  let r := router s in
  {| router := {| cache := cache r; routes := routes r; events := events r;
                  htmlExtension := htmlExtension r;
                  interceptAllLinks := interceptAllLinks r;
                  contentSelector := contentSelector r;
                  prefetchOnHover := b;
                  prefetchDelay := prefetchDelay r;
                  prefetchTimeouts := prefetchTimeouts r |};
     browser := browser s |}.

Definition set_prefetchTimeouts (m : list (N * N)) (s : state) : state :=
  let r := router s in
  {| router := {| cache := cache r; routes := routes r; events := events r;
                  htmlExtension := htmlExtension r;
                  interceptAllLinks := interceptAllLinks r;
                  contentSelector := contentSelector r;
                  prefetchOnHover := prefetchOnHover r;
                  prefetchDelay := prefetchDelay r;
                  prefetchTimeouts := m |};
     browser := browser s |}.

Definition set_browser (f : Browser -> Browser) (s : state) : state :=
  {| router := router s; browser := f (browser s) |}.

Definition add_effect (e : effect) (b : Browser) : Browser :=
  {| trace := trace b ++ [e]; timers := timers b; next_timer := next_timer b;
     document_title := document_title b; app_container := app_container b;
     mouseenter_listener := mouseenter_listener b;
     mouseleave_listener := mouseleave_listener b |}.

Definition with_timers (t : gmap N (list N)) (n : N) (b : Browser) : Browser :=
  {| trace := trace b; timers := t; next_timer := n;
     document_title := document_title b; app_container := app_container b;
     mouseenter_listener := mouseenter_listener b;
     mouseleave_listener := mouseleave_listener b |}.

Definition with_document_title (t : list N) (b : Browser) : Browser :=
  {| trace := trace b; timers := timers b; next_timer := next_timer b;
     document_title := t; app_container := app_container b;
     mouseenter_listener := mouseenter_listener b;
     mouseleave_listener := mouseleave_listener b |}.

Definition with_app_container (h : option (list N)) (b : Browser) : Browser :=
  {| trace := trace b; timers := timers b; next_timer := next_timer b;
     document_title := document_title b; app_container := h;
     mouseenter_listener := mouseenter_listener b;
     mouseleave_listener := mouseleave_listener b |}.

(** ** The monad of the methods: state, and a value or a thrown exception *)

Definition M (A : Type) : Type := state -> res A * state.

#[export] Instance M_ret : MRet M := fun A a s => (Ret a, s).

#[export] Instance M_bind : MBind M := fun A B k m s =>
  match m s with
  | (Ret a, s') => k a s'
  | (Throw e, s') => (Throw e, s')
  end.

Definition throw {A} (e : exn) : M A := fun s => (Throw e, s).

(** [try { m } catch (err) { h err }] *)
Definition try_catch {A} (m : M A) (h : exn -> M A) : M A := fun s =>
  match m s with
  | (Ret a, s') => (Ret a, s')
  | (Throw e, s') => h e s'
  end.

Definition get_state : M state := fun s => (Ret s, s).
Definition modify (f : state -> state) : M unit := fun s => (Ret tt, f s).
Definition lift {A} (r : res A) : M A := fun s => (r, s).
Definition log (e : effect) : M unit := modify (set_browser (add_effect e)).

(** ** [on], [emit], [route] *)

(** [this.events] is an object literal: for the names below
    [this.events[event]] is not [undefined] but a member inherited from
    [Object.prototype], which is truthy and has neither [push] nor
    [forEach]. *)
Definition object_prototype_keys : list (list N) :=
  [js "constructor"; js "__proto__"; js "hasOwnProperty"; js "isPrototypeOf";
   js "propertyIsEnumerable"; js "toLocaleString"; js "toString";
   js "valueOf"; js "__defineGetter__"; js "__defineSetter__";
   js "__lookupGetter__"; js "__lookupSetter__"].

Definition inherited (event : list N) : bool :=
  bool_decide (event ∈ object_prototype_keys).

Definition not_a_function (method : list N) : exn :=
  Thrown (js "TypeError: this.events[event]." ++ method
          ++ js " is not a function").

Definition on (event : list N) (callback : listener) : M unit :=
  s ← get_state;
  let ev := events (router s) in
  match ev !! event with
  | Some ls => modify (set_events (<[event := ls ++ [callback]]> ev))
  | None =>
      if inherited event then throw (not_a_function (js "push"))
      else modify (set_events (<[event := [callback]]> ev))
  end.

(** [this.events[event].forEach((cb) => cb(payload))]: a throwing listener
    ends the iteration. *)
Fixpoint call_listeners (ls : list listener) (event : list N)
    (payload : gmap (list N) jsval) : M unit :=
  match ls with
  | [] => mret tt
  | l :: ls' =>
      log (EListener (l_id l) event payload);;
      lift (l_run l payload);;
      call_listeners ls' event payload
  end.

Definition emit (event : list N) (payload : gmap (list N) jsval) : M unit :=
  log (EEmit event payload);;
  s ← get_state;
  match events (router s) !! event with
  | Some ls => call_listeners ls event payload
  | None =>
      if inherited event then throw (not_a_function (js "forEach"))
      else mret tt
  end.

Definition route (pattern : list N) (callback : handler) : M unit :=
  modify (fun s => set_routes (omap_set pattern callback (routes (router s))) s).

(** ** [_normalizeUrl] *)

(** [s.endsWith(suf)] *)
Definition ends_with (suf s : list N) : bool :=
  (length suf <=? length s)%nat
  && jsstring_eqb (drop (length s - length suf) s) suf.

Definition _normalizeUrl (r : Router) (url : list N) : list N :=
  let clean := before_query_or_hash url in
  if htmlExtension r && negb (ends_with (js ".html") clean)
     && negb (jsstring_eqb clean (js "/"))
  then clean ++ js ".html"
  else clean.

(** ** [fetchPage] and [prefetch] *)

Definition request_headers (isPrefetch : bool) : list (list N * list N) :=
  (js "X-Requested-With", js "mini-router")
  :: (if isPrefetch then [(js "Purpose", js "prefetch")] else []).

Definition fetch (E : Env) (url : list N) (headers : list (list N * list N))
  : M Response :=
  fun s =>
    (env_fetch E (trace (browser s)) url headers,
     set_browser (add_effect (EFetch url headers)) s).

Definition fallback_page (err : exn) : Page :=
  {| page_title := js "Error";
     page_body := js "<h1>Network Error</h1><pre>" ++ exn_string err
                  ++ js "</pre>" |}.

Definition cache_set (url : list N) (d : Page) : M unit :=
  modify (fun s => set_cache (<[url := d]> (cache (router s))) s).

(** The [try] block of [fetchPage]. *)
Definition fetch_attempt (E : Env) (url : list N) (isPrefetch : bool)
    (selector : list N) : M Page :=
  res ← fetch E url (request_headers isPrefetch);
  text ← lift (resp_text res);
  data ← lift (env_parseHTML E text selector);
  cache_set url data;;
  (if isPrefetch
   then emit (js "prefetch")
          {[ js "url" := VStr url; js "data" := VPage data ]}
   else mret tt);;
  mret data.

(** The [catch] block of [fetchPage]. *)
Definition fetch_recover (url : list N) (isPrefetch : bool) (err : exn)
  : M Page :=
  if isPrefetch then
    emit (js "prefetch:error")
      {[ js "url" := VStr url; js "error" := VError err ]};;
    throw err
  else
    cache_set url (fallback_page err);;
    mret (fallback_page err).

Definition fetchPage (E : Env) (url : list N) (isPrefetch : bool) : M Page :=
  s ← get_state;
  match cache (router s) !! url with
  | Some d => mret d
  | None =>
      try_catch (fetch_attempt E url isPrefetch (contentSelector (router s)))
        (fetch_recover url isPrefetch)
  end.

Definition prefetch (E : Env) (url : list N) : M unit :=
  s ← get_state;
  if bool_decide (is_Some (cache (router s) !! url)) then mret tt
  else
    try_catch (fetchPage E url true;; mret tt)
      (fun err => log (EConsoleDebug url err)).

(** ** [navigate] *)

(** [{ ...data }] *)
Definition page_obj (d : Page) : gmap (list N) jsval :=
  {[ js "title" := VStr (page_title d); js "body" := VStr (page_body d) ]}.

(** The branches on the callback's result. *)
Definition apply_result (finalData : gmap (list N) jsval)
    (result : HandlerResult) : gmap (list N) jsval :=
  match result with
  | RNullish => finalData
  | RString s => <[js "body" := VStr s]> finalData
  | RObject fields => fields ∪ finalData
  | ROther => finalData
  end.

(** [{ url, ...finalData }] *)
Definition with_url (url : list N) (finalData : gmap (list N) jsval)
  : gmap (list N) jsval :=
  finalData ∪ {[ js "url" := VStr url ]}.

(** The [for] loop over [this.routes.entries()]. *)
Fixpoint run_routes (rs : list (list N * handler)) (url matchUrl : list N)
    (finalData : gmap (list N) jsval) : M (gmap (list N) jsval) :=
  match rs with
  | [] => mret finalData
  | (pattern, callback) :: rs' =>
      params ← lift (parsePath pattern matchUrl);
      match params with
      | None => run_routes rs' url matchUrl finalData
      | Some params =>
          let ctx := with_url url finalData in
          log (EHandler pattern params);;
          result ← lift (callback params);
          emit (js "route:" ++ pattern) (<[js "params" := VParams params]> ctx);;
          run_routes rs' url matchUrl (apply_result finalData result)
      end
  end.

(** What the DOM makes of a value assigned to [document.title]. *)
Definition ToString (v : jsval) : list N :=
  match v with
  | VStr s => s
  | VParams _ | VPage _ => js "[object Object]"
  | VError e => exn_string e
  | VOther _ r => r
  end.

(** The custom or the default render. *)
Definition render (payload : gmap (list N) jsval) : M unit :=
  s ← get_state;
  match events (router s) !! js "navigate" with
  | Some (_ :: _) => emit (js "navigate") payload
  | _ =>
      match payload !! js "title" with
      | Some v =>
          if truthy (Some v) then
            modify (set_browser (with_document_title (ToString v)));;
            log (ESetTitle v)
          else mret tt
      | None => mret tt
      end;;
      match app_container (browser s), payload !! js "body" with
      | Some _, Some (VStr b) =>
          modify (set_browser (with_app_container (Some b)));;
          log (ESetInnerHTML b);;
          log EExecuteScripts
      | _, _ => mret tt
      end
  end.

(** What [history.pushState] and [history.replaceState] throw on a URL
    that does not parse or is of another origin than the document. *)
Definition security_error : exn :=
  Thrown (js "SecurityError: The operation is insecure.").

(** [finalData.title || document.title || ""], then the history entry;
    nothing catches what [history] throws. *)
Definition update_history (E : Env) (rawUrl : list N) (replace : bool)
    (finalData : gmap (list N) jsval) : M unit :=
  s ← get_state;
  let title :=
    match finalData !! js "title" with
    | Some v => if truthy (Some v) then v else VStr (document_title (browser s))
    | None => VStr (document_title (browser s))
    end in
  if env_history_accepts E rawUrl
  then log (if replace then EReplaceState title rawUrl
            else EPushState title rawUrl)
  else throw security_error.

(** [navigate] from the fetched [data] on. *)
Definition navigate_with (E : Env) (rawUrl matchUrl : list N)
    (replace : bool) (data : Page) : M unit :=
  s ← get_state;
  let url := rawUrl in
  finalData ← run_routes (routes (router s)) url matchUrl (page_obj data);
  render (with_url url finalData);;
  update_history E rawUrl replace finalData.

Definition navigate (E : Env) (rawUrl : list N) (replace : bool) : M unit :=
  s ← get_state;
  let matchUrl := _normalizeUrl (router s) rawUrl in
  data ← fetchPage E rawUrl false;
  navigate_with E rawUrl matchUrl replace data.

(** ** Timers and the hover handlers *)

Definition setTimeout (href : list N) (delay : Z) : M N := fun s =>
  let id := next_timer (browser s) in
  (Ret id,
   set_browser (fun b =>
     add_effect (ESetTimeout id href delay)
       (with_timers (<[id := href]> (timers b)) (id + 1) b)) s).

Definition clearTimeout (id : N) : M unit :=
  modify (set_browser (fun b =>
    add_effect (EClearTimeout id)
      (with_timers (delete id (timers b)) (next_timer b) b))).

(** The [mouseenter] listener of [_initPrefetchHandler]; [target] is what
    [closest] finds. *)
Definition on_mouseenter (E : Env) (target : option LinkElement) : M unit :=
  s ← get_state;
  if negb (mouseenter_listener (browser s)) then mret tt else
  match target with
  | None => mret tt
  | Some link =>
      match link_href link with
      | None | Some [] => mret tt
      | Some href =>
          if link_is_anchor link
             && (link_target_blank link || link_download link
                 || link_rel_external link
                 || negb (default false (link_same_origin link)))
          then mret tt
          else if link_no_prefetch link then mret tt
          else if (prefetchDelay (router s) =? 0)%Z then prefetch E href
          else
            timeoutId ← setTimeout href (prefetchDelay (router s));
            modify (fun s' =>
              set_prefetchTimeouts
                (omap_set (link_id link) timeoutId
                   (prefetchTimeouts (router s'))) s')
      end
  end.

(** The [mouseleave] listener. *)
Definition on_mouseleave (target : option LinkElement) : M unit :=
  s ← get_state;
  if negb (mouseleave_listener (browser s)) then mret tt else
  match target with
  | None => mret tt
  | Some link =>
      match omap_get (link_id link) (prefetchTimeouts (router s)) with
      | Some timeoutId =>
          if timeoutId =? 0 then mret tt
          else
            clearTimeout timeoutId;;
            modify (fun s' =>
              set_prefetchTimeouts
                (omap_delete (link_id link) (prefetchTimeouts (router s'))) s')
      | None => mret tt
      end
  end.

(** A pending timeout comes due: its callback is [() => this.prefetch(href)]. *)
Definition fire_timer (E : Env) (id : N) : M unit :=
  s ← get_state;
  match timers (browser s) !! id with
  | Some href =>
      modify (set_browser (fun b =>
        with_timers (delete id (timers b)) (next_timer b) b));;
      prefetch E href
  | None => mret tt
  end.

Fixpoint clear_all (ids : list N) : M unit :=
  match ids with
  | [] => mret tt
  | id :: ids' => clearTimeout id;; clear_all ids'
  end.

Definition setPrefetchOnHover (enabled : bool) : M unit :=
  modify (set_prefetchOnHover enabled);;
  if enabled then mret tt
  else
    s ← get_state;
    clear_all ((prefetchTimeouts (router s)).*2);;
    modify (set_prefetchTimeouts []).

(** ** The constructor *)

Definition new_MiniRouter (htmlExtension_ interceptAllLinks_ : bool)
    (contentSelector_ : list N) (prefetchOnHover_ : bool) (prefetchDelay_ : Z)
    (title_ : list N) (container : option (list N)) : state :=
  {| router :=
       {| cache := ∅; routes := []; events := ∅;
          htmlExtension := htmlExtension_;
          interceptAllLinks := interceptAllLinks_;
          contentSelector := contentSelector_;
          prefetchOnHover := prefetchOnHover_;
          prefetchDelay := prefetchDelay_;
          prefetchTimeouts := [] |};
     browser :=
       {| trace := []; timers := ∅; next_timer := 1;
          document_title := title_; app_container := container;
          mouseenter_listener := prefetchOnHover_;
          mouseleave_listener := prefetchOnHover_ && (0 <? prefetchDelay_)%Z |} |}.

(** [new MiniRouter()] on a page with an empty [#app]. *)
Definition default_router : state :=
  new_MiniRouter true true (js "#app") true 0 (js "Home") (Some []).

(** ** Vocabulary of the router properties *)

(** The state with [t] appended to the trace. *)
Definition append_trace (t : list effect) (s : state) : state :=
  set_browser (fun b =>
    {| trace := trace b ++ t; timers := timers b; next_timer := next_timer b;
       document_title := document_title b; app_container := app_container b;
       mouseenter_listener := mouseenter_listener b;
       mouseleave_listener := mouseleave_listener b |}) s.

(** The requests, the callback invocations and the events of a trace. *)
Definition fetched (t : list effect) : list (list N * list (list N * list N)) :=
  omap (fun e => match e with EFetch u h => Some (u, h) | _ => None end) t.

Definition handler_calls (t : list effect)
  : list (list N * gmap (list N) (list N)) :=
  omap (fun e => match e with EHandler p ps => Some (p, ps) | _ => None end) t.

Definition emitted (t : list effect) : list (list N * gmap (list N) jsval) :=
  omap (fun e => match e with EEmit ev pl => Some (ev, pl) | _ => None end) t.

Definition is_listener_call (e : effect) : Prop :=
  match e with EListener _ _ _ => True | _ => False end.

(** A listener that never throws. *)
Definition quiet_listener (l : listener) : Prop := ∀ p, l_run l p = Ret tt.

(** What fetching and parsing [url] yields in state [s]: the page, or what
    is thrown by [fetch], by [res.text()] or by [parseHTML]. *)
Definition fetch_outcome (E : Env) (s : state) (url : list N)
    (isPrefetch : bool) : res Page :=
  res_bind (env_fetch E (trace (browser s)) url (request_headers isPrefetch))
    (fun r => res_bind (resp_text r)
       (fun text => env_parseHTML E text (contentSelector (router s)))).

(** A method that leaves the router alone and issues no request. *)
Definition no_fetch {A} (m : M A) : Prop :=
  ∀ s, router (snd (m s)) = router s
       ∧ fetched (trace (browser (snd (m s)))) = fetched (trace (browser s)).

(** A method that changes nothing but the cache and the trace. *)
Definition cache_and_trace_only {A} (m : M A) : Prop :=
  ∀ s, ∃ c t, snd (m s) = set_cache c (append_trace t s).

(** The routes that match [matchUrl], in the order of the route map, with
    the parameters they bind. *)
Fixpoint matching (rs : list (list N * handler)) (matchUrl : list N)
  : list (list N * gmap (list N) (list N) * handler) :=
  match rs with
  | [] => []
  | (pattern, callback) :: rs' =>
      match parsePath pattern matchUrl with
      | Ret (Some params) => (pattern, params, callback) :: matching rs' matchUrl
      | _ => matching rs' matchUrl
      end
  end.

Definition result_of
    (m : list N * gmap (list N) (list N) * handler) : HandlerResult :=
  match m.2 (m.1.2) with
  | Ret r => r
  | Throw _ => RNullish
  end.

(** The content before each matching callback, from [acc] on. *)
Fixpoint overlays (ms : list (list N * gmap (list N) (list N) * handler))
    (acc : gmap (list N) jsval) : list (gmap (list N) jsval) :=
  match ms with
  | [] => []
  | m :: ms' => acc :: overlays ms' (apply_result acc (result_of m))
  end.

(** The per-pattern events of a navigation to [url]. *)
Definition route_events (url : list N)
    (ms : list (list N * gmap (list N) (list N) * handler))
    (acc : gmap (list N) jsval) : list (list N * gmap (list N) jsval) :=
  zip_with (fun m before =>
              (js "route:" ++ m.1.1,
               <[js "params" := VParams m.1.2]> (with_url url before)))
    ms (overlays ms acc).

(** ** Collaborators of the examples *)

(** A server on which [/broken] is unreachable, [/missing] answers 404 and
    every other URL answers 200, each with a bare fragment; on such a
    document [parseHTML] finds no title and returns the text as body.  The
    page is of another origin than [https://other.example], whose URLs
    [history] refuses. *)
Definition demo_env : Env :=
  {| env_fetch := fun _ url _ =>
       if jsstring_eqb url (js "/broken")
       then Throw (Thrown (js "TypeError: Failed to fetch"))
       else Ret {| resp_status := if jsstring_eqb url (js "/missing")
                                  then 404 else 200;
                   resp_text := Ret (js "<p>" ++ url ++ js "</p>") |};
     env_parseHTML := fun text _ =>
       Ret {| page_title := []; page_body := text |};
     env_history_accepts := fun url =>
       negb (jsstring_eqb (take 22 url) (js "https://other.example/")) |}.

(** An eligible same-origin anchor [<a href="/about">]. *)
Definition demo_link : LinkElement :=
  {| link_id := 7; link_href := Some (js "/about"); link_is_anchor := true;
     link_target_blank := false; link_download := false;
     link_rel_external := false; link_same_origin := Some true;
     link_no_prefetch := false |}.

(** [new MiniRouter({ prefetchDelay: 150 })] *)
Definition delayed_router : state :=
  new_MiniRouter true true (js "#app") true 150 (js "Home") (Some []).

(** Two callbacks and the router of the [/posts] example. *)
Definition overlay_title (t : list N) : handler :=
  fun _ => Ret (RObject {[ js "title" := VStr t ]}).

Definition replace_body (b : list N) : handler :=
  fun _ => Ret (RString b).

Definition posts_router (first second : handler) : state :=
  snd ((route (js "/posts/:id") first;;
        route (js "/posts/*") second) default_router).

(** The trace of [navigate("/posts/7")] when the first callback overlays
    the title [t] and the second returns the body [B]. *)
Definition posts_trace (t : list N) : list effect :=
  trace (browser (snd (navigate demo_env (js "/posts/7") false
                         (posts_router (overlay_title t)
                            (replace_body (js "B")))))).

(** * The rest of [MiniRouter] *)

(** ** [clearCache], [getCacheInfo] *)

(** [url] is [None] when the argument is left out; the empty string is
    falsy like [undefined]. *)
Definition clearCache (url : option (list N)) : M unit :=
  match url with
  | Some (c :: u) =>
      modify (fun s => set_cache (delete (c :: u) (cache (router s))) s)
  | Some [] | None => modify (set_cache ∅)
  end.

Record CacheInfo := {
  info_size : nat;
  info_urls : list (list N);
}.

(** The keys are listed without the insertion order of the [Map], which the
    cache of the model does not keep. *)
Definition getCacheInfo (s : state) : CacheInfo :=
  {| info_size := size (cache (router s));
     info_urls := (map_to_list (cache (router s))).*1 |}.

(** ** The click and popstate listeners *)

(** A call of an [async] method whose promise is not awaited: the caller
    goes on whether the promise fulfils or rejects. *)
Definition detached {A} (m : M A) : M (res A) :=
  fun s => (Ret (m s).1, (m s).2).

Record ClickEvent := {
  click_defaultPrevented : bool;
  click_button : Z;
  click_metaKey : bool;
  click_ctrlKey : bool;
  click_shiftKey : bool;
  click_altKey : bool;
}.

(** Whether the listener has called [e.preventDefault()], and then how the
    navigation it started ends. *)
Inductive ClickOutcome :=
  | NotIntercepted
  | Intercepted (navigation : res unit).

(** What [new URL(href, location.origin)] throws on a malformed [href]. *)
Definition invalid_url : exn :=
  Thrown (js "TypeError: Failed to construct 'URL': Invalid URL").

(** The [click] listener of [_initLinkHandler]; [data_link] is
    [link.hasAttribute("data-link")]. *)
Definition on_click (E : Env) (e : ClickEvent) (target : option LinkElement)
    (data_link : bool) : M ClickOutcome :=
  s ← get_state;
  if click_defaultPrevented e then mret NotIntercepted
  else if negb (click_button e =? 0)%Z || click_metaKey e || click_ctrlKey e
          || click_shiftKey e || click_altKey e
  then mret NotIntercepted
  else
    match target with
    | None => mret NotIntercepted
    | Some link =>
        if negb (interceptAllLinks (router s)) && negb data_link
        then mret NotIntercepted
        else
          match link_href link with
          | None | Some [] => mret NotIntercepted
          | Some href =>
              if link_is_anchor link then
                if link_target_blank link || link_download link
                   || link_rel_external link
                then mret NotIntercepted
                else
                  match link_same_origin link with
                  | None => throw invalid_url
                  | Some false => mret NotIntercepted
                  | Some true =>
                      r ← detached (navigate E href false);
                      mret (Intercepted r)
                  end
              else
                r ← detached (navigate E href false);
                mret (Intercepted r)
          end
    end.

(** The [popstate] listener; [location] is
    [location.pathname + location.search + location.hash]. *)
Definition on_popstate (E : Env) (location : list N) : M (res unit) :=
  detached (navigate E location true).

(** ** Vocabulary of the further properties *)

(** The history entries and the changes of the document in a trace. *)
Definition history_effect (e : effect) : option effect :=
  match e with
  | EPushState _ _ | EReplaceState _ _ => Some e
  | _ => None
  end.

Definition dom_effect (e : effect) : option effect :=
  match e with
  | ESetTitle _ | ESetInnerHTML _ | EExecuteScripts => Some e
  | _ => None
  end.

(** A method that adds to the trace no effect selected by [f]. *)
Definition keeps {A B} (f : effect -> option B) (m : M A) : Prop :=
  ∀ s, omap f (trace (browser (snd (m s)))) = omap f (trace (browser s)).

(** The calls of the listeners in [ls], in their order. *)
Definition listener_calls (ls : list listener) (event : list N)
    (payload : gmap (list N) jsval) : list effect :=
  (fun l => EListener (l_id l) event payload) <$> ls.

(** A link that neither listener filters out on its attributes. *)
Definition plain_link (link : LinkElement) : bool :=
  negb (link_is_anchor link
        && (link_target_blank link || link_download link
            || link_rel_external link
            || negb (default false (link_same_origin link)))).

(** [normalizePath] from the stripping of the trailing slashes on. *)
Definition normalize_tail (p : list N) : list N :=
  let p := if (1 <? length p)%nat then strip_trailing_slashes p else p in
  let p := if negb (jsstring_eqb p (js "/"))
           then strip_suffix_ci (js ".html") p else p in
  let p := strip_suffix_ci (js "/index") p in
  let p := if (1 <? length p)%nat then strip_trailing_slashes p else p in
  if starts_with_char c_slash p then p else c_slash :: p.

(** A method that changes nothing but the cache and the trace, and adds to
    the trace no effect selected by [f]. *)
Definition tidy {A B} (f : effect -> option B) (m : M A) : Prop :=
  ∀ s, ∃ c t, snd (m s) = set_cache c (append_trace t s) ∧ omap f t = [].

(** The page a navigation to [url] works with in state [s]: the cached
    entry, or else the fetched page, or else the fallback. *)
Definition lookaside_page (E : Env) (s : state) (url : list N) : Page :=
  match cache (router s) !! url with
  | Some d => d
  | None =>
      match fetch_outcome E s url false with
      | Ret d => d
      | Throw err => fallback_page err
      end
  end.

(** The state after the lookaside of a navigation to [url]. *)
Definition lookaside_state (E : Env) (s : state) (url : list N) : state :=
  match cache (router s) !! url with
  | Some _ => s
  | None =>
      set_cache (<[url := lookaside_page E s url]> (cache (router s)))
        (append_trace [EFetch url (request_headers false)] s)
  end.

(** What a navigation does to the page the user sees: document and history. *)
Definition ui_effect (e : effect) : option effect :=
  match e with
  | ESetTitle _ | ESetInnerHTML _ | EExecuteScripts
  | EPushState _ _ | EReplaceState _ _ => Some e
  | _ => None
  end.

(** The entry that [navigate] hands to [history]. *)
Definition history_entry (rawUrl : list N) (replace : bool) (title_ : jsval)
  : effect :=
  if replace then EReplaceState title_ rawUrl else EPushState title_ rawUrl.

(** A pattern none of whose segments is a parameter or the wildcard. *)
Definition literal_pattern (pattern : list N) : Prop :=
  Forall (fun a => a ≠ js "*" ∧ starts_with_char c_colon a = false)
    (segments (normalizePath pattern)).


(** * Properties *)

(** ** The definitions on the examples of the specification *)

Example normalize_empty : normalizePath [] = js "/".
Proof. reflexivity. Qed.

Example normalize_root : normalizePath (js "/") = js "/".
Proof. reflexivity. Qed.

Example normalize_docs :
  normalizePath (js "/docs/index.html") = js "/docs"
  ∧ normalizePath (js "/docs/index") = js "/docs"
  ∧ normalizePath (js "/docs/") = js "/docs"
  ∧ normalizePath (js "docs//?page=2#top") = js "/docs".
Proof. by vm_compute. Qed.

Example decode_ascii_escape :
  decodeURIComponent (js "a%2Fb%20c") = Ret (js "a/b c").
Proof. by vm_compute. Qed.

(** U+00E9, U+20AC and U+1F600 (a surrogate pair). *)
Example decode_utf8 :
  decodeURIComponent (js "%C3%A9%E2%82%AC%F0%9F%98%80")
  = Ret [233; 8364; 55357; 56832].
Proof. by vm_compute. Qed.

(** A lone [%], a truncated sequence, an overlong encoding, an encoded
    surrogate and a code point above U+10FFFF are malformed. *)
Example decode_malformed :
  decodeURIComponent (js "100%") = Throw URIError
  ∧ decodeURIComponent (js "%E2%82") = Throw URIError
  ∧ decodeURIComponent (js "%C0%AF") = Throw URIError
  ∧ decodeURIComponent (js "%ED%A0%80") = Throw URIError
  ∧ decodeURIComponent (js "%F4%90%80%80") = Throw URIError
  ∧ decodeURIComponent (js "%80") = Throw URIError.
Proof. by vm_compute. Qed.

(** A wildcard before the last segment ends the walk where it stands. *)
Example wildcard_in_the_middle :
  parsePath (js "/a/*/b") (js "/a/x/y")
  = Ret (Some {[ js "*" := js "x/y" ]}).
Proof. by vm_compute. Qed.

Example parameter_named_proto :
  parsePath (js "/:__proto__/:id") (js "/x/42")
  = Ret (Some {[ js "id" := js "42" ]}).
Proof. by vm_compute. Qed.

Example navigate_cross_origin :
  let r := navigate demo_env (js "https://other.example/x") false
             default_router in
  fst r = Throw security_error
  ∧ app_container (browser (snd r)) = Some (js "<p>https://other.example/x</p>")
  ∧ omap history_effect (trace (browser (snd r))) = []
  ∧ fst (navigate demo_env (js "/about") false default_router) = Ret tt.
Proof. by vm_compute. Qed.

Example normalizeUrl_appends_extension :
  _normalizeUrl (router default_router) (js "/posts/7?draft=1")
  = js "/posts/7.html"
  ∧ _normalizeUrl (router default_router) (js "/") = js "/".
Proof. by vm_compute. Qed.

(** ** Path normalization *)

Section normalize_facts.

Implicit Types s p q path : list N.

Lemma before_query_or_hash_clean s :
  no_query_or_hash (before_query_or_hash s).
Proof.
  induction s as [|c r IH]; simpl; [constructor|].
  destruct (N.eqb_spec c c_question) as [|Hq]; simpl; [constructor|].
  destruct (N.eqb_spec c c_hash) as [|Hh]; simpl; [constructor|].
  by constructor.
Qed.

Lemma before_query_or_hash_id s :
  no_query_or_hash s -> before_query_or_hash s = s.
Proof.
  induction 1 as [|c r [Hq Hh] _ IH]; simpl; [done|].
  apply N.eqb_neq in Hq, Hh. by rewrite Hq, Hh, IH.
Qed.

Lemma before_query_or_hash_length s :
  (length (before_query_or_hash s) <= length s)%nat.
Proof.
  induction s as [|c r IH]; simpl; [lia|].
  destruct (_ || _); simpl; lia.
Qed.

Lemma strip_trailing_slashes_prefix s :
  strip_trailing_slashes s `prefix_of` s.
Proof.
  induction s as [|c r IH]; simpl; [done|].
  destruct (strip_trailing_slashes r) as [|d r'] eqn:E.
  - destruct (c =? c_slash); [apply prefix_nil|].
    apply prefix_cons, prefix_nil.
  - by apply prefix_cons.
Qed.

Lemma strip_trailing_slashes_length s :
  (length (strip_trailing_slashes s) <= length s)%nat.
Proof. apply prefix_length, strip_trailing_slashes_prefix. Qed.

Lemma strip_trailing_slashes_last s :
  last (strip_trailing_slashes s) ≠ Some c_slash.
Proof.
  induction s as [|c r IH]; simpl; [done|].
  destruct (strip_trailing_slashes r) as [|d r'] eqn:E.
  - destruct (N.eqb_spec c c_slash); simpl; congruence.
  - by rewrite last_cons_cons.
Qed.

Lemma strip_trailing_slashes_id s :
  last s ≠ Some c_slash -> strip_trailing_slashes s = s.
Proof.
  induction s as [|c r IH]; simpl; [done|]. intros Hl.
  destruct r as [|d r'].
  - simpl in *. destruct (N.eqb_spec c c_slash); congruence.
  - rewrite last_cons_cons in Hl. by rewrite (IH Hl).
Qed.

Lemma strip_suffix_ci_prefix suf s : strip_suffix_ci suf s `prefix_of` s.
Proof.
  unfold strip_suffix_ci. destruct (has_suffix_ci suf s); [|done].
  apply prefix_take.
Qed.

Lemma strip_suffix_ci_length suf s :
  (length (strip_suffix_ci suf s) <= length s)%nat.
Proof. apply prefix_length, strip_suffix_ci_prefix. Qed.

Lemma strip_suffix_ci_shrinks suf s :
  has_suffix_ci suf s = true ->
  (length (strip_suffix_ci suf s) + length suf = length s)%nat.
Proof.
  unfold strip_suffix_ci. intros H. rewrite H.
  unfold has_suffix_ci in H. apply andb_true_iff in H as [Hl _].
  apply Nat.leb_le in Hl. rewrite length_take. lia.
Qed.

Lemma strip_suffix_ci_id suf s :
  has_suffix_ci suf s = false -> strip_suffix_ci suf s = s.
Proof. unfold strip_suffix_ci. by intros ->. Qed.

Lemma prefix_clean s t :
  s `prefix_of` t -> no_query_or_hash t -> no_query_or_hash s.
Proof. intros [k ->] H. by apply Forall_app in H as [H _]. Qed.

Lemma slash_clean : no_query_or_hash (js "/").
Proof. repeat constructor; done. Qed.

Lemma normalizePath_normal_form path : normal_form (normalizePath path).
Proof.
  unfold normalizePath. destruct path as [|c0 path0].
  { split; [done|apply slash_clean|by left]. }
  set (path := c0 :: path0).
  set (p1 := before_query_or_hash path).
  set (p2 := if (1 <? length p1)%nat then strip_trailing_slashes p1 else p1).
  set (p3 := if negb (jsstring_eqb p2 (js "/"))
             then strip_suffix_ci (js ".html") p2 else p2).
  set (p4 := strip_suffix_ci (js "/index") p3).
  set (p5 := if (1 <? length p4)%nat then strip_trailing_slashes p4 else p4).
  assert (Hc1 : no_query_or_hash p1) by apply before_query_or_hash_clean.
  assert (Hc2 : no_query_or_hash p2).
  { subst p2. destruct (1 <? length p1)%nat; [|done].
    eapply prefix_clean; [apply strip_trailing_slashes_prefix|done]. }
  assert (Hc3 : no_query_or_hash p3).
  { subst p3. destruct (negb _); [|done].
    eapply prefix_clean; [apply strip_suffix_ci_prefix|done]. }
  assert (Hc4 : no_query_or_hash p4).
  { eapply prefix_clean; [apply strip_suffix_ci_prefix|done]. }
  assert (Hc5 : no_query_or_hash p5).
  { subst p5. destruct (1 <? length p4)%nat; [|done].
    eapply prefix_clean; [apply strip_trailing_slashes_prefix|done]. }
  assert (Ht5 : (length p5 <= 1)%nat ∨ last p5 ≠ Some c_slash).
  { subst p5. destruct (Nat.ltb_spec 1 (length p4)); [right|left; lia].
    apply strip_trailing_slashes_last. }
  clearbody p5. clear -Hc5 Ht5.
  destruct p5 as [|d r]; simpl.
  { split; [done|apply slash_clean|by left]. }
  destruct (N.eqb_spec d c_slash) as [->|Hd].
  - split; [done|done|].
    destruct Ht5 as [Hlen|Hlast]; [|by right].
    destruct r; [by left|simpl in Hlen; lia].
  - split; [done| |].
    + constructor; [done|done].
    + right. rewrite last_cons_cons.
      destruct Ht5 as [Hlen|Hlast]; [|done].
      destruct r; [|simpl in Hlen; lia]. simpl. congruence.
Qed.

(** A normal form without a strippable suffix is a fixed point. *)
Lemma normalizePath_fixed q :
  normal_form q ->
  has_suffix_ci (js ".html") q = false ->
  has_suffix_ci (js "/index") q = false ->
  normalizePath q = q.
Proof.
  intros [Hlead Hclean Htrail] Hhtml Hindex.
  unfold normalizePath. destruct q as [|c q']; [done|].
  rewrite (before_query_or_hash_id _ Hclean).
  assert (Hstrip : (if (1 <? length (c :: q'))%nat
                    then strip_trailing_slashes (c :: q') else c :: q')
                   = c :: q').
  { destruct (Nat.ltb_spec 1 (length (c :: q'))) as [Hlen|_]; [|done].
    destruct Htrail as [Hroot|Hl]; [|by apply strip_trailing_slashes_id].
    rewrite Hroot in Hlen. simpl in Hlen. lia. }
  rewrite Hstrip.
  rewrite (strip_suffix_ci_id _ _ Hhtml).
  assert (Hstep4 : (if negb (jsstring_eqb (c :: q') (js "/"))
                    then c :: q' else c :: q') = c :: q')
    by (by destruct (negb _)).
  rewrite Hstep4, (strip_suffix_ci_id _ _ Hindex), Hstrip.
  by rewrite Hlead.
Qed.

(** A normal form with a strippable suffix loses it, and becomes shorter. *)
Lemma normalizePath_shrinks q :
  normal_form q ->
  has_suffix_ci (js ".html") q = true ∨ has_suffix_ci (js "/index") q = true ->
  (length (normalizePath q) < length q)%nat.
Proof.
  intros [Hlead Hclean Htrail] Hsuf.
  unfold normalizePath. destruct q as [|c q']; [done|].
  rewrite (before_query_or_hash_id _ Hclean).
  assert (Hstrip : (if (1 <? length (c :: q'))%nat
                    then strip_trailing_slashes (c :: q') else c :: q')
                   = c :: q').
  { destruct (Nat.ltb_spec 1 (length (c :: q'))) as [Hlen|_]; [|done].
    destruct Htrail as [Hroot|Hl]; [|by apply strip_trailing_slashes_id].
    rewrite Hroot in Hlen. simpl in Hlen. lia. }
  rewrite Hstrip. set (q := c :: q') in *.
  set (p3 := if negb (jsstring_eqb q (js "/"))
             then strip_suffix_ci (js ".html") q else q).
  set (p4 := strip_suffix_ci (js "/index") p3).
  assert (H3 : (length p3 <= length q)%nat).
  { subst p3. destruct (negb _); [apply strip_suffix_ci_length|lia]. }
  assert (H4 : (length p4 + 5 <= length q)%nat).
  { destruct (has_suffix_ci (js ".html") q) eqn:Hhtml.
    - pose proof (strip_suffix_ci_shrinks _ _ Hhtml) as Hs.
      change (length (js ".html")) with 5%nat in Hs.
      assert (Hne : jsstring_eqb q (js "/") = false).
      { apply bool_decide_eq_false. intros E. rewrite E in Hs.
        simpl in Hs. lia. }
      pose proof (strip_suffix_ci_length (js "/index") p3).
      subst p4 p3. rewrite Hne in *. simpl in *. lia.
    - destruct Hsuf as [?|Hindex]; [congruence|].
      assert (Hp3 : p3 = q).
      { subst p3. destruct (negb _); [by apply strip_suffix_ci_id|done]. }
      subst p4. rewrite Hp3.
      pose proof (strip_suffix_ci_shrinks _ _ Hindex) as Hs.
      change (length (js "/index")) with 6%nat in Hs. lia. }
  assert (H5 : (length (if (1 <? length p4)%nat
                        then strip_trailing_slashes p4 else p4)
                <= length p4)%nat).
  { destruct (1 <? length p4)%nat; [apply strip_trailing_slashes_length|lia]. }
  match goal with
  | |- context [if ?b then _ else _] => destruct b
  end; [|rewrite length_cons]; lia.
Qed.

End normalize_facts.

(** ** Percent-decoding and joining *)

Section decode_facts.

Implicit Types a b s : list N.

Lemma decode_from_app_slash st a b :
  decode_from st (a ++ c_slash :: b) =
  res_bind (decode_from st a) (fun a' =>
    res_bind (decodeURIComponent b) (fun b' => Ret (a' ++ c_slash :: b'))).
Proof.
  revert st. induction a as [|c a IH]; intros st.
  - destruct st; simpl; done.
  - simpl. destruct (dstep st c) as [[st' out]|]; [|done].
    rewrite IH. destruct (decode_from st' a) as [a'|]; [|done]. simpl.
    destruct (decodeURIComponent b) as [b'|]; [|done]. simpl.
    by rewrite app_assoc.
Qed.

Lemma decodeURIComponent_app_slash a b :
  decodeURIComponent (a ++ c_slash :: b) =
  res_bind (decodeURIComponent a) (fun a' =>
    res_bind (decodeURIComponent b) (fun b' => Ret (a' ++ c_slash :: b'))).
Proof. apply decode_from_app_slash. Qed.

(** Decoding a joined path is decoding each segment and joining again. *)
Lemma decodeURIComponent_join l r :
  decodeURIComponent (join_slash l) = Ret r ->
  ∃ ds, Forall2 (fun u d => decodeURIComponent u = Ret d) l ds
        ∧ r = join_slash ds.
Proof.
  revert r. induction l as [|x l IH]; intros r.
  - simpl. intros [= <-]. by exists [].
  - destruct l as [|y l].
    + simpl. intros H. exists [r]. split; [|reflexivity].
      by repeat constructor.
    + change (join_slash (x :: y :: l))
        with (x ++ c_slash :: join_slash (y :: l)).
      rewrite decodeURIComponent_app_slash.
      destruct (decodeURIComponent x) as [x'|] eqn:Hx; [|done].
      cbn [res_bind].
      destruct (decodeURIComponent (join_slash (y :: l))) as [t|] eqn:Ht;
        [|done].
      cbn [res_bind]. intros [= <-].
      destruct (IH t eq_refl) as (ds & Hds & ->).
      exists (x' :: ds). split; [by constructor|].
      inversion Hds; subst. done.
Qed.

End decode_facts.

(** ** The matching loop *)

Section match_facts.

Implicit Types ps us : list (list N).
Implicit Types p : gmap (list N) (list N).
Implicit Types a b key : list N.

Lemma lookup_obj_set_eq p key v :
  key ≠ js "__proto__" -> obj_set p key v !! key = Some v.
Proof.
  intros H. unfold obj_set, jsstring_eqb.
  rewrite bool_decide_eq_false_2 by done. apply lookup_insert_eq.
Qed.

Lemma lookup_obj_set_ne p key key' v :
  key ≠ key' -> obj_set p key v !! key' = p !! key'.
Proof.
  intros H. unfold obj_set. destruct (jsstring_eqb _ _); [done|].
  by apply lookup_insert_ne.
Qed.

Lemma lookup_obj_set_is_Some p key key' v :
  is_Some (p !! key') -> is_Some (obj_set p key v !! key').
Proof.
  intros H. unfold obj_set. destruct (jsstring_eqb _ _); [done|].
  rewrite lookup_insert. by case_decide.
Qed.

(** What one successful turn of the loop has done. *)
Lemma match_loop_cons_inv a ps i us p0 p :
  match_loop (a :: ps) i us p0 = Ret (Some p) ->
  (a = js "*" ∧ ∃ d, decodeURIComponent (join_slash (drop i us)) = Ret d
                     ∧ p = obj_set p0 (js "*") d)
  ∨ (a ≠ js "*" ∧ starts_with_char c_colon a = true
     ∧ ∃ b d, us !! i = Some b ∧ b ≠ [] ∧ decodeURIComponent b = Ret d
              ∧ match_loop ps (S i) us (obj_set p0 (drop 1 a) d)
                = Ret (Some p))
  ∨ (a ≠ js "*" ∧ starts_with_char c_colon a = false
     ∧ us !! i = Some a ∧ match_loop ps (S i) us p0 = Ret (Some p)).
Proof.
  cbn [match_loop]. unfold jsstring_eqb at 1.
  case_bool_decide as Hstar.
  - intros H. left. split; [done|].
    destruct (decodeURIComponent _) as [d|]; [|done].
    simpl in H. injection H as <-. by exists d.
  - destruct (starts_with_char c_colon a) eqn:Hcolon.
    + intros H. right; left. split; [done|]. split; [done|].
      destruct (us !! i) as [[|c b]|] eqn:Hb; [done| |done].
      destruct (decodeURIComponent (c :: b)) as [d|] eqn:Hd; [|done].
      simpl in H. by exists (c :: b), d.
    + case_bool_decide as Hb; [|done].
      intros H. right; right. done.
Qed.

Lemma match_loop_keeps ps i us p0 p key :
  match_loop ps i us p0 = Ret (Some p) ->
  is_Some (p0 !! key) -> is_Some (p !! key).
Proof.
  revert i p0. induction ps as [|a ps IH]; intros i p0 H Hk.
  - by injection H as <-.
  - apply match_loop_cons_inv in H
      as [(_ & d & _ & ->)|[(_ & _ & b & d & _ & _ & _ & H)|(_ & _ & _ & H)]].
    + by apply lookup_obj_set_is_Some.
    + eapply IH; [done|]. by apply lookup_obj_set_is_Some.
    + by eapply IH.
Qed.

(** Keys that the pattern does not name are left alone. *)
Lemma match_loop_frame ps i us p0 p key :
  match_loop ps i us p0 = Ret (Some p) ->
  key ∉ param_keys (stem ps) ->
  (key = js "*" -> js "*" ∉ ps) ->
  p !! key = p0 !! key.
Proof.
  revert i p0. induction ps as [|a ps IH]; intros i p0 H Hk Hs.
  - by injection H as <-.
  - apply match_loop_cons_inv in H
      as [(-> & d & _ & ->)|[(Ha & Hc & b & d & _ & _ & _ & H)|(Ha & Hc & _ & H)]].
    + apply lookup_obj_set_ne. intros E. symmetry in E.
      apply (Hs E). by left.
    + simpl in Hk. unfold jsstring_eqb in Hk.
      rewrite bool_decide_eq_false_2 in Hk by done.
      simpl in Hk. rewrite Hc in Hk.
      apply not_elem_of_cons in Hk as [Hne Hk].
      rewrite (IH _ _ H Hk).
      * by apply lookup_obj_set_ne.
      * intros E Hin. apply (Hs E). by right.
    + simpl in Hk. unfold jsstring_eqb in Hk.
      rewrite bool_decide_eq_false_2 in Hk by done.
      simpl in Hk. rewrite Hc in Hk.
      apply (IH _ _ H Hk). intros E Hin. apply (Hs E). by right.
Qed.

(** Every segment before the wildcard has accepted its URL segment, and a
    parameter that is not bound again holds the decoded segment. *)
Lemma match_loop_segments ps i us p0 p j a :
  match_loop ps i us p0 = Ret (Some p) ->
  stem ps !! j = Some a ->
  ∃ b, us !! (i + j)%nat = Some b
       ∧ if starts_with_char c_colon a
         then b ≠ [] ∧ ∃ d, decodeURIComponent b = Ret d
              ∧ (drop 1 a ≠ js "__proto__" ->
                 drop 1 a ∉ param_keys (drop (S j) (stem ps)) ->
                 (drop 1 a = js "*" -> js "*" ∉ ps) ->
                 p !! drop 1 a = Some d)
         else b = a.
Proof.
  revert i p0 j. induction ps as [|a0 ps IH]; intros i p0 j H Hj; [done|].
  apply match_loop_cons_inv in H
    as [(-> & d & _ & ->)|[(Ha & Hc & b & d & Hb & Hne & Hd & H)|(Ha & Hc & Hb & H)]].
  - done.
  - simpl in Hj. unfold jsstring_eqb in Hj.
    rewrite bool_decide_eq_false_2 in Hj by done.
    cbn [stem]. unfold jsstring_eqb.
    rewrite bool_decide_eq_false_2 by done.
    destruct j as [|j].
    + injection Hj as <-. rewrite Nat.add_0_r. exists b. split; [done|].
      rewrite Hc. split; [done|]. exists d. split; [done|].
      intros Hproto Hlater Hstar. simpl in Hlater. rewrite drop_0 in Hlater.
      rewrite (match_loop_frame _ _ _ _ _ _ H Hlater).
      * by apply lookup_obj_set_eq.
      * intros E Hin. apply (Hstar E). by right.
    + simpl in Hj. destruct (IH _ _ _ H Hj) as (b' & Hb' & Hrest).
      exists b'. split; [by rewrite <- Nat.add_succ_comm|].
      destruct (starts_with_char c_colon a); [|done].
      destruct Hrest as (? & d' & ? & Hbind). split; [done|].
      exists d'. split; [done|]. intros ? ? Hstar. apply Hbind; [done|done|].
      intros E Hin. apply (Hstar E). by right.
  - simpl in Hj. unfold jsstring_eqb in Hj.
    rewrite bool_decide_eq_false_2 in Hj by done.
    cbn [stem]. unfold jsstring_eqb.
    rewrite bool_decide_eq_false_2 by done.
    destruct j as [|j].
    + injection Hj as <-. rewrite Nat.add_0_r. exists a0. split; [done|].
      by rewrite Hc.
    + simpl in Hj. destruct (IH _ _ _ H Hj) as (b' & Hb' & Hrest).
      exists b'. split; [by rewrite <- Nat.add_succ_comm|].
      destruct (starts_with_char c_colon a); [|done].
      destruct Hrest as (? & d' & ? & Hbind). split; [done|].
      exists d'. split; [done|]. intros ? ? Hstar. apply Hbind; [done|done|].
      intros E Hin. apply (Hstar E). by right.
Qed.

(** The wildcard holds the decoded rest of the URL. *)
Lemma match_loop_wildcard ps i us p0 p :
  match_loop ps i us p0 = Ret (Some p) ->
  js "*" ∈ ps ->
  ∃ d, decodeURIComponent (join_slash (drop (i + length (stem ps)) us)) = Ret d
       ∧ p !! js "*" = Some d.
Proof.
  revert i p0. induction ps as [|a ps IH]; intros i p0 H Hin.
  - by apply elem_of_nil in Hin.
  - apply match_loop_cons_inv in H
      as [(-> & d & Hd & ->)|[(Ha & Hc & b & d & _ & _ & _ & H)|(Ha & Hc & _ & H)]].
    + exists d. simpl. rewrite Nat.add_0_r. split; [done|].
      by apply lookup_obj_set_eq.
    + apply elem_of_cons in Hin as [E|Hin]; [done|].
      destruct (IH _ _ H Hin) as (d' & Hd' & Hl). exists d'.
      cbn [stem]. unfold jsstring_eqb.
      rewrite bool_decide_eq_false_2 by done.
      simpl. by rewrite <- Nat.add_succ_comm.
    + apply elem_of_cons in Hin as [E|Hin]; [done|].
      destruct (IH _ _ H Hin) as (d' & Hd' & Hl). exists d'.
      cbn [stem]. unfold jsstring_eqb.
      rewrite bool_decide_eq_false_2 by done.
      simpl. by rewrite <- Nat.add_succ_comm.
Qed.

(** Every parameter name of the pattern is bound. *)
Lemma match_loop_binds ps i us p0 p key :
  match_loop ps i us p0 = Ret (Some p) ->
  key ∈ param_keys (stem ps) -> key ≠ js "__proto__" ->
  is_Some (p !! key).
Proof.
  revert i p0. induction ps as [|a ps IH]; intros i p0 H Hin Hproto.
  - by apply elem_of_nil in Hin.
  - apply match_loop_cons_inv in H
      as [(-> & d & _ & ->)|[(Ha & Hc & b & d & _ & _ & _ & H)|(Ha & Hc & _ & H)]].
    + by apply elem_of_nil in Hin.
    + simpl in Hin. unfold jsstring_eqb in Hin.
      rewrite bool_decide_eq_false_2 in Hin by done.
      simpl in Hin. rewrite Hc in Hin.
      apply elem_of_cons in Hin as [->|Hin]; [|by eapply IH].
      eapply match_loop_keeps; [done|].
      by rewrite lookup_obj_set_eq.
    + simpl in Hin. unfold jsstring_eqb in Hin.
      rewrite bool_decide_eq_false_2 in Hin by done.
      simpl in Hin. rewrite Hc in Hin. by eapply IH.
Qed.

(** A throw of the loop is a [URIError] from a malformed escape. *)
Lemma match_loop_throw ps i us p0 e :
  match_loop ps i us p0 = Throw e ->
  e = URIError
  ∧ ∃ j, (∃ b, us !! j = Some b ∧ decodeURIComponent b = Throw URIError)
         ∨ decodeURIComponent (join_slash (drop j us)) = Throw URIError.
Proof.
  assert (Hdec : ∀ s e', decodeURIComponent s = Throw e' -> e' = URIError).
  { unfold decodeURIComponent. intros s. generalize DText.
    induction s as [|c s IH]; intros st e'; simpl.
    - destruct st; congruence.
    - destruct (dstep st c) as [[st' out]|]; [|congruence].
      destruct (decode_from st' s) eqn:E; [done|].
      simpl. intros [= <-]. by eapply IH. }
  revert i p0. induction ps as [|a ps IH]; intros i p0; [done|].
  cbn [match_loop]. destruct (jsstring_eqb a (js "*")).
  - destruct (decodeURIComponent _) as [d|e'] eqn:Hd; [done|].
    simpl. intros [= <-]. pose proof (Hdec _ _ Hd) as ->.
    split; [done|]. exists i. by right.
  - destruct (starts_with_char c_colon a).
    + destruct (us !! i) as [[|c b]|] eqn:Hb; [done| |done].
      destruct (decodeURIComponent (c :: b)) as [d|e'] eqn:Hd.
      * simpl. apply IH.
      * simpl. intros [= <-]. pose proof (Hdec _ _ Hd) as ->.
        split; [done|]. exists i. left. by exists (c :: b).
    + case_bool_decide; [apply IH|done].
Qed.

Lemma decodeURIComponent_throws s e :
  decodeURIComponent s = Throw e -> e = URIError.
Proof.
  unfold decodeURIComponent. generalize DText. revert e.
  induction s as [|c s IH]; intros e st; simpl.
  - destruct st; congruence.
  - destruct (dstep st c) as [[st' out]|]; [|congruence].
    destruct (decode_from st' s) eqn:Hs; [done|].
    simpl. intros [= <-]. by eapply IH.
Qed.

(** Where the loop throws: at a parameter or at the wildcard that the walk
    has reached, on the URL segment, or the rest of the URL, it decodes
    there. *)
Lemma match_loop_throw_at ps i us p0 e :
  match_loop ps i us p0 = Throw e ->
  e = URIError
  ∧ ∃ j a,
      ps !! j = Some a ∧ (js "*" ∉ take j ps)
      ∧ ((a = js "*"
          ∧ decodeURIComponent (join_slash (drop (i + j) us)) = Throw URIError)
         ∨ (a ≠ js "*" ∧ starts_with_char c_colon a = true
            ∧ ∃ b, us !! (i + j)%nat = Some b
                   ∧ decodeURIComponent b = Throw URIError)).
Proof.
  revert i p0. induction ps as [|a ps IH]; intros i p0; [done|].
  assert (Hnext : ∀ p1, a ≠ js "*" ->
            match_loop ps (S i) us p1 = Throw e ->
            e = URIError
            ∧ ∃ j a0,
                (a :: ps) !! j = Some a0 ∧ (js "*" ∉ take j (a :: ps))
                ∧ ((a0 = js "*"
                    ∧ decodeURIComponent (join_slash (drop (i + j) us))
                      = Throw URIError)
                   ∨ (a0 ≠ js "*" ∧ starts_with_char c_colon a0 = true
                      ∧ ∃ b, us !! (i + j)%nat = Some b
                             ∧ decodeURIComponent b = Throw URIError))).
  { intros p1 Ha H. destruct (IH _ _ H) as (He & j & a0 & Hj & Hnot & Hat).
    split; [done|]. exists (S j), a0. split; [done|]. split.
    - cbn [take]. by apply not_elem_of_cons.
    - by rewrite Nat.add_succ_r. }
  cbn [match_loop]. unfold jsstring_eqb at 1. case_bool_decide as Hstar.
  - destruct (decodeURIComponent _) as [d|e'] eqn:Hd; [done|].
    simpl. intros [= <-]. pose proof (decodeURIComponent_throws _ _ Hd) as ->.
    split; [done|]. exists 0%nat, a. split; [done|]. split.
    + cbn [take]. apply not_elem_of_nil.
    + left. by rewrite Nat.add_0_r.
  - destruct (starts_with_char c_colon a) eqn:Hcolon.
    + destruct (us !! i) as [[|c b]|] eqn:Hb; [done| |done].
      destruct (decodeURIComponent (c :: b)) as [d|e'] eqn:Hd.
      * simpl. by apply Hnext.
      * simpl. intros [= <-].
        pose proof (decodeURIComponent_throws _ _ Hd) as ->.
        split; [done|]. exists 0%nat, a. split; [done|]. split.
        -- cbn [take]. apply not_elem_of_nil.
        -- right. split; [done|]. split; [done|]. exists (c :: b).
           by rewrite Nat.add_0_r.
    + case_bool_decide; [by apply Hnext|done].
Qed.

End match_facts.

(** ** [parsePath] *)

Section parsePath_facts.

Implicit Types ps us : list (list N).
Implicit Types pattern url : list N.

Lemma match_loop_complete ps us params :
  match_loop ps 0 us ∅ = Ret (Some params) -> complete_match ps us params.
Proof.
  intros H. repeat split.
  - intros j a Hj. apply (match_loop_segments _ _ _ _ _ _ _ H Hj).
  - intros key. apply (match_loop_binds _ _ _ _ _ _ H).
  - apply (match_loop_wildcard _ _ _ _ _ H).
  - intros key Hk.
    destruct (decide (key ∈ param_keys (stem ps))) as [|Hnot]; [by left|].
    destruct (decide (key = js "*" ∧ js "*" ∈ ps)) as [|Hstar]; [by right|].
    rewrite (match_loop_frame _ _ _ _ _ key H Hnot) in Hk.
    + rewrite lookup_empty in Hk. by destruct Hk.
    + intros E Hin. by apply Hstar.
Qed.

(** The two guards before the loop. *)
Lemma parsePath_unfold pattern url :
  parsePath pattern url =
    let ps := segments (normalizePath pattern) in
    let us := segments (normalizePath url) in
    if decide (last ps = Some (js "*"))
    then (if decide (length us < length ps - 1)%nat then Ret None
          else match_loop ps 0 us ∅)
    else (if decide (length ps = length us) then match_loop ps 0 us ∅
          else Ret None).
Proof.
  unfold parsePath, hasWildcard.
  set (ps := segments (normalizePath pattern)).
  set (us := segments (normalizePath url)). cbv zeta.
  destruct (decide (last ps = Some (js "*"))) as [Hw|Hw].
  - rewrite (bool_decide_eq_true_2 _ Hw). simpl.
    destruct (decide _) as [Hl|Hl].
    + by rewrite (proj2 (Nat.ltb_lt _ _) Hl).
    + by rewrite (proj2 (Nat.ltb_ge _ _)) by lia.
  - rewrite (bool_decide_eq_false_2 _ Hw). simpl.
    destruct (decide _) as [Hl|Hl].
    + by rewrite (bool_decide_eq_true_2 _ Hl).
    + by rewrite (bool_decide_eq_false_2 _ Hl).
Qed.

Lemma parsePath_success pattern url params :
  parsePath pattern url = Ret (Some params) ->
  match_loop (segments (normalizePath pattern)) 0
    (segments (normalizePath url)) ∅ = Ret (Some params)
  ∧ (length (segments (normalizePath pattern)) - 1
     <= length (segments (normalizePath url)))%nat.
Proof.
  rewrite parsePath_unfold. cbv zeta.
  repeat destruct (decide _); try done; intros H; split; try done; lia.
Qed.

Lemma segments_nonempty s b : b ∈ segments s -> b ≠ [].
Proof.
  unfold segments. intros Hin. apply list_elem_of_In in Hin.
  apply List.filter_In in Hin as [_ Hb]. by destruct b.
Qed.

Lemma last_wildcard_elem ps : last ps = Some (js "*") -> js "*" ∈ ps.
Proof.
  intros Hw. apply last_Some in Hw as [l' Hl']. rewrite Hl'.
  apply elem_of_app. right. by left.
Qed.

Lemma stem_length ps : (length (stem ps) <= length ps)%nat.
Proof.
  induction ps as [|a ps IH]; simpl; [lia|].
  destruct (jsstring_eqb _ _); simpl; lia.
Qed.

Lemma stem_length_wildcard ps :
  last ps = Some (js "*") -> (length (stem ps) < length ps)%nat.
Proof.
  induction ps as [|a ps IH]; [done|]. intros Hl. simpl.
  unfold jsstring_eqb. case_bool_decide as Ha; simpl; [lia|].
  destruct ps as [|a' ps]; [simpl in Hl; congruence|].
  rewrite last_cons_cons in Hl. specialize (IH Hl). lia.
Qed.

(** With a single, trailing wildcard the stem is everything before it. *)
Lemma stem_single_wildcard ps :
  last ps = Some (js "*") ->
  js "*" ∉ take (length ps - 1) ps ->
  length (stem ps) = (length ps - 1)%nat.
Proof.
  induction ps as [|a ps IH]; [done|]. intros Hl Hnot.
  destruct ps as [|a' ps].
  - simpl in Hl. injection Hl as ->. reflexivity.
  - rewrite last_cons_cons in Hl.
    replace (length (a :: a' :: ps) - 1)%nat with (S (length (a' :: ps) - 1))
      in Hnot by (simpl; lia).
    cbn [take] in Hnot. apply not_elem_of_cons in Hnot as [Ha Hnot].
    change (stem (a :: a' :: ps))
      with (if jsstring_eqb a (js "*") then [] else a :: stem (a' :: ps)).
    unfold jsstring_eqb. rewrite bool_decide_eq_false_2 by done.
    rewrite length_cons, (IH Hl Hnot). simpl. lia.
Qed.

Lemma match_loop_literals pre us0 p :
  Forall (fun b => b ≠ js "*" ∧ starts_with_char c_colon b = false) pre ->
  match_loop (pre ++ [js "*"]) (length us0) (us0 ++ pre) p
  = Ret (Some (obj_set p (js "*") [])).
Proof.
  intros Hpre. revert us0.
  induction Hpre as [|a pre [Hstar Hcolon] _ IH]; intros us0.
  - cbn [app match_loop]. unfold jsstring_eqb at 1.
    rewrite bool_decide_eq_true_2 by done.
    rewrite app_nil_r, drop_all. reflexivity.
  - cbn [app match_loop]. unfold jsstring_eqb at 1.
    rewrite bool_decide_eq_false_2 by done. rewrite Hcolon.
    rewrite list_lookup_middle by done.
    rewrite bool_decide_eq_true_2 by done.
    specialize (IH (us0 ++ [a])).
    rewrite length_app, Nat.add_1_r, <- app_assoc in IH. apply IH.
Qed.

(** A trailing wildcard after segments that accept the whole URL. *)
Lemma match_loop_snoc_wildcard pre i us p :
  js "*" ∉ pre ->
  length us = (i + length pre)%nat ->
  (∀ b, b ∈ us -> b ≠ []) ->
  (∀ j a, pre !! j = Some a ->
     ∃ b, us !! (i + j)%nat = Some b
          ∧ if starts_with_char c_colon a
            then ∃ d, decodeURIComponent b = Ret d
            else b = a) ->
  ∃ params, match_loop (pre ++ [js "*"]) i us p = Ret (Some params)
            ∧ params !! js "*" = Some [].
Proof.
  revert i p. induction pre as [|a pre IH]; intros i p Hnot Hlen Hne Hacc.
  - cbn [app match_loop]. unfold jsstring_eqb at 1.
    rewrite bool_decide_eq_true_2 by done.
    rewrite drop_ge by (simpl in Hlen; lia).
    exists (obj_set p (js "*") []). split; [reflexivity|].
    apply lookup_obj_set_eq. by compute.
  - apply not_elem_of_cons in Hnot as [Ha Hnot].
    destruct (Hacc 0%nat a eq_refl) as (b & Hb & Hab).
    rewrite Nat.add_0_r in Hb.
    assert (Hrest : ∀ j a', pre !! j = Some a' ->
              ∃ b', us !! (S i + j)%nat = Some b'
                    ∧ if starts_with_char c_colon a'
                      then ∃ d, decodeURIComponent b' = Ret d
                      else b' = a').
    { intros j a' Hj. destruct (Hacc (S j) a' Hj) as (b' & Hb' & Hab').
      exists b'. by rewrite Nat.add_succ_r in Hb'. }
    assert (Hlen' : length us = (S i + length pre)%nat) by (simpl in Hlen; lia).
    cbn [app match_loop]. unfold jsstring_eqb at 1.
    rewrite bool_decide_eq_false_2 by done. rewrite Hb.
    destruct (starts_with_char c_colon a).
    + destruct Hab as [d Hd].
      assert (Hbne : b ≠ []) by (apply Hne; by eapply list_elem_of_lookup_2).
      destruct b as [|c b]; [done|]. rewrite Hd. cbn [res_bind].
      by apply IH.
    + subst b. rewrite bool_decide_eq_true_2 by done. by apply IH.
Qed.

End parsePath_facts.



(** C3, as stated, fails: one application strips one [.html] only. *)
Lemma normalizePath_not_idempotent :
  ¬ (∀ path : list N, normalizePath (normalizePath path) = normalizePath path).
Proof.
  intros H. specialize (H (js "/a.html.html")).
  vm_compute in H. discriminate H.
Qed.

(** C3 (amended): normalization is idempotent at every path whose normalized
    form does not itself end, case-insensitively, in [.html] or in [/index]. *)
Theorem normalizePath_idempotent_unless_suffix (path : list N) :
  has_suffix_ci (js ".html") (normalizePath path) = false ->
  has_suffix_ci (js "/index") (normalizePath path) = false ->
  normalizePath (normalizePath path) = normalizePath path.
Proof.
  intros Hhtml Hindex.
  apply normalizePath_fixed; [apply normalizePath_normal_form|done|done].
Qed.

Lemma normalizePath_idempotent_unless_suffix_witness :
  has_suffix_ci (js ".html") (normalizePath (js "/Docs/index.HTML?x=1#top")) = false
  ∧ has_suffix_ci (js "/index") (normalizePath (js "/Docs/index.HTML?x=1#top")) = false
  ∧ normalizePath (normalizePath (js "/Docs/index.HTML?x=1#top"))
    = normalizePath (js "/Docs/index.HTML?x=1#top").
Proof.
  split; [reflexivity|]. split; [reflexivity|].
  apply (normalizePath_idempotent_unless_suffix (js "/Docs/index.HTML?x=1#top"));
    reflexivity.
Defined.

(** The condition is exact: where a suffix is left, a second application
    changes the path. *)
Lemma normalizePath_second_pass_strips (path : list N) :
  has_suffix_ci (js ".html") (normalizePath path) = true
  ∨ has_suffix_ci (js "/index") (normalizePath path) = true ->
  normalizePath (normalizePath path) ≠ normalizePath path.
Proof.
  intros Hsuf E.
  pose proof (normalizePath_shrinks _ (normalizePath_normal_form path) Hsuf).
  rewrite E in *. lia.
Qed.


(** ** Claims on [parsePath] *)

(** C2, as stated, fails: a parameter segment with a malformed escape makes
    [parsePath] throw. *)
Lemma parsePath_can_throw :
  ¬ (∀ pattern url : list N, ∃ r, parsePath pattern url = Ret r).
Proof.
  intros H. destruct (H (js "/users/:id") (js "/users/100%")) as [r Hr].
  vm_compute in Hr. discriminate Hr.
Qed.

(** C2 (amended): for every pattern and URL, [parsePath] returns no-match,
    or returns a complete parameter mapping, or throws the [URIError] of a
    malformed percent escape in a URL segment it decodes: the segment under
    a parameter of the pattern, or the rest of the URL under its wildcard,
    no wildcard coming before; it never returns a partial mapping. *)
Theorem parsePath_all_or_nothing (pattern url : list N) :
  match parsePath pattern url with
  | Ret None => True
  | Ret (Some params) =>
      complete_match (segments (normalizePath pattern))
        (segments (normalizePath url)) params
  | Throw e =>
      e = URIError
      ∧ ∃ j a,
          segments (normalizePath pattern) !! j = Some a
          ∧ (js "*" ∉ take j (segments (normalizePath pattern)))
          ∧ ((a = js "*"
              ∧ decodeURIComponent
                  (join_slash (drop j (segments (normalizePath url))))
                = Throw URIError)
             ∨ (a ≠ js "*" ∧ starts_with_char c_colon a = true
                ∧ ∃ b, segments (normalizePath url) !! j = Some b
                       ∧ decodeURIComponent b = Throw URIError))
  end.
Proof.
  destruct (parsePath pattern url) as [[params|]|e] eqn:H; [|done|].
  - apply parsePath_success in H as [H _]. by apply match_loop_complete.
  - rewrite parsePath_unfold in H. cbv zeta in H.
    repeat destruct (decide _); try done;
      by apply (match_loop_throw_at _ 0 _ _ _ H).
Qed.

(** C7: [/users/:id] binds [id] to the decoded segment of [/users/42] and
    does not match [/users/]; [/about] matches [/about/index.html]; in
    general a parameter segment binds the decoded URL segment at its position
    under the name after the colon, and no URL segment there is no match. *)
Theorem named_parameter_matching :
  parsePath (js "/users/:id") (js "/users/42")
  = Ret (Some {[ js "id" := js "42" ]})
  ∧ parsePath (js "/users/:id") (js "/users/") = Ret None
  ∧ parsePath (js "/about") (js "/about/index.html") = Ret (Some ∅)
  ∧ (∀ (pattern url : list N) params j a,
       parsePath pattern url = Ret (Some params) ->
       stem (segments (normalizePath pattern)) !! j = Some a ->
       starts_with_char c_colon a = true ->
       ∃ b d, segments (normalizePath url) !! j = Some b ∧ b ≠ []
              ∧ decodeURIComponent b = Ret d
              ∧ (drop 1 a ≠ js "__proto__" ->
                 drop 1 a ∉ param_keys
                   (drop (S j) (stem (segments (normalizePath pattern)))) ->
                 (drop 1 a = js "*" ->
                  js "*" ∉ segments (normalizePath pattern)) ->
                 params !! drop 1 a = Some d))
  ∧ (∀ (pattern url : list N) j a,
       stem (segments (normalizePath pattern)) !! j = Some a ->
       starts_with_char c_colon a = true ->
       segments (normalizePath url) !! j = None
       ∨ segments (normalizePath url) !! j = Some [] ->
       parsePath pattern url = Ret None).
Proof.
  split; [by vm_compute|]. split; [by vm_compute|]. split; [by vm_compute|].
  split.
  - intros pattern url params j a H Hj Hcolon.
    apply parsePath_success in H as [H _].
    destruct (match_loop_segments _ _ _ _ _ _ _ H Hj) as (b & Hb & Hrest).
    rewrite Hcolon in Hrest. destruct Hrest as (Hne & d & Hd & Hbind).
    by exists b, d.
  - intros pattern url j a Hj Hcolon Hb.
    set (ps := segments (normalizePath pattern)) in *.
    set (us := segments (normalizePath url)) in *.
    assert (Hnone : us !! j = None).
    { destruct Hb as [|Hb]; [done|]. exfalso.
      apply (segments_nonempty (normalizePath url) []); [|done].
      apply list_elem_of_lookup. by exists j. }
    apply lookup_ge_None in Hnone.
    apply lookup_lt_Some in Hj.
    rewrite parsePath_unfold. fold ps us. cbv zeta.
    destruct (decide (last ps = Some (js "*"))) as [Hw|Hw].
    + pose proof (stem_length_wildcard _ Hw).
      destruct (decide _); [done|lia].
    + pose proof (stem_length ps).
      destruct (decide _); [lia|done].
Qed.

Lemma named_parameter_matching_witness :
  ∃ b d, segments (normalizePath (js "/users/42")) !! 1%nat = Some b ∧ b ≠ []
         ∧ decodeURIComponent b = Ret d
         ∧ ({[ js "id" := js "42" ]} : gmap (list N) (list N)) !! js "id"
           = Some d.
Proof.
  destruct named_parameter_matching as (_ & _ & _ & Hbind & _).
  destruct (Hbind (js "/users/:id") (js "/users/42")
              {[ js "id" := js "42" ]} 1%nat (js ":id"))
    as (b & d & Hb & Hne & Hd & Hl); [by vm_compute|reflexivity|reflexivity|].
  exists b, d. repeat split; [done|done|done|].
  apply Hl; vm_compute; [discriminate| |discriminate].
  intros Hin. by apply elem_of_nil in Hin.
Defined.

(** C8: a pattern ending in [*] with [n] segments matches only URLs with at
    least [n-1] segments, and on success the URL segments from the wildcard
    position on are percent-decoded, joined with [/] and stored under [*];
    [/files/*] on [/files/a/b%2Fc] yields [{"*": "a/b/c"}]. *)
Theorem wildcard_matching :
  (∀ (pattern url : list N) params,
     last (segments (normalizePath pattern)) = Some (js "*") ->
     parsePath pattern url = Ret (Some params) ->
     let ps := segments (normalizePath pattern) in
     let us := segments (normalizePath url) in
     (length ps - 1 <= length us)%nat
     ∧ (js "*" ∉ take (length ps - 1) ps ->
        length (stem ps) = (length ps - 1)%nat)
     ∧ ∃ ds, Forall2 (fun u d => decodeURIComponent u = Ret d)
               (drop (length (stem ps)) us) ds
             ∧ params !! js "*" = Some (join_slash ds))
  ∧ parsePath (js "/files/*") (js "/files/a/b%2Fc")
    = Ret (Some {[ js "*" := js "a/b/c" ]}).
Proof.
  split; [|by vm_compute].
  intros pattern url params Hw H ps us.
  apply parsePath_success in H as [H Hlen]. fold ps us in H, Hlen.
  split; [done|]. split; [by apply stem_single_wildcard|].
  assert (Hin : js "*" ∈ ps) by (by apply last_wildcard_elem).
  destruct (match_loop_wildcard _ _ _ _ _ H Hin) as (d & Hd & Hl).
  simpl in Hd. apply decodeURIComponent_join in Hd as (ds & Hds & ->).
  by exists ds.
Qed.

Lemma wildcard_matching_witness :
  (length (segments (normalizePath (js "/files/*"))) - 1
   <= length (segments (normalizePath (js "/files/a/b%2Fc"))))%nat
  ∧ ∃ ds, Forall2 (fun u d => decodeURIComponent u = Ret d)
            (drop 1 (segments (normalizePath (js "/files/a/b%2Fc")))) ds
          ∧ ({[ js "*" := js "a/b/c" ]} : gmap (list N) (list N)) !! js "*"
            = Some (join_slash ds).
Proof.
  destruct wildcard_matching as [H _].
  destruct (H (js "/files/*") (js "/files/a/b%2Fc") {[ js "*" := js "a/b/c" ]})
    as (Hlen & _ & Hds); [reflexivity|by vm_compute|].
  split; [exact Hlen|exact Hds].
Defined.

(** C10: a wildcard pattern with [n] segments accepts a URL with exactly
    [n-1] segments, each accepted by the pattern segment at its position (a
    literal by equality, a parameter by a segment that decodes), and the
    wildcard capture is then the empty string; [/files/*] on [/files] yields
    [{"*": ""}]. *)
Theorem wildcard_matches_parent :
  (∀ (pattern url : list N) params,
     last (segments (normalizePath pattern)) = Some (js "*") ->
     js "*" ∉ take (length (segments (normalizePath pattern)) - 1)
                (segments (normalizePath pattern)) ->
     length (segments (normalizePath url))
     = (length (segments (normalizePath pattern)) - 1)%nat ->
     parsePath pattern url = Ret (Some params) ->
     params !! js "*" = Some [])
  ∧ (∀ (pattern url : list N) (pre : list (list N)),
       segments (normalizePath pattern) = pre ++ [js "*"] ->
       js "*" ∉ pre ->
       length (segments (normalizePath url)) = length pre ->
       (∀ j a, pre !! j = Some a ->
          ∃ b, segments (normalizePath url) !! j = Some b
               ∧ if starts_with_char c_colon a
                 then ∃ d, decodeURIComponent b = Ret d
                 else b = a) ->
       ∃ params, parsePath pattern url = Ret (Some params)
                 ∧ params !! js "*" = Some [])
  ∧ (∀ pattern url : list N,
       segments (normalizePath pattern)
       = segments (normalizePath url) ++ [js "*"] ->
       Forall (fun b => b ≠ js "*" ∧ starts_with_char c_colon b = false)
         (segments (normalizePath url)) ->
       parsePath pattern url = Ret (Some {[ js "*" := [] ]}))
  ∧ parsePath (js "/files/*") (js "/files") = Ret (Some {[ js "*" := [] ]})
  ∧ parsePath (js "/users/:id/*") (js "/users/42")
    = Ret (Some {[ js "id" := js "42"; js "*" := [] ]}).
Proof.
  split; [|split; [|split; [|split]]]; [| | |by vm_compute|by vm_compute].
  - intros pattern url params Hw Hsingle Hlen H.
    set (ps := segments (normalizePath pattern)) in *.
    set (us := segments (normalizePath url)) in *.
    apply parsePath_success in H as [H _]. fold ps us in H.
    assert (Hin : js "*" ∈ ps) by (by apply last_wildcard_elem).
    destruct (match_loop_wildcard _ _ _ _ _ H Hin) as (d & Hd & Hl).
    rewrite (stem_single_wildcard _ Hw Hsingle) in Hd. simpl in Hd.
    rewrite <- Hlen, drop_all in Hd. injection Hd as <-. done.
  - intros pattern url pre Hps Hnot Hlen Hacc.
    rewrite parsePath_unfold. cbv zeta. rewrite Hps.
    rewrite last_snoc, decide_True by done.
    rewrite length_app, decide_False by (simpl; lia).
    apply match_loop_snoc_wildcard; [done|done| |done].
    intros b. apply segments_nonempty.
  - intros pattern url Hps Hlit.
    rewrite parsePath_unfold. cbv zeta. rewrite Hps.
    rewrite last_snoc, decide_True by done.
    rewrite length_app, decide_False by (simpl; lia).
    apply (match_loop_literals _ [] ∅ Hlit).
Qed.

Lemma wildcard_matches_parent_witness :
  ({[ js "*" := [] ]} : gmap (list N) (list N)) !! js "*" = Some []
  ∧ (∃ params, parsePath (js "/users/:id/*") (js "/users/4%32/index.html")
               = Ret (Some params)
               ∧ params !! js "*" = Some [])
  ∧ parsePath (js "/docs/api/*") (js "/docs/api/index.html")
    = Ret (Some {[ js "*" := [] ]}).
Proof.
  destruct wildcard_matches_parent as (Hcap & Hgen & Hlit & _).
  split; [|split].
  - apply (Hcap (js "/files/*") (js "/files")); [reflexivity| |reflexivity|by vm_compute].
    vm_compute. intros Hin. apply elem_of_cons in Hin as [Hin|Hin]; [discriminate|].
    by apply elem_of_nil in Hin.
  - apply (Hgen (js "/users/:id/*") (js "/users/4%32/index.html")
             [js "users"; js ":id"]); [reflexivity| |reflexivity|].
    + intros Hin. repeat (apply elem_of_cons in Hin as [Hin|Hin];
                          [vm_compute in Hin; discriminate|]).
      by apply elem_of_nil in Hin.
    + intros [|[|j]] a Hj; [| |done]; injection Hj as <-.
      * exists (js "users"). split; reflexivity.
      * exists (js "4%32"). split; [reflexivity|].
        exists (js "42"). reflexivity.
  - apply (Hlit (js "/docs/api/*") (js "/docs/api/index.html")); [reflexivity|].
    vm_compute. repeat constructor; discriminate.
Defined.

(** ** The monad and the trace *)

Section monad_facts.

Implicit Types s : state.
Implicit Types t : list effect.

Lemma append_trace_nil s : append_trace [] s = s.
Proof.
  destruct s as [r [? ? ? ? ? ? ?]]. unfold append_trace, set_browser.
  simpl. by rewrite app_nil_r.
Qed.

Lemma append_trace_app t1 t2 s :
  append_trace t2 (append_trace t1 s) = append_trace (t1 ++ t2) s.
Proof.
  unfold append_trace, set_browser. simpl. by rewrite app_assoc.
Qed.

Lemma log_spec e s : log e s = (Ret tt, append_trace [e] s).
Proof. reflexivity. Qed.

Lemma fetched_app t1 t2 : fetched (t1 ++ t2) = fetched t1 ++ fetched t2.
Proof. apply omap_app. Qed.

Lemma handler_calls_app t1 t2 :
  handler_calls (t1 ++ t2) = handler_calls t1 ++ handler_calls t2.
Proof. apply omap_app. Qed.

Lemma emitted_app t1 t2 : emitted (t1 ++ t2) = emitted t1 ++ emitted t2.
Proof. apply omap_app. Qed.

Lemma listener_calls_silent t :
  Forall is_listener_call t ->
  fetched t = [] ∧ handler_calls t = [] ∧ emitted t = [].
Proof.
  induction 1 as [|e t He _ (IH1 & IH2 & IH3)]; [done|].
  destruct e; try done.
Qed.

Lemma call_listeners_spec ls ev pl s :
  ∃ t, snd (call_listeners ls ev pl s) = append_trace t s
       ∧ Forall is_listener_call t
       ∧ (Forall quiet_listener ls ->
          fst (call_listeners ls ev pl s) = Ret tt).
Proof.
  revert s. induction ls as [|l ls IH]; intros s.
  - exists []. by rewrite append_trace_nil.
  - cbn [call_listeners]. unfold mbind, M_bind. rewrite log_spec.
    unfold lift at 1. destruct (l_run l pl) as [[]|e] eqn:Hrun.
    + destruct (IH (append_trace [EListener (l_id l) ev pl] s))
        as (t & Ht & Hcalls & Hquiet).
      exists (EListener (l_id l) ev pl :: t).
      rewrite Ht, append_trace_app. split; [done|]. split.
      * by constructor.
      * intros Hq. apply Hquiet. by inversion Hq.
    + exists [EListener (l_id l) ev pl]. split; [done|]. split.
      * by repeat constructor.
      * intros Hq. inversion Hq as [|? ? Hl _]; subst.
        rewrite (Hl pl) in Hrun. discriminate.
Qed.

Lemma emit_spec ev pl s :
  ∃ t, snd (emit ev pl s) = append_trace (EEmit ev pl :: t) s
       ∧ Forall is_listener_call t
       ∧ (inherited ev = false ->
          (∀ ls, events (router s) !! ev = Some ls ->
                 Forall quiet_listener ls) ->
          fst (emit ev pl s) = Ret tt).
Proof.
  unfold emit, mbind, M_bind. rewrite log_spec. unfold get_state.
  change (router (append_trace [EEmit ev pl] s)) with (router s).
  destruct (events (router s) !! ev) as [ls|] eqn:Hev.
  - destruct (call_listeners_spec ls ev pl (append_trace [EEmit ev pl] s))
      as (t & Ht & Hcalls & Hquiet).
    exists t. rewrite Ht, append_trace_app. split; [done|].
    split; [done|]. intros _ Hq. apply Hquiet. by apply Hq.
  - exists []. split; [by destruct (inherited ev)|]. split; [done|].
    by intros ->.
Qed.

(** The name of a per-pattern event is never an inherited member. *)
Lemma route_event_not_inherited pattern :
  inherited (js "route:" ++ pattern) = false.
Proof.
  apply bool_decide_eq_false_2. unfold object_prototype_keys. intros Hin.
  repeat (apply elem_of_cons in Hin as [Heq|Hin];
          [vm_compute in Heq; discriminate Heq|]).
  by apply elem_of_nil in Hin.
Qed.

(** ** Methods that issue no request *)

Lemma no_fetch_ret {A} (a : A) : no_fetch (mret a).
Proof. by intros s. Qed.

Lemma no_fetch_lift {A} (r : res A) : no_fetch (lift r).
Proof. by intros s. Qed.

Lemma no_fetch_get : no_fetch get_state.
Proof. by intros s. Qed.

Lemma no_fetch_bind {A B} (m : M A) (k : A -> M B) :
  no_fetch m -> (∀ a, no_fetch (k a)) -> no_fetch (m ≫= k).
Proof.
  intros Hm Hk s. unfold mbind, M_bind.
  destruct (Hm s) as [Hr Hf]. destruct (m s) as [[a|e] s1]; [|done].
  destruct (Hk a s1) as [Hr' Hf']. simpl in *. split; congruence.
Qed.

Lemma no_fetch_append t :
  fetched t = [] -> no_fetch (modify (append_trace t)).
Proof.
  intros Ht s. split; [done|]. simpl. by rewrite fetched_app, Ht, app_nil_r.
Qed.

Lemma no_fetch_log e :
  fetched [e] = [] -> no_fetch (log e).
Proof. apply (no_fetch_append [e]). Qed.

Lemma no_fetch_emit ev pl : no_fetch (emit ev pl).
Proof.
  intros s. destruct (emit_spec ev pl s) as (t & -> & Hcalls & _).
  split; [done|]. simpl.
  destruct (listener_calls_silent _ Hcalls) as (Hf & _).
  rewrite fetched_app. simpl. by rewrite Hf, app_nil_r.
Qed.

Lemma no_fetch_run_routes rs url matchUrl fd :
  no_fetch (run_routes rs url matchUrl fd).
Proof.
  revert fd. induction rs as [|[pattern callback] rs IH]; intros fd.
  - apply no_fetch_ret.
  - cbn [run_routes]. apply no_fetch_bind; [apply no_fetch_lift|].
    intros [params|]; [|apply IH].
    apply no_fetch_bind; [by apply no_fetch_log|]. intros _.
    apply no_fetch_bind; [apply no_fetch_lift|]. intros result.
    apply no_fetch_bind; [apply no_fetch_emit|]. intros _. apply IH.
Qed.

Lemma no_fetch_set_browser (f : Browser -> Browser) :
  (∀ b, trace (f b) = trace b) -> no_fetch (modify (set_browser f)).
Proof. intros Hf s. split; [done|]. simpl. by rewrite Hf. Qed.

Lemma no_fetch_render payload : no_fetch (render payload).
Proof.
  unfold render. apply no_fetch_bind; [apply no_fetch_get|]. intros s.
  assert (Hdefault : no_fetch
    (match payload !! js "title" with
     | Some v =>
         if truthy (Some v) then
           modify (set_browser (with_document_title (ToString v)));;
           log (ESetTitle v)
         else mret tt
     | None => mret tt
     end;;
     match app_container (browser s), payload !! js "body" with
     | Some _, Some (VStr b) =>
         modify (set_browser (with_app_container (Some b)));;
         log (ESetInnerHTML b);;
         log EExecuteScripts
     | _, _ => mret tt
     end)).
  { apply no_fetch_bind.
    - destruct (payload !! js "title") as [v|]; [|apply no_fetch_ret].
      destruct (truthy (Some v)); [|apply no_fetch_ret].
      apply no_fetch_bind; [by apply no_fetch_set_browser|].
      intros _. by apply no_fetch_log.
    - intros _. destruct (app_container (browser s));
        [|apply no_fetch_ret].
      destruct (payload !! js "body") as [[b| | | |]|];
        try apply no_fetch_ret.
      apply no_fetch_bind; [by apply no_fetch_set_browser|]. intros _.
      apply no_fetch_bind; [by apply no_fetch_log|]. intros _.
      by apply no_fetch_log. }
  destruct (events (router s) !! js "navigate") as [[|l ls]|];
    [done|apply no_fetch_emit|done].
Qed.

Lemma no_fetch_update_history E rawUrl replace fd :
  no_fetch (update_history E rawUrl replace fd).
Proof.
  unfold update_history. apply no_fetch_bind; [apply no_fetch_get|].
  intros s. destruct (env_history_accepts E rawUrl).
  - apply no_fetch_log. by destruct replace.
  - intros s'. done.
Qed.

Lemma no_fetch_navigate_with E rawUrl matchUrl replace data :
  no_fetch (navigate_with E rawUrl matchUrl replace data).
Proof.
  unfold navigate_with. apply no_fetch_bind; [apply no_fetch_get|].
  intros s. apply no_fetch_bind; [apply no_fetch_run_routes|].
  intros fd. apply no_fetch_bind; [apply no_fetch_render|].
  intros _. apply no_fetch_update_history.
Qed.

End monad_facts.

(** ** The page cache: [fetchPage], [prefetch], [navigate] *)

Section cache_facts.

Variable E : Env.
Implicit Types s : state.
Implicit Types url : list N.

Lemma page_obj_title d : page_obj d !! js "title" = Some (VStr (page_title d)).
Proof. unfold page_obj. apply lookup_insert_eq. Qed.

Lemma page_obj_body d : page_obj d !! js "body" = Some (VStr (page_body d)).
Proof.
  unfold page_obj. rewrite lookup_insert_ne by (by compute).
  apply lookup_singleton_eq.
Qed.

Lemma with_url_title url fd : with_url url fd !! js "title" = fd !! js "title".
Proof.
  unfold with_url. rewrite lookup_union.
  rewrite lookup_singleton_ne by (by compute).
  by destruct (fd !! js "title").
Qed.

Lemma with_url_body url fd : with_url url fd !! js "body" = fd !! js "body".
Proof.
  unfold with_url. rewrite lookup_union.
  rewrite lookup_singleton_ne by (by compute).
  by destruct (fd !! js "body").
Qed.

Lemma fetchPage_hit url isPrefetch s d :
  cache (router s) !! url = Some d ->
  fetchPage E url isPrefetch s = (Ret d, s).
Proof.
  intros H. unfold fetchPage, mbind, M_bind, get_state. by rewrite H.
Qed.

Lemma fetch_attempt_throw url isPrefetch s err :
  fetch_outcome E s url isPrefetch = Throw err ->
  fetch_attempt E url isPrefetch (contentSelector (router s)) s
  = (Throw err, append_trace [EFetch url (request_headers isPrefetch)] s).
Proof.
  unfold fetch_outcome, fetch_attempt, mbind, M_bind, fetch, lift.
  destruct (env_fetch E _ _ _) as [r|e]; simpl; [|by intros [= ->]].
  destruct (resp_text r) as [text|e]; simpl; [|by intros [= ->]].
  destruct (env_parseHTML E text _) as [d|e]; [done|by intros [= ->]].
Qed.

Lemma fetch_attempt_page url s d :
  fetch_outcome E s url false = Ret d ->
  fetch_attempt E url false (contentSelector (router s)) s
  = (Ret d, set_cache (<[url := d]> (cache (router s)))
              (append_trace [EFetch url (request_headers false)] s)).
Proof.
  unfold fetch_outcome, fetch_attempt, mbind, M_bind, fetch, lift.
  destruct (env_fetch E _ _ _) as [r|e]; simpl; [|done].
  destruct (resp_text r) as [text|e]; simpl; [|done].
  destruct (env_parseHTML E text _) as [d'|e]; [|done].
  by intros [= ->].
Qed.

(** A failed fetch of a navigation is answered by the cached fallback. *)
Lemma fetchPage_fallback url s err :
  cache (router s) !! url = None ->
  fetch_outcome E s url false = Throw err ->
  fetchPage E url false s
  = (Ret (fallback_page err),
     set_cache (<[url := fallback_page err]> (cache (router s)))
       (append_trace [EFetch url (request_headers false)] s)).
Proof.
  intros Hmiss Hfail. unfold fetchPage, mbind, M_bind, get_state.
  rewrite Hmiss. unfold try_catch.
  by rewrite (fetch_attempt_throw _ _ _ _ Hfail).
Qed.

Lemma fetchPage_page url s d :
  cache (router s) !! url = None ->
  fetch_outcome E s url false = Ret d ->
  fetchPage E url false s
  = (Ret d, set_cache (<[url := d]> (cache (router s)))
              (append_trace [EFetch url (request_headers false)] s)).
Proof.
  intros Hmiss Hok. unfold fetchPage, mbind, M_bind, get_state.
  rewrite Hmiss. unfold try_catch.
  by rewrite (fetch_attempt_page _ _ _ Hok).
Qed.

(** [fetchPage] never throws for a navigation. *)
Lemma fetchPage_navigation_total url s :
  ∃ d, fst (fetchPage E url false s) = Ret d
       ∧ cache (router (snd (fetchPage E url false s))) !! url = Some d.
Proof.
  destruct (cache (router s) !! url) as [d|] eqn:Hc.
  - exists d. by rewrite (fetchPage_hit _ _ _ _ Hc).
  - destruct (fetch_outcome E s url false) as [d|err] eqn:Ho.
    + exists d. rewrite (fetchPage_page _ _ _ Hc Ho). simpl.
      split; [done|]. apply lookup_insert_eq.
    + exists (fallback_page err). rewrite (fetchPage_fallback _ _ _ Hc Ho).
      simpl. split; [done|]. apply lookup_insert_eq.
Qed.

(** A prefetch that goes well fills the cache, whatever the listeners do. *)
Lemma prefetch_populates_run url s d :
  cache (router s) !! url = None ->
  fetch_outcome E s url true = Ret d ->
  ∃ s', prefetch E url s = (Ret tt, s')
        ∧ cache (router s') = <[url := d]> (cache (router s)).
Proof.
  intros Hmiss Hok. unfold prefetch, mbind, M_bind, get_state.
  rewrite bool_decide_eq_false_2 by (rewrite Hmiss; by intros [? ?]).
  unfold try_catch at 1, fetchPage, mbind, M_bind, get_state.
  rewrite Hmiss. unfold try_catch.
  unfold fetch_outcome in Hok.
  unfold fetch_attempt, mbind, M_bind, fetch, lift.
  destruct (env_fetch E _ _ _) as [r|e]; simpl in *; [|done].
  destruct (resp_text r) as [text|e]; simpl in *; [|done].
  destruct (env_parseHTML E text _) as [d'|e]; [|done].
  injection Hok as ->. unfold cache_set, modify.
  set (s1 := set_cache _ _).
  destruct (emit_spec (js "prefetch")
              {[ js "url" := VStr url; js "data" := VPage d ]} s1)
    as (t & Ht & _ & _).
  destruct (emit (js "prefetch") _ s1) as [[[]|e] s2]; simpl in Ht; subst s2.
  - eexists. split; [reflexivity|done].
  - unfold fetch_recover, mbind, M_bind.
    set (s2 := append_trace _ s1).
    destruct (emit_spec (js "prefetch:error")
                {[ js "url" := VStr url; js "error" := VError e ]} s2)
      as (t' & Ht' & _ & _).
    destruct (emit (js "prefetch:error") _ s2) as [[[]|e'] s3];
      simpl in Ht'; subst s3; (eexists; split; [reflexivity|done]).
Qed.

Lemma prefetch_populates url s d :
  cache (router s) !! url = None ->
  fetch_outcome E s url true = Ret d ->
  fst (prefetch E url s) = Ret tt
  ∧ cache (router (snd (prefetch E url s))) = <[url := d]> (cache (router s)).
Proof.
  intros Hmiss Hok.
  by destruct (prefetch_populates_run _ _ _ Hmiss Hok) as (s' & -> & ?).
Qed.

(** A prefetch whose fetch fails: the request, the failure event, its
    listeners, the debug message. *)
Lemma prefetch_failure_run url s err :
  cache (router s) !! url = None ->
  fetch_outcome E s url true = Throw err ->
  ∃ t e',
    prefetch E url s
    = (Ret tt,
       append_trace
         (EFetch url (request_headers true)
          :: EEmit (js "prefetch:error")
               {[ js "url" := VStr url; js "error" := VError err ]}
          :: t ++ [EConsoleDebug url e']) s)
    ∧ Forall is_listener_call t.
Proof.
  intros Hmiss Hfail. unfold prefetch, mbind, M_bind, get_state.
  rewrite bool_decide_eq_false_2 by (rewrite Hmiss; by intros [? ?]).
  unfold try_catch at 1, fetchPage, mbind, M_bind, get_state.
  rewrite Hmiss. unfold try_catch.
  rewrite (fetch_attempt_throw _ _ _ _ Hfail).
  unfold fetch_recover, mbind, M_bind.
  set (s1 := append_trace _ s).
  destruct (emit_spec (js "prefetch:error")
              {[ js "url" := VStr url; js "error" := VError err ]} s1)
    as (t & Ht & Hcalls & _).
  destruct (emit (js "prefetch:error") _ s1) as [[[]|e'] s2];
    simpl in Ht; subst s2.
  - exists t, err. split; [|done]. unfold throw. rewrite log_spec.
    subst s1. by rewrite !append_trace_app.
  - exists t, e'. split; [|done]. rewrite log_spec.
    subst s1. by rewrite !append_trace_app.
Qed.

(** Without routes and without a [navigate] listener, the default render
    shows the content it is given, and [history] decides how the navigation
    ends. *)
Lemma navigate_with_default_render rawUrl matchUrl replace d s :
  routes (router s) = [] ->
  events (router s) !! js "navigate" = None ->
  fst (navigate_with E rawUrl matchUrl replace d s)
  = (if env_history_accepts E rawUrl then Ret tt else Throw security_error)
  ∧ app_container (browser (snd (navigate_with E rawUrl matchUrl replace d s)))
    = (match app_container (browser s) with
       | Some _ => Some (page_body d)
       | None => None
       end)
  ∧ document_title (browser (snd (navigate_with E rawUrl matchUrl replace d s)))
    = (if nonempty (page_title d) then page_title d
       else document_title (browser s)).
Proof.
  intros Hroutes Hev.
  unfold navigate_with, mbind, M_bind, get_state. rewrite Hroutes.
  cbn [run_routes]. unfold mret, M_ret, render, mbind, M_bind, get_state.
  rewrite Hev, with_url_title, with_url_body, page_obj_title, page_obj_body.
  unfold update_history, mbind, M_bind, get_state, throw.
  unfold truthy. destruct (env_history_accepts E rawUrl);
    destruct (nonempty (page_title d));
    destruct s as [r [tr tm nt dt [c|] ml me]]; simpl; done.
Qed.

End cache_facts.

(** C4: a fetch that fails for a prefetch leaves the cache as it was, without
    an entry for the URL; the [prefetch:error] event is emitted, and no
    other; [prefetch] returns normally. *)
Theorem prefetch_failure_not_cached (E : Env) (s : state) (url : list N)
    (err : exn) :
  cache (router s) !! url = None ->
  fetch_outcome E s url true = Throw err ->
  fst (prefetch E url s) = Ret tt
  ∧ cache (router (snd (prefetch E url s))) = cache (router s)
  ∧ cache (router (snd (prefetch E url s))) !! url = None
  ∧ ∃ t, trace (browser (snd (prefetch E url s))) = trace (browser s) ++ t
         ∧ fetched t = [(url, request_headers true)]
         ∧ emitted t
           = [(js "prefetch:error",
               {[ js "url" := VStr url; js "error" := VError err ]})].
Proof.
  intros Hmiss Hfail.
  destruct (prefetch_failure_run E _ _ _ Hmiss Hfail) as (t & e' & -> & Hcalls).
  destruct (listener_calls_silent _ Hcalls) as (Hf & _ & He).
  split; [done|]. split; [done|]. split; [done|].
  exists ([EFetch url (request_headers true);
           EEmit (js "prefetch:error")
             {[ js "url" := VStr url; js "error" := VError err ]}]
          ++ t ++ [EConsoleDebug url e']).
  split; [reflexivity|]. split.
  - by rewrite !fetched_app, Hf.
  - by rewrite !emitted_app, He.
Qed.

Lemma prefetch_failure_not_cached_witness :
  fst (prefetch demo_env (js "/broken") default_router) = Ret tt
  ∧ cache (router (snd (prefetch demo_env (js "/broken") default_router)))
    !! js "/broken" = None.
Proof.
  destruct (prefetch_failure_not_cached demo_env default_router (js "/broken")
              (Thrown (js "TypeError: Failed to fetch")))
    as (Hret & _ & Hcache & _); [reflexivity|reflexivity|].
  split; [exact Hret|exact Hcache].
Defined.

Section navigate_facts.

Variable E : Env.
Implicit Types s : state.
Implicit Types url : list N.

Lemma navigate_hit url replace s e :
  cache (router s) !! url = Some e ->
  navigate E url replace s
  = navigate_with E url (_normalizeUrl (router s) url) replace e s.
Proof.
  intros H. unfold navigate, mbind, M_bind, get_state.
  by rewrite (fetchPage_hit _ _ _ _ _ H).
Qed.

Lemma navigate_fallback url replace s err :
  cache (router s) !! url = None ->
  fetch_outcome E s url false = Throw err ->
  navigate E url replace s
  = navigate_with E url (_normalizeUrl (router s) url) replace
      (fallback_page err)
      (set_cache (<[url := fallback_page err]> (cache (router s)))
         (append_trace [EFetch url (request_headers false)] s)).
Proof.
  intros Hmiss Hfail. unfold navigate, mbind, M_bind, get_state.
  by rewrite (fetchPage_fallback _ _ _ _ Hmiss Hfail).
Qed.


End navigate_facts.

(** C5, as stated, fails: a response with a status outside 2xx is no failure
    of [fetch]; its body is parsed and cached like any page. *)
Lemma navigate_non_2xx_is_not_fallback :
  ¬ (∀ (E : Env) (s : state) (url : list N) (r : Response),
       cache (router s) !! url = None ->
       env_fetch E (trace (browser s)) url (request_headers false) = Ret r ->
       ¬ (200 <= resp_status r < 300) ->
       ∃ d, cache (router (snd (navigate E url false s))) !! url = Some d
            ∧ page_title d = js "Error").
Proof.
  intros H.
  destruct (H demo_env default_router (js "/missing")
              {| resp_status := 404;
                 resp_text := Ret (js "<p>/missing</p>") |})
    as (d & Hd & Ht); [reflexivity|reflexivity|simpl; lia|].
  vm_compute in Hd. injection Hd as <-. vm_compute in Ht. discriminate Ht.
Qed.

(** C5 (amended): when the fetch of a navigation throws (the request
    rejects, or the body cannot be read or parsed), [navigate] carries on
    with a fallback page of title [Error] whose body contains the error
    description, cached under the navigated URL, and a second [navigate] to
    that URL issues no request; a response outside 2xx is not such a
    failure.  Without routes and listeners the fallback is rendered, and the
    navigation then ends as any other: it returns if [history] takes the
    URL, and throws its [SecurityError] if not. *)
Theorem navigate_fetch_failure (E : Env) (s : state) (url : list N)
    (replace : bool) (err : exn) :
  cache (router s) !! url = None ->
  fetch_outcome E s url false = Throw err ->
  let s1 := snd (navigate E url replace s) in
  navigate E url replace s
  = navigate_with E url (_normalizeUrl (router s) url) replace
      (fallback_page err)
      (set_cache (<[url := fallback_page err]> (cache (router s)))
         (append_trace [EFetch url (request_headers false)] s))
  ∧ cache (router s1) !! url = Some (fallback_page err)
  ∧ page_title (fallback_page err) = js "Error"
  ∧ (∃ pre post, page_body (fallback_page err) = pre ++ exn_string err ++ post)
  ∧ (∀ replace',
       fetched (trace (browser (snd (navigate E url replace' s1))))
       = fetched (trace (browser s1)))
  ∧ (routes (router s) = [] ->
     events (router s) !! js "navigate" = None ->
     fst (navigate E url replace s)
     = (if env_history_accepts E url then Ret tt else Throw security_error)
     ∧ document_title (browser s1) = js "Error"
     ∧ app_container (browser s1)
       = match app_container (browser s) with
         | Some _ => Some (page_body (fallback_page err))
         | None => None
         end).
Proof.
  intros Hmiss Hfail s1.
  pose proof (navigate_fallback E url replace s err Hmiss Hfail) as Hnav.
  set (s0 := set_cache _ _) in Hnav.
  assert (Hcache : cache (router s1) !! url = Some (fallback_page err)).
  { subst s1. rewrite Hnav.
    destruct (no_fetch_navigate_with E url (_normalizeUrl (router s) url)
                replace (fallback_page err) s0) as [-> _].
    apply lookup_insert_eq. }
  split; [done|]. split; [done|]. split; [done|]. split.
  { by exists (js "<h1>Network Error</h1><pre>"), (js "</pre>"). }
  split.
  - intros replace'. rewrite (navigate_hit E _ _ _ _ Hcache).
    apply no_fetch_navigate_with.
  - intros Hroutes Hev. subst s1. rewrite Hnav.
    destruct (navigate_with_default_render E url
                (_normalizeUrl (router s) url) replace (fallback_page err) s0)
      as (Hret & Hc & Ht); [done|done|].
    split; [done|]. split; [by rewrite Ht|by rewrite Hc].
Qed.

Lemma navigate_fetch_failure_witness :
  cache (router (snd (navigate demo_env (js "/broken") false default_router)))
  !! js "/broken"
  = Some (fallback_page (Thrown (js "TypeError: Failed to fetch")))
  ∧ fst (navigate demo_env (js "/broken") false default_router) = Ret tt.
Proof.
  destruct (navigate_fetch_failure demo_env default_router (js "/broken") false
              (Thrown (js "TypeError: Failed to fetch")))
    as (_ & Hcache & _ & _ & _ & Hrender); [reflexivity|reflexivity|].
  split; [exact Hcache|].
  destruct Hrender as (Hret & _); [reflexivity|reflexivity|exact Hret].
Defined.



(** ** Prefetch on hover *)

Section hover_facts.

Variable E : Env.
Implicit Types s : state.

(** A prefetch of a URL that is not cached issues exactly one request. *)
Lemma prefetch_miss_fetches url s :
  cache (router s) !! url = None ->
  ∃ t, trace (browser (snd (prefetch E url s))) = trace (browser s) ++ t
       ∧ fetched t = [(url, request_headers true)].
Proof.
  intros Hmiss.
  destruct (fetch_outcome E s url true) as [d|err] eqn:Ho.
  - unfold prefetch, mbind, M_bind, get_state.
    rewrite bool_decide_eq_false_2 by (rewrite Hmiss; by intros [? ?]).
    unfold try_catch at 1, fetchPage, mbind, M_bind, get_state.
    rewrite Hmiss. unfold try_catch.
    unfold fetch_outcome in Ho.
    unfold fetch_attempt, mbind, M_bind, fetch, lift.
    destruct (env_fetch E _ _ _) as [r|e]; simpl in *; [|done].
    destruct (resp_text r) as [text|e]; simpl in *; [|done].
    destruct (env_parseHTML E text _) as [d'|e]; [|done].
    injection Ho as ->. unfold cache_set, modify.
    set (s1 := set_cache _ _).
    destruct (emit_spec (js "prefetch")
                {[ js "url" := VStr url; js "data" := VPage d ]} s1)
      as (t & Ht & Hcalls & _).
    destruct (listener_calls_silent _ Hcalls) as (Hf & _).
    destruct (emit (js "prefetch") _ s1) as [[[]|e] s2];
      simpl in Ht; subst s2.
    + exists ([EFetch url (request_headers true)]
              ++ EEmit (js "prefetch")
                   {[ js "url" := VStr url; js "data" := VPage d ]} :: t).
      split; [subst s1; simpl; by rewrite <- app_assoc|].
      rewrite fetched_app. simpl. fold (fetched t). by rewrite Hf.
    + unfold fetch_recover, mbind, M_bind.
      set (s2 := append_trace _ s1).
      destruct (emit_spec (js "prefetch:error")
                  {[ js "url" := VStr url; js "error" := VError e ]} s2)
        as (t' & Ht' & Hcalls' & _).
      destruct (listener_calls_silent _ Hcalls') as (Hf' & _).
      assert (Hshape : ∀ e0 : exn,
        ∃ t0, trace (browser (append_trace [EConsoleDebug url e0]
                 (append_trace
                    (EEmit (js "prefetch:error")
                       {[ js "url" := VStr url; js "error" := VError e ]}
                     :: t') s2)))
              = trace (browser s) ++ t0
              ∧ fetched t0 = [(url, request_headers true)]).
      { intros e0.
        exists ([EFetch url (request_headers true)]
                ++ (EEmit (js "prefetch")
                      {[ js "url" := VStr url; js "data" := VPage d ]} :: t)
                ++ (EEmit (js "prefetch:error")
                      {[ js "url" := VStr url; js "error" := VError e ]}
                    :: t')
                ++ [EConsoleDebug url e0]).
        split; [subst s2 s1; simpl; by rewrite <- !app_assoc|].
        rewrite !fetched_app. simpl. fold (fetched t) (fetched t').
        by rewrite Hf, Hf'. }
      destruct (emit (js "prefetch:error") _ s2) as [[[]|e'] s3];
        simpl in Ht'; subst s3; apply Hshape.
  - destruct (prefetch_failure_run E url s err Hmiss Ho)
      as (t & e' & -> & Hcalls).
    destruct (listener_calls_silent _ Hcalls) as (Hf & _).
    exists ([EFetch url (request_headers true);
             EEmit (js "prefetch:error")
               {[ js "url" := VStr url; js "error" := VError err ]}]
            ++ t ++ [EConsoleDebug url e']).
    split; [done|]. by rewrite !fetched_app, Hf.
Qed.

Lemma set_cache_same s : set_cache (cache (router s)) s = s.
Proof. by destruct s as [[] ?]. Qed.

Lemma cto_ret {A} (a : A) : cache_and_trace_only (mret a).
Proof.
  intros s. exists (cache (router s)), [].
  by rewrite append_trace_nil, set_cache_same.
Qed.

Lemma cto_lift {A} (r : res A) : cache_and_trace_only (lift r).
Proof. apply (cto_ret tt). Qed.

Lemma cto_throw {A} (e : exn) : cache_and_trace_only (@throw A e).
Proof. apply (cto_ret tt). Qed.

Lemma cto_get : cache_and_trace_only get_state.
Proof. apply (cto_ret tt). Qed.

Lemma cto_bind {A B} (m : M A) (k : A -> M B) :
  cache_and_trace_only m -> (∀ a, cache_and_trace_only (k a)) ->
  cache_and_trace_only (m ≫= k).
Proof.
  intros Hm Hk s. unfold mbind, M_bind.
  destruct (Hm s) as (c & t & Hs). destruct (m s) as [[a|e] s1];
    simpl in Hs; subst s1; [|by exists c, t].
  destruct (Hk a (set_cache c (append_trace t s))) as (c' & t' & ->).
  exists c', (t ++ t'). unfold set_cache, append_trace, set_browser. simpl.
  by rewrite app_assoc.
Qed.

Lemma cto_try {A} (m : M A) (h : exn -> M A) :
  cache_and_trace_only m -> (∀ e, cache_and_trace_only (h e)) ->
  cache_and_trace_only (try_catch m h).
Proof.
  intros Hm Hh s. unfold try_catch.
  destruct (Hm s) as (c & t & Hs). destruct (m s) as [[a|e] s1];
    simpl in Hs; subst s1; [by exists c, t|].
  destruct (Hh e (set_cache c (append_trace t s))) as (c' & t' & ->).
  exists c', (t ++ t'). unfold set_cache, append_trace, set_browser. simpl.
  by rewrite app_assoc.
Qed.

Lemma cto_emit ev pl : cache_and_trace_only (emit ev pl).
Proof.
  intros s. destruct (emit_spec ev pl s) as (t & -> & _).
  exists (cache (router s)), (EEmit ev pl :: t).
  symmetry. apply (set_cache_same (append_trace _ s)).
Qed.

Lemma cto_log e : cache_and_trace_only (log e).
Proof.
  intros s. exists (cache (router s)), [e].
  symmetry. apply (set_cache_same (append_trace _ s)).
Qed.

Lemma cto_cache_set url d : cache_and_trace_only (cache_set url d).
Proof.
  intros s. exists (<[url := d]> (cache (router s))), [].
  by rewrite append_trace_nil.
Qed.

Lemma cto_fetchPage url isPrefetch :
  cache_and_trace_only (fetchPage E url isPrefetch).
Proof.
  unfold fetchPage. apply cto_bind; [apply cto_get|]. intros s.
  destruct (cache (router s) !! url); [apply cto_ret|].
  apply cto_try.
  - unfold fetch_attempt. apply cto_bind.
    { intros s0. exists (cache (router s0)),
        [EFetch url (request_headers isPrefetch)].
      symmetry. apply (set_cache_same (append_trace _ s0)). }
    intros r. apply cto_bind; [apply cto_lift|]. intros text.
    apply cto_bind; [apply cto_lift|]. intros d.
    apply cto_bind; [apply cto_cache_set|]. intros _.
    apply cto_bind; [|intros _; apply cto_ret].
    destruct isPrefetch; [apply cto_emit|apply cto_ret].
  - intros e. unfold fetch_recover. destruct isPrefetch.
    + apply cto_bind; [apply cto_emit|]. intros _. apply cto_throw.
    + apply cto_bind; [apply cto_cache_set|]. intros _. apply cto_ret.
Qed.

Lemma cto_prefetch url : cache_and_trace_only (prefetch E url).
Proof.
  unfold prefetch. apply cto_bind; [apply cto_get|]. intros s.
  destruct (bool_decide _); [apply cto_ret|].
  apply cto_try; [|intros e; apply cto_log].
  apply cto_bind; [apply cto_fetchPage|]. intros _. apply cto_ret.
Qed.

Lemma clear_all_spec ids s :
  fst (clear_all ids s) = Ret tt
  ∧ router (snd (clear_all ids s)) = router s
  ∧ (∀ id, id ∈ ids -> timers (browser (snd (clear_all ids s))) !! id = None)
  ∧ (∀ id, timers (browser s) !! id = None ->
           timers (browser (snd (clear_all ids s))) !! id = None).
Proof.
  revert s. induction ids as [|id ids IH]; intros s.
  - repeat split; [|done]. intros id Hin. by apply elem_of_nil in Hin.
  - cbn [clear_all]. unfold mbind, M_bind, clearTimeout, modify.
    set (s1 := set_browser _ s).
    destruct (IH s1) as (Hret & Hrouter & Hcleared & Hkept).
    split; [done|]. split; [done|]. split.
    + intros id' [->|Hin]%elem_of_cons; [|by apply Hcleared].
      apply Hkept. subst s1. simpl. apply lookup_delete_eq.
    + intros id' Hnone. apply Hkept. subst s1. simpl.
      rewrite lookup_delete. by case_decide.
Qed.

(** What [setPrefetchOnHover(false)] does: every timeout that is still in
    the bookkeeping map is cleared, and the map is emptied. *)
Lemma setPrefetchOnHover_false_clears s :
  let s' := snd (setPrefetchOnHover false s) in
  fst (setPrefetchOnHover false s) = Ret tt
  ∧ prefetchOnHover (router s') = false
  ∧ prefetchTimeouts (router s') = []
  ∧ ∀ link id, (link, id) ∈ prefetchTimeouts (router s) ->
               timers (browser s') !! id = None.
Proof.
  unfold setPrefetchOnHover, mbind, M_bind, modify, get_state.
  set (s1 := set_prefetchOnHover false s).
  destruct (clear_all_spec ((prefetchTimeouts (router s1)).*2) s1)
    as (Hret & Hrouter & Hcleared & _).
  destruct (clear_all _ s1) as [[[]|e] s2]; [|done]. simpl in *.
  split; [done|]. split; [by rewrite Hrouter|]. split; [done|].
  intros link id Hin. apply Hcleared.
  apply list_elem_of_fmap. by exists (link, id).
Qed.

End hover_facts.

(** C9 fails on the code.  After [setPrefetchOnHover(false)] a hover over an
    eligible link still prefetches: the [mouseenter] listener installed by
    the constructor never reads the flag.  And with a delay, a second
    [mouseenter] for the same link overwrites the bookkeeping entry of the
    first timeout, which [setPrefetchOnHover(false)] then leaves pending; it
    fires and prefetches. *)
Theorem hover_after_disable_still_prefetches (E : Env) :
  (let s := snd ((setPrefetchOnHover false;;
                  on_mouseenter E (Some demo_link)) default_router) in
   prefetchOnHover (router s) = false
   ∧ fetched (trace (browser s)) = [(js "/about", request_headers true)])
  ∧ (let s := snd ((on_mouseenter E (Some demo_link);;
                    on_mouseenter E (Some demo_link);;
                    setPrefetchOnHover false) delayed_router) in
     prefetchTimeouts (router s) = []
     ∧ timers (browser s) !! 1 = Some (js "/about")
     ∧ fetched (trace (browser (snd (fire_timer E 1 s))))
       = [(js "/about", request_headers true)]).
Proof.
  split.
  - cbv zeta.
    change (snd ((setPrefetchOnHover false;;
                  on_mouseenter E (Some demo_link)) default_router))
      with (snd (prefetch E (js "/about")
                   (set_prefetchOnHover false default_router))).
    set (s0 := set_prefetchOnHover false default_router).
    destruct (prefetch_miss_fetches E (js "/about") s0) as (t & Ht & Hf);
      [reflexivity|].
    split.
    + destruct (cto_prefetch E (js "/about") s0) as (c & t' & ->). reflexivity.
    + rewrite Ht. simpl. exact Hf.
  - cbv zeta.
    set (s := snd ((on_mouseenter E (Some demo_link);;
                    on_mouseenter E (Some demo_link);;
                    setPrefetchOnHover false) delayed_router)).
    split; [reflexivity|]. split; [reflexivity|].
    change (snd (fire_timer E 1 s))
      with (snd (prefetch E (js "/about")
                   (set_browser (fun b =>
                      with_timers (delete 1 (timers b)) (next_timer b) b) s))).
    match goal with |- context [prefetch E ?u ?st] =>
      destruct (prefetch_miss_fetches E u st) as (t & Ht & Hf); [reflexivity|]
    end.
    rewrite Ht, fetched_app, Hf. reflexivity.
Qed.

(** ** The route loop of [navigate] *)

Section route_facts.

Implicit Types s : state.
Implicit Types rs : list (list N * handler).

Lemma run_routes_spec rs url matchUrl fd s :
  Forall (fun ph => ∃ o, parsePath ph.1 matchUrl = Ret o) rs ->
  Forall (fun m => ∃ r, m.2 m.1.2 = Ret r) (matching rs matchUrl) ->
  (∀ ev ls, events (router s) !! ev = Some ls -> Forall quiet_listener ls) ->
  ∃ t,
    run_routes rs url matchUrl fd s
    = (Ret (foldl (fun acc m => apply_result acc (result_of m)) fd
              (matching rs matchUrl)),
       append_trace t s)
    ∧ handler_calls t = (fun m => (m.1.1, m.1.2)) <$> matching rs matchUrl
    ∧ emitted t = route_events url (matching rs matchUrl) fd
    ∧ fetched t = [].
Proof.
  revert fd s.
  induction rs as [|[pattern callback] rs IH]; intros fd s Hparse Hcall Hquiet.
  - exists []. by rewrite append_trace_nil.
  - inversion Hparse as [|? ? [o Ho] Hparse']; subst. simpl in Ho.
    cbn [run_routes matching] in *. unfold mbind, M_bind, lift at 1.
    rewrite Ho in *. destruct o as [params|]; [|by apply IH].
    inversion Hcall as [|? ? [r Hr] Hcall']; subst. simpl in Hr.
    rewrite log_spec. unfold lift. rewrite Hr.
    set (s1 := append_trace [EHandler pattern params] s).
    set (payload := <[js "params" := VParams params]> (with_url url fd)).
    destruct (emit_spec (js "route:" ++ pattern) payload s1)
      as (t0 & Ht0 & Hcalls & Hret).
    destruct (listener_calls_silent _ Hcalls) as (Hf0 & Hh0 & He0).
    specialize (Hret (route_event_not_inherited pattern)
                  (Hquiet (js "route:" ++ pattern))).
    destruct (emit (js "route:" ++ pattern) payload s1) as [r0 s2].
    cbn [fst snd] in Ht0, Hret. subst r0 s2.
    destruct (IH (apply_result fd r)
                (append_trace (EEmit (js "route:" ++ pattern) payload :: t0) s1)
                Hparse' Hcall' Hquiet)
      as (t & Hrun & Hh & He & Hf).
    exists ([EHandler pattern params]
            ++ (EEmit (js "route:" ++ pattern) payload :: t0) ++ t).
    assert (Hres : result_of (pattern, params, callback) = r).
    { unfold result_of. simpl. by rewrite Hr. }
    split; [|split; [|split]].
    + rewrite Hrun. cbn [foldl]. rewrite Hres. subst s1.
      by rewrite !append_trace_app.
    + rewrite !handler_calls_app.
      change (handler_calls (EEmit (js "route:" ++ pattern) payload :: t0))
        with (handler_calls t0).
      rewrite Hh0, Hh. reflexivity.
    + rewrite !emitted_app.
      change (emitted (EEmit (js "route:" ++ pattern) payload :: t0))
        with ((js "route:" ++ pattern, payload) :: emitted t0).
      rewrite He0, He. unfold route_events. cbn [overlays zip_with].
      by rewrite Hres.
    + rewrite !fetched_app.
      change (fetched (EEmit (js "route:" ++ pattern) payload :: t0))
        with (fetched t0).
      by rewrite Hf0, Hf.
Qed.

(** A navigation rendered by default, from the fetched page on. *)
Lemma navigate_with_default E rawUrl matchUrl replace d s :
  Forall (fun ph => ∃ o, parsePath ph.1 matchUrl = Ret o) (routes (router s)) ->
  Forall (fun m => ∃ r, m.2 m.1.2 = Ret r)
    (matching (routes (router s)) matchUrl) ->
  (∀ ev ls, events (router s) !! ev = Some ls -> Forall quiet_listener ls) ->
  events (router s) !! js "navigate" = None ->
  let final := foldl (fun acc m => apply_result acc (result_of m))
                 (page_obj d) (matching (routes (router s)) matchUrl) in
  let s' := snd (navigate_with E rawUrl matchUrl replace d s) in
  fst (navigate_with E rawUrl matchUrl replace d s)
  = (if env_history_accepts E rawUrl then Ret tt else Throw security_error)
  ∧ handler_calls (trace (browser s'))
    = handler_calls (trace (browser s))
      ++ ((fun m => (m.1.1, m.1.2)) <$> matching (routes (router s)) matchUrl)
  ∧ app_container (browser s')
    = match app_container (browser s), final !! js "body" with
      | Some _, Some (VStr b) => Some b
      | c, _ => c
      end
  ∧ document_title (browser s')
    = match final !! js "title" with
      | Some v => if truthy (Some v) then ToString v
                  else document_title (browser s)
      | None => document_title (browser s)
      end.
Proof.
  intros Hparse Hcall Hquiet Hev final s'. subst s'.
  unfold navigate_with, mbind, M_bind, get_state.
  destruct (run_routes_spec (routes (router s)) rawUrl matchUrl (page_obj d) s
              Hparse Hcall Hquiet) as (t & Hrun & Hh & _ & _).
  rewrite Hrun. fold final.
  unfold render, mbind, M_bind, get_state.
  change (events (router (append_trace t s))) with (events (router s)).
  rewrite Hev, with_url_title, with_url_body.
  unfold update_history, mbind, M_bind, get_state, throw. clearbody final.
  clear Hrun Hparse Hcall Hquiet Hev.
  destruct s as [r [tr tm nt dt c ml me]].
  unfold truthy. destruct (env_history_accepts E rawUrl); destruct replace.
  all: destruct (final !! js "title") as [v|]; [destruct v as [ts| | | |tv tr']|];
    try destruct (nonempty ts); try destruct tv;
    destruct c as [c|]; destruct (final !! js "body") as [[b| | | |]|];
    cbn [fst snd browser trace app_container document_title append_trace
         set_browser modify log add_effect with_document_title
         with_app_container router mret M_ret timers next_timer
         mouseenter_listener mouseleave_listener];
    rewrite ?handler_calls_app, Hh; cbn [handler_calls omap];
    rewrite ?app_nil_r; done.
Qed.

End route_facts.

(** C1, as stated, fails in one point: a callback is called with the
    parameter object alone, so a later callback does not see what an
    earlier one has overlaid.  Whatever title the first callback overlays,
    the second one receives the same argument, while the content at that
    point, which the per-pattern event of the second route carries, differs:
    no [view] of the argument recovers it. *)
Lemma later_handler_sees_params_only :
  ¬ ∃ view : gmap (list N) (list N) -> gmap (list N) jsval,
      ∀ (t : list N) p,
        handler_calls (posts_trace t) !! 1%nat = Some (js "/posts/*", p) ->
        view p !! js "title"
        = (emitted (posts_trace t) !! 1%nat) ≫= (fun e => e.2 !! js "title").
Proof.
  intros [view H].
  assert (HA : handler_calls (posts_trace (js "A")) !! 1%nat
               = Some (js "/posts/*", {[ js "*" := js "7" ]}))
    by (vm_compute; reflexivity).
  assert (HZ : handler_calls (posts_trace (js "Z")) !! 1%nat
               = Some (js "/posts/*", {[ js "*" := js "7" ]}))
    by (vm_compute; reflexivity).
  apply H in HA. apply H in HZ.
  rewrite HA in HZ. vm_compute in HZ. discriminate HZ.
Qed.

(** C1 (amended): as long as no match attempt, callback or listener throws,
    the route loop calls the callback of every registered pattern that
    matches the normalized URL, in registration order and with the parameter
    object; a string result replaces the body and an object result is
    shallow-merged into the content; the overlay accumulated so far is what
    the per-pattern event of each later route carries (the callbacks
    themselves receive the parameter object alone).  With [/posts/:id] then
    [/posts/*] and a navigation to [/posts/7], the first overlaying the title
    [A] and the second returning [B], the final body is [B] and the final
    title is [A]. *)
Theorem route_handlers_in_registration_order :
  (∀ (rs : list (list N * handler)) (url matchUrl : list N)
     (fd : gmap (list N) jsval) (s : state),
     Forall (fun ph => ∃ o, parsePath ph.1 matchUrl = Ret o) rs ->
     Forall (fun m => ∃ r, m.2 m.1.2 = Ret r) (matching rs matchUrl) ->
     (∀ ev ls, events (router s) !! ev = Some ls -> Forall quiet_listener ls) ->
     ∃ t,
       run_routes rs url matchUrl fd s
       = (Ret (foldl (fun acc m => apply_result acc (result_of m)) fd
                 (matching rs matchUrl)),
          append_trace t s)
       ∧ handler_calls t = (fun m => (m.1.1, m.1.2)) <$> matching rs matchUrl
       ∧ emitted t = route_events url (matching rs matchUrl) fd)
  ∧ (∀ (fd : gmap (list N) jsval) (s : list N) (fields : gmap (list N) jsval),
       apply_result fd (RString s) !! js "body" = Some (VStr s)
       ∧ (∀ k, k ≠ js "body" -> apply_result fd (RString s) !! k = fd !! k)
       ∧ (∀ k, apply_result fd (RObject fields) !! k
               = match fields !! k with Some v => Some v | None => fd !! k end))
  ∧ (∀ (E : Env) (first second : handler) (data : Page),
       first {[ js "id" := js "7" ]}
       = Ret (RObject {[ js "title" := VStr (js "A") ]}) ->
       second {[ js "*" := js "7" ]} = Ret (RString (js "B")) ->
       fetch_outcome E (posts_router first second) (js "/posts/7") false
       = Ret data ->
       let s1 := snd (navigate E (js "/posts/7") false
                        (posts_router first second)) in
       handler_calls (trace (browser s1))
       = [(js "/posts/:id", {[ js "id" := js "7" ]});
          (js "/posts/*", {[ js "*" := js "7" ]})]
       ∧ app_container (browser s1) = Some (js "B")
       ∧ document_title (browser s1) = js "A").
Proof.
  split; [|split].
  - intros rs url matchUrl fd s Hparse Hcall Hquiet.
    destruct (run_routes_spec rs url matchUrl fd s Hparse Hcall Hquiet)
      as (t & Hrun & Hh & He & _).
    by exists t.
  - intros fd s fields. split; [apply lookup_insert_eq|]. split.
    + intros k Hk. by apply lookup_insert_ne.
    + intros k. simpl. rewrite lookup_union.
      destruct (fields !! k), (fd !! k); done.
  - intros E first second data Hfirst Hsecond Hfetch s1. subst s1.
    unfold navigate, mbind, M_bind, get_state.
    rewrite (fetchPage_page E (js "/posts/7") (posts_router first second)
               data eq_refl Hfetch).
    set (s0 := set_cache _ _).
    assert (Hm : matching (routes (router s0))
                   (_normalizeUrl (router (posts_router first second))
                      (js "/posts/7"))
                 = [(js "/posts/:id", {[ js "id" := js "7" ]}, first);
                    (js "/posts/*", {[ js "*" := js "7" ]}, second)])
      by (vm_compute; reflexivity).
    destruct (navigate_with_default E (js "/posts/7")
                (_normalizeUrl (router (posts_router first second))
                   (js "/posts/7")) false data s0)
      as (_ & Hcalls & Hcontainer & Htitle).
    + repeat constructor; eexists; vm_compute; reflexivity.
    + rewrite Hm. repeat constructor; eexists; simpl; eassumption.
    + intros ev ls Hev.
      change (events (router s0)) with (∅ : gmap (list N) (list listener)) in Hev.
      by rewrite lookup_empty in Hev.
    + reflexivity.
    + rewrite Hm in Hcalls, Hcontainer, Htitle.
      cbn [foldl] in Hcontainer, Htitle. unfold result_of in Hcontainer, Htitle.
      cbn [fst snd] in Hcontainer, Htitle.
      rewrite Hfirst, Hsecond in Hcontainer, Htitle.
      cbn [apply_result] in Hcontainer, Htitle.
      rewrite lookup_insert_eq in Hcontainer.
      rewrite lookup_insert_ne in Htitle by (by compute).
      rewrite lookup_union, lookup_singleton_eq in Htitle.
      split; [exact Hcalls|]. split; [exact Hcontainer|].
      rewrite Htitle. by destruct (page_obj data !! js "title").
Qed.

Lemma route_handlers_in_registration_order_witness :
  ∃ t,
    run_routes [(js "/posts/:id", overlay_title (js "A"));
                (js "/about", replace_body (js "never"));
                (js "/posts/*", replace_body (js "B"))]
      (js "/posts/7") (js "/posts/7.html")
      (page_obj {| page_title := js "T"; page_body := js "<p>7</p>" |})
      default_router
    = (Ret (<[js "body" := VStr (js "B")]>
              ({[ js "title" := VStr (js "A") ]}
               ∪ page_obj {| page_title := js "T"; page_body := js "<p>7</p>" |})),
       append_trace t default_router)
    ∧ handler_calls t
      = [(js "/posts/:id", {[ js "id" := js "7" ]});
         (js "/posts/*", {[ js "*" := js "7" ]})].
Proof.
  destruct route_handlers_in_registration_order as (Hloop & _ & _).
  destruct (Hloop [(js "/posts/:id", overlay_title (js "A"));
                   (js "/about", replace_body (js "never"));
                   (js "/posts/*", replace_body (js "B"))]
              (js "/posts/7") (js "/posts/7.html")
              (page_obj {| page_title := js "T"; page_body := js "<p>7</p>" |})
              default_router)
    as (t & Hrun & Hcalls & _).
  - repeat constructor; eexists; vm_compute; reflexivity.
  - vm_compute. repeat constructor; eexists; reflexivity.
  - intros ev ls Hev. vm_compute in Hev. discriminate Hev.
  - exists t. split; [exact Hrun|exact Hcalls].
Defined.

(** * Further properties *)

(** ** [_normalizeUrl] *)

Section normalizeUrl_facts.

Implicit Types u clean x : list N.

Lemma normalizePath_tail u :
  u ≠ [] -> normalizePath u = normalize_tail (before_query_or_hash u).
Proof. by destruct u. Qed.

Lemma before_query_or_hash_idem u :
  before_query_or_hash (before_query_or_hash u) = before_query_or_hash u.
Proof. apply before_query_or_hash_id, before_query_or_hash_clean. Qed.

Lemma html_clean : no_query_or_hash (js ".html").
Proof. repeat constructor; done. Qed.

Lemma ends_with_app suf x : ends_with suf (x ++ suf) = true.
Proof.
  unfold ends_with. rewrite length_app.
  replace (length x + length suf - length suf)%nat with (length x) by lia.
  rewrite drop_app_length. apply andb_true_iff. split.
  - apply Nat.leb_le. lia.
  - by apply bool_decide_eq_true_2.
Qed.

Lemma ci_eqb_list_refl x : ci_eqb_list x x = true.
Proof.
  induction x as [|c x IH]; [done|]. simpl. rewrite IH.
  unfold ci_eqb. by rewrite N.eqb_refl.
Qed.

Lemma has_suffix_ci_app suf x : has_suffix_ci suf (x ++ suf) = true.
Proof.
  unfold has_suffix_ci. rewrite length_app.
  replace (length x + length suf - length suf)%nat with (length x) by lia.
  rewrite drop_app_length, ci_eqb_list_refl. apply andb_true_iff. split; [|done].
  apply Nat.leb_le. lia.
Qed.

Lemma strip_suffix_ci_app suf x : strip_suffix_ci suf (x ++ suf) = x.
Proof.
  unfold strip_suffix_ci. rewrite has_suffix_ci_app, length_app.
  replace (length x + length suf - length suf)%nat with (length x) by lia.
  apply take_app_length.
Qed.

Lemma last_app_html x : last (x ++ js ".html") = Some 108.
Proof.
  change (js ".html") with (js ".htm" ++ [108]).
  by rewrite app_assoc, last_snoc.
Qed.

End normalizeUrl_facts.

(** X1: [_normalizeUrl] is idempotent, with or without the extension
    policy. *)
Theorem normalizeUrl_idempotent (r : Router) (u : list N) :
  _normalizeUrl r (_normalizeUrl r u) = _normalizeUrl r u.
Proof.
  unfold _normalizeUrl.
  set (clean := before_query_or_hash u).
  assert (Hclean : no_query_or_hash clean) by apply before_query_or_hash_clean.
  destruct (htmlExtension r && negb (ends_with (js ".html") clean)
            && negb (jsstring_eqb clean (js "/"))) eqn:Hcond.
  - assert (Hb : before_query_or_hash (clean ++ js ".html") = clean ++ js ".html").
    { apply before_query_or_hash_id, Forall_app. split; [done|apply html_clean]. }
    rewrite Hb, ends_with_app.
    by rewrite andb_false_r.
  - rewrite (before_query_or_hash_id _ Hclean). by rewrite Hcond.
Qed.

(** X2: where [_normalizeUrl] appends the extension to a path that has no
    trailing slash and does not end in [.html] in another letter case, the
    route patterns match the result exactly as they match the URL itself. *)
Theorem normalizeUrl_same_match (r : Router) (u pattern : list N) :
  (_normalizeUrl r u ≠ before_query_or_hash u ->
   has_suffix_ci (js ".html") (before_query_or_hash u) = false
   ∧ last (before_query_or_hash u) ≠ Some c_slash) ->
  parsePath pattern (_normalizeUrl r u) = parsePath pattern u.
Proof.
  intros Hcond.
  assert (Hn : normalizePath (_normalizeUrl r u) = normalizePath u);
    [|unfold parsePath; rewrite Hn; reflexivity].
  assert (Hsame : normalizePath (before_query_or_hash u) = normalizePath u).
  { pose proof (before_query_or_hash_idem u) as Hid.
    unfold normalizePath. destruct u as [|c u0]; [done|].
    destruct (before_query_or_hash (c :: u0)) as [|c' p']; [done|].
    by rewrite Hid. }
  unfold _normalizeUrl in *.
  set (clean := before_query_or_hash u) in *.
  destruct (htmlExtension r && negb (ends_with (js ".html") clean)
            && negb (jsstring_eqb clean (js "/"))) eqn:Happ; [|done].
  rewrite <- Hsame.
  destruct Hcond as [Hci Hlast].
  { intros E. apply (f_equal length) in E. rewrite length_app in E.
    simpl in E. lia. }
  assert (Hclean : no_query_or_hash clean) by apply before_query_or_hash_clean.
  assert (Hb : before_query_or_hash (clean ++ js ".html") = clean ++ js ".html").
  { apply before_query_or_hash_id, Forall_app. split; [done|apply html_clean]. }
  destruct (decide (clean = [])) as [->|Hnil]; [reflexivity|].
  rewrite (normalizePath_tail clean Hnil), (before_query_or_hash_id _ Hclean).
  rewrite (normalizePath_tail (clean ++ js ".html")), Hb
    by (intros [? _]%app_eq_nil; done).
  unfold normalize_tail.
  assert (Hlen : (1 <? length (clean ++ js ".html"))%nat = true).
  { apply Nat.ltb_lt. rewrite length_app. simpl. lia. }
  assert (Hne : jsstring_eqb (clean ++ js ".html") (js "/") = false).
  { apply bool_decide_eq_false_2. intros E. apply (f_equal length) in E.
    rewrite length_app in E. simpl in E. lia. }
  rewrite Hlen.
  rewrite (strip_trailing_slashes_id (clean ++ js ".html"))
    by (rewrite last_app_html; discriminate).
  rewrite Hne. cbn [negb]. rewrite strip_suffix_ci_app.
  assert (Hstep3 : (if (1 <? length clean)%nat
                    then strip_trailing_slashes clean else clean) = clean).
  { destruct (1 <? length clean)%nat; [|done].
    by apply strip_trailing_slashes_id. }
  rewrite Hstep3, (strip_suffix_ci_id _ _ Hci).
  by destruct (negb (jsstring_eqb clean (js "/"))).
Qed.

Lemma normalizeUrl_same_match_witness :
  parsePath (js "/posts/:id") (_normalizeUrl (router default_router)
                                 (js "/posts/7?draft=1"))
  = parsePath (js "/posts/:id") (js "/posts/7?draft=1").
Proof.
  apply (normalizeUrl_same_match (router default_router)
           (js "/posts/7?draft=1") (js "/posts/:id")).
  intros _. split; [reflexivity|]. vm_compute. discriminate.
Defined.

(** The condition matters: in another letter case the extension is appended
    all the same, and only the appended one is stripped again. *)
Example normalizeUrl_other_case :
  parsePath (js "/about") (js "/about.HTML") = Ret (Some ∅)
  ∧ parsePath (js "/about") (_normalizeUrl (router default_router)
                               (js "/about.HTML")) = Ret None.
Proof. by vm_compute. Qed.

(** ** The route map and the listeners *)

Section ordered_map_facts.

Context {K V : Type} `{EqDecision K}.
Implicit Types m : list (K * V).

Lemma omap_get_set_eq k v m : omap_get k (omap_set k v m) = Some v.
Proof.
  induction m as [|[k' v'] m IH]; simpl.
  - by rewrite decide_True.
  - destruct (decide (k' = k)) as [->|Hne]; simpl.
    + by rewrite decide_True.
    + by rewrite decide_False.
Qed.

Lemma omap_get_set_ne k k' v m :
  k ≠ k' -> omap_get k' (omap_set k v m) = omap_get k' m.
Proof.
  intros Hne. induction m as [|[k0 v0] m IH]; simpl.
  - by rewrite decide_False.
  - destruct (decide (k0 = k)) as [->|Hne0]; simpl.
    + by rewrite !decide_False.
    + by rewrite IH.
Qed.

Lemma omap_set_keys_old k v m : k ∈ m.*1 -> (omap_set k v m).*1 = m.*1.
Proof.
  induction m as [|[k' v'] m IH]; simpl; [by intros ?%elem_of_nil|].
  destruct (decide (k' = k)) as [->|Hne]; [done|].
  intros [?|Hin]%elem_of_cons; [congruence|]. simpl. f_equal. by apply IH.
Qed.

Lemma omap_set_keys_new k v m : k ∉ m.*1 -> (omap_set k v m).*1 = m.*1 ++ [k].
Proof.
  induction m as [|[k' v'] m IH]; simpl; [done|].
  intros [Hne Hnot]%not_elem_of_cons.
  rewrite decide_False by done. simpl. f_equal. by apply IH.
Qed.

Lemma omap_set_NoDup k v m : NoDup m.*1 -> NoDup (omap_set k v m).*1.
Proof.
  intros Hnd. destruct (decide (k ∈ m.*1)) as [Hin|Hnot].
  - by rewrite omap_set_keys_old.
  - rewrite omap_set_keys_new by done.
    apply NoDup_app. split; [done|]. split; [|apply NoDup_singleton].
    intros x Hx ->%list_elem_of_singleton. done.
Qed.

End ordered_map_facts.

(** X3: [route] keeps one entry per pattern.  A new pattern goes to the end
    of the route map; a pattern that is registered already keeps its place
    and gets the new callback; the other callbacks stay. *)
Theorem route_replaces_in_place (pattern : list N) (callback : handler)
    (s : state) :
  let s' := snd (route pattern callback s) in
  fst (route pattern callback s) = Ret tt
  ∧ omap_get pattern (routes (router s')) = Some callback
  ∧ (∀ p, p ≠ pattern ->
          omap_get p (routes (router s')) = omap_get p (routes (router s)))
  ∧ (routes (router s')).*1
    = (if decide (pattern ∈ (routes (router s)).*1)
       then (routes (router s)).*1
       else (routes (router s)).*1 ++ [pattern])
  ∧ (NoDup (routes (router s)).*1 -> NoDup (routes (router s')).*1)
  ∧ cache (router s') = cache (router s)
  ∧ events (router s') = events (router s).
Proof.
  cbn. split; [done|]. split; [apply omap_get_set_eq|]. split.
  { intros p Hp. by apply omap_get_set_ne. }
  split.
  { destruct (decide _); [by apply omap_set_keys_old|by apply omap_set_keys_new]. }
  split; [apply omap_set_NoDup|done].
Qed.

Lemma route_replaces_in_place_witness :
  (routes (router (snd (route (js "/posts/:id") (replace_body (js "new"))
                          (posts_router (overlay_title (js "A"))
                             (replace_body (js "B"))))))).*1
  = [js "/posts/:id"; js "/posts/*"].
Proof.
  destruct (route_replaces_in_place (js "/posts/:id") (replace_body (js "new"))
              (posts_router (overlay_title (js "A")) (replace_body (js "B"))))
    as (_ & _ & _ & Hkeys & _).
  rewrite Hkeys. reflexivity.
Defined.

Section listener_facts.

Implicit Types s : state.
Implicit Types ls : list listener.

Lemma listener_calls_are_calls ls ev pl :
  Forall is_listener_call (listener_calls ls ev pl).
Proof. induction ls; by constructor. Qed.

Lemma call_listeners_all ls ev pl s :
  Forall (fun l => l_run l pl = Ret tt) ls ->
  call_listeners ls ev pl s = (Ret tt, append_trace (listener_calls ls ev pl) s).
Proof.
  intros Hq. revert s. induction Hq as [|l ls Hl _ IH]; intros s.
  - by rewrite append_trace_nil.
  - cbn [call_listeners]. unfold mbind, M_bind. rewrite log_spec.
    unfold lift at 1. rewrite Hl, IH, append_trace_app. reflexivity.
Qed.

Lemma call_listeners_throw ok l rest ev pl e s :
  Forall (fun l => l_run l pl = Ret tt) ok ->
  l_run l pl = Throw e ->
  call_listeners (ok ++ l :: rest) ev pl s
  = (Throw e, append_trace (listener_calls (ok ++ [l]) ev pl) s).
Proof.
  intros Hq Hl. revert s. induction Hq as [|l0 ok Hl0 _ IH]; intros s.
  - cbn [app call_listeners]. unfold mbind, M_bind. rewrite log_spec.
    unfold lift at 1. by rewrite Hl.
  - cbn [app call_listeners]. unfold mbind, M_bind. rewrite log_spec.
    unfold lift at 1. rewrite Hl0, IH, append_trace_app. reflexivity.
Qed.

Lemma emit_returns ev pl s :
  inherited ev = false ->
  Forall (fun l => l_run l pl = Ret tt) (default [] (events (router s) !! ev)) ->
  emit ev pl s
  = (Ret tt,
     append_trace
       (EEmit ev pl
        :: listener_calls (default [] (events (router s) !! ev)) ev pl) s).
Proof.
  intros Hinh Hq. unfold emit, mbind, M_bind. rewrite log_spec.
  unfold get_state.
  change (router (append_trace [EEmit ev pl] s)) with (router s).
  destruct (events (router s) !! ev) as [ls|]; simpl in Hq |- *.
  - by rewrite (call_listeners_all _ _ _ _ Hq), append_trace_app.
  - by rewrite Hinh.
Qed.

Lemma emit_throws ev pl s ok l rest e :
  events (router s) !! ev = Some (ok ++ l :: rest) ->
  Forall (fun l => l_run l pl = Ret tt) ok ->
  l_run l pl = Throw e ->
  emit ev pl s
  = (Throw e, append_trace (EEmit ev pl :: listener_calls (ok ++ [l]) ev pl) s).
Proof.
  intros Hev Hq Hl. unfold emit, mbind, M_bind.
  rewrite log_spec. unfold get_state.
  change (router (append_trace [EEmit ev pl] s)) with (router s).
  by rewrite Hev, (call_listeners_throw ok l rest ev pl e _ Hq Hl),
       append_trace_app.
Qed.

End listener_facts.

(** X4: [on] adds the listener after those already subscribed to the event
    and touches no other event; for an event named like a member of
    [Object.prototype] it throws a [TypeError] and subscribes nothing. *)
Theorem on_subscribes_last :
  (∀ (event : list N) (l : listener) (s : state),
     inherited event = false ∨ is_Some (events (router s) !! event) ->
     let s' := snd (on event l s) in
     fst (on event l s) = Ret tt
     ∧ events (router s') !! event
       = Some (default [] (events (router s) !! event) ++ [l])
     ∧ (∀ ev, ev ≠ event -> events (router s') !! ev = events (router s) !! ev)
     ∧ routes (router s') = routes (router s)
     ∧ cache (router s') = cache (router s)
     ∧ browser s' = browser s)
  ∧ (∀ (event : list N) (l : listener) (s : state),
       inherited event = true ->
       events (router s) !! event = None ->
       on event l s = (Throw (not_a_function (js "push")), s)).
Proof.
  split.
  - intros event l s Hok. unfold on, mbind, M_bind, get_state.
    destruct (events (router s) !! event) as [ls|] eqn:Hev.
    + cbn. split; [done|]. split; [apply lookup_insert_eq|].
      split; [|done]. intros ev Hne. by apply lookup_insert_ne.
    + destruct Hok as [->|[? ?]]; [|done].
      cbn. split; [done|]. split; [apply lookup_insert_eq|].
      split; [|done]. intros ev Hne. by apply lookup_insert_ne.
  - intros event l s Hinh Hev. unfold on, mbind, M_bind, get_state.
    by rewrite Hev, Hinh.
Qed.

Lemma on_subscribes_last_witness :
  events (router (snd (on (js "navigate") {| l_id := 2; l_run := fun _ => Ret tt |}
                         (snd (on (js "navigate")
                                 {| l_id := 1; l_run := fun _ => Ret tt |}
                                 default_router)))))
  !! js "navigate"
  = Some ([{| l_id := 1; l_run := fun _ => Ret tt |}]
          ++ [{| l_id := 2; l_run := fun _ => Ret tt |}])
  ∧ on (js "toString") {| l_id := 1; l_run := fun _ => Ret tt |} default_router
    = (Throw (not_a_function (js "push")), default_router).
Proof.
  destruct on_subscribes_last as [Hon Hinh]. split.
  - destruct (Hon (js "navigate") {| l_id := 2; l_run := fun _ => Ret tt |}
                (snd (on (js "navigate") {| l_id := 1; l_run := fun _ => Ret tt |}
                        default_router)))
      as (_ & Hev & _); [by left|].
    rewrite Hev. reflexivity.
  - apply Hinh; reflexivity.
Defined.

(** X5: [emit] calls the listeners of the event in the order of their
    subscription, each with the payload; the first listener that throws ends
    the iteration, and [emit] throws what it threw. *)
Theorem emit_in_subscription_order :
  (∀ (ev : list N) (pl : gmap (list N) jsval) (s : state) (ls : list listener),
     events (router s) !! ev = Some ls ->
     Forall (fun l => l_run l pl = Ret tt) ls ->
     emit ev pl s
     = (Ret tt, append_trace (EEmit ev pl :: listener_calls ls ev pl) s))
  ∧ (∀ (ev : list N) (pl : gmap (list N) jsval) (s : state)
       (ok rest : list listener) (l : listener) (e : exn),
       events (router s) !! ev = Some (ok ++ l :: rest) ->
       Forall (fun l => l_run l pl = Ret tt) ok ->
       l_run l pl = Throw e ->
       emit ev pl s
       = (Throw e,
          append_trace (EEmit ev pl :: listener_calls (ok ++ [l]) ev pl) s)).
Proof.
  split.
  - intros ev pl s ls Hev Hq.
    assert (Hemit : ∀ ls', events (router s) !! ev = Some ls' ->
              emit ev pl s = (let (r, s') := call_listeners ls' ev pl
                                (append_trace [EEmit ev pl] s) in (r, s'))).
    { intros ls' Hev'. unfold emit, mbind, M_bind. rewrite log_spec.
      unfold get_state.
      change (router (append_trace [EEmit ev pl] s)) with (router s).
      rewrite Hev'. by destruct (call_listeners _ _ _ _) as [[[]|e] s']. }
    by rewrite (Hemit ls Hev), (call_listeners_all _ _ _ _ Hq), append_trace_app.
  - intros ev pl s ok rest l e Hev Hq Hl. by apply (emit_throws _ _ _ _ _ rest).
Qed.

Lemma emit_in_subscription_order_witness :
  let l1 := {| l_id := 1; l_run := fun _ => Ret tt |} in
  let l2 := {| l_id := 2; l_run := fun _ => Throw (Thrown (js "boom")) |} in
  let l3 := {| l_id := 3; l_run := fun _ => Ret tt |} in
  let s := snd ((on (js "navigate") l1;; on (js "navigate") l2;;
                 on (js "navigate") l3) default_router) in
  emit (js "navigate") ∅ s
  = (Throw (Thrown (js "boom")),
     append_trace (EEmit (js "navigate") ∅
                   :: listener_calls ([l1] ++ [l2]) (js "navigate") ∅) s).
Proof.
  intros l1 l2 l3 s.
  destruct emit_in_subscription_order as [_ Hthrow].
  apply (Hthrow (js "navigate") ∅ s [l1] [l3] l2 (Thrown (js "boom")));
    [reflexivity|by repeat constructor|reflexivity].
Defined.

(** ** What a method adds to the trace *)

Section tidy_facts.

Context {B : Type} (f : effect -> option B).
Implicit Types s : state.

Lemma tidy_keeps {A} (m : M A) : tidy f m -> keeps f m.
Proof.
  intros Hm s. destruct (Hm s) as (c & t & -> & Ht). simpl.
  by rewrite omap_app, Ht, app_nil_r.
Qed.

Lemma tidy_ret {A} (a : A) : tidy f (mret a).
Proof.
  intros s. exists (cache (router s)), [].
  by rewrite append_trace_nil, set_cache_same.
Qed.

Lemma tidy_lift {A} (r : res A) : tidy f (lift r).
Proof. apply (tidy_ret tt). Qed.

Lemma tidy_throw {A} (e : exn) : tidy f (@throw A e).
Proof. apply (tidy_ret tt). Qed.

Lemma tidy_get : tidy f get_state.
Proof. apply (tidy_ret tt). Qed.

Lemma tidy_bind {A C} (m : M A) (k : A -> M C) :
  tidy f m -> (∀ a, tidy f (k a)) -> tidy f (m ≫= k).
Proof.
  intros Hm Hk s. unfold mbind, M_bind.
  destruct (Hm s) as (c & t & Hs & Ht). destruct (m s) as [[a|e] s1];
    simpl in Hs; subst s1; [|by exists c, t].
  destruct (Hk a (set_cache c (append_trace t s))) as (c' & t' & -> & Ht').
  exists c', (t ++ t'). split.
  - unfold set_cache, append_trace, set_browser. simpl. by rewrite app_assoc.
  - by rewrite omap_app, Ht, Ht'.
Qed.

Lemma tidy_try {A} (m : M A) (h : exn -> M A) :
  tidy f m -> (∀ e, tidy f (h e)) -> tidy f (try_catch m h).
Proof.
  intros Hm Hh s. unfold try_catch.
  destruct (Hm s) as (c & t & Hs & Ht). destruct (m s) as [[a|e] s1];
    simpl in Hs; subst s1; [by exists c, t|].
  destruct (Hh e (set_cache c (append_trace t s))) as (c' & t' & -> & Ht').
  exists c', (t ++ t'). split.
  - unfold set_cache, append_trace, set_browser. simpl. by rewrite app_assoc.
  - by rewrite omap_app, Ht, Ht'.
Qed.

Lemma tidy_log e : f e = None -> tidy f (log e).
Proof.
  intros He s. exists (cache (router s)), [e]. split.
  - symmetry. apply (set_cache_same (append_trace _ s)).
  - simpl. by rewrite He.
Qed.

Lemma tidy_cache_set url d : tidy f (cache_set url d).
Proof.
  intros s. exists (<[url := d]> (cache (router s))), [].
  by rewrite append_trace_nil.
Qed.

Hypothesis f_emit : ∀ ev pl, f (EEmit ev pl) = None.
Hypothesis f_listener : ∀ id ev pl, f (EListener id ev pl) = None.

Lemma listener_calls_unselected t : Forall is_listener_call t -> omap f t = [].
Proof.
  induction 1 as [|e t He _ IH]; [done|].
  destruct e; try done. simpl. by rewrite f_listener.
Qed.

Lemma tidy_emit ev pl : tidy f (emit ev pl).
Proof.
  intros s. destruct (emit_spec ev pl s) as (t & -> & Hcalls & _).
  exists (cache (router s)), (EEmit ev pl :: t). split.
  - symmetry. apply (set_cache_same (append_trace _ s)).
  - simpl. by rewrite f_emit, listener_calls_unselected.
Qed.

Lemma tidy_run_routes rs url matchUrl fd :
  (∀ p ps, f (EHandler p ps) = None) ->
  tidy f (run_routes rs url matchUrl fd).
Proof.
  intros f_handler. revert fd.
  induction rs as [|[pattern callback] rs IH]; intros fd.
  - apply tidy_ret.
  - cbn [run_routes]. apply tidy_bind; [apply tidy_lift|].
    intros [params|]; [|apply IH].
    apply tidy_bind; [by apply tidy_log|]. intros _.
    apply tidy_bind; [apply tidy_lift|]. intros result.
    apply tidy_bind; [apply tidy_emit|]. intros _. apply IH.
Qed.

Lemma keeps_render payload :
  (∀ v, f (ESetTitle v) = None) ->
  (∀ b, f (ESetInnerHTML b) = None) ->
  f EExecuteScripts = None ->
  keeps f (render payload).
Proof.
  intros f_title f_html f_scripts s.
  unfold render, mbind, M_bind, get_state.
  destruct (events (router s) !! js "navigate") as [[|l ls]|] eqn:Hev.
  2:{ by apply (tidy_keeps _ (tidy_emit _ _)). }
  all: destruct (payload !! js "title") as [v|];
    [destruct (truthy (Some v))|];
    destruct (app_container (browser s));
    try destruct (payload !! js "body") as [[b| | | |]|];
    cbn; rewrite ?omap_app; cbn;
    rewrite ?f_title, ?f_html, ?f_scripts, ?app_nil_r; done.
Qed.

End tidy_facts.

(** ** [navigate] as a whole *)

Section navigation_facts.

Variable E : Env.
Implicit Types s : state.
Implicit Types url : list N.

(** The lookaside of [navigate]: it never throws. *)
Lemma fetchPage_lookaside url s :
  fetchPage E url false s = (Ret (lookaside_page E s url), lookaside_state E s url).
Proof.
  unfold lookaside_state, lookaside_page.
  destruct (cache (router s) !! url) as [d|] eqn:Hc.
  - by apply fetchPage_hit.
  - destruct (fetch_outcome E s url false) as [d|err] eqn:Ho.
    + by apply fetchPage_page.
    + by apply fetchPage_fallback.
Qed.

Lemma navigate_lookaside url replace s :
  navigate E url replace s
  = navigate_with E url (_normalizeUrl (router s) url) replace
      (lookaside_page E s url) (lookaside_state E s url).
Proof.
  unfold navigate, mbind, M_bind, get_state. by rewrite fetchPage_lookaside.
Qed.

Lemma lookaside_state_router url s :
  routes (router (lookaside_state E s url)) = routes (router s)
  ∧ events (router (lookaside_state E s url)) = events (router s)
  ∧ document_title (browser (lookaside_state E s url))
    = document_title (browser s)
  ∧ app_container (browser (lookaside_state E s url))
    = app_container (browser s).
Proof. unfold lookaside_state. by destruct (cache (router s) !! url). Qed.

Lemma lookaside_state_trace url s :
  trace (browser (lookaside_state E s url))
  = trace (browser s)
    ++ match cache (router s) !! url with
       | Some _ => []
       | None => [EFetch url (request_headers false)]
       end.
Proof.
  unfold lookaside_state. destruct (cache (router s) !! url); [|done].
  by rewrite app_nil_r.
Qed.

(** Routes that do not match leave the loop without a trace. *)
Lemma run_routes_unmatched rs url matchUrl fd s :
  Forall (fun ph => parsePath ph.1 matchUrl = Ret None) rs ->
  run_routes rs url matchUrl fd s = (Ret fd, s).
Proof.
  induction 1 as [|[p h] rs Hp _ IH]; [done|].
  cbn [run_routes]. unfold mbind, M_bind, lift at 1. simpl in Hp.
  by rewrite Hp.
Qed.

Lemma run_routes_app_unmatched rs1 rs2 url matchUrl fd s :
  Forall (fun ph => parsePath ph.1 matchUrl = Ret None) rs1 ->
  run_routes (rs1 ++ rs2) url matchUrl fd s = run_routes rs2 url matchUrl fd s.
Proof.
  induction 1 as [|[p h] rs Hp _ IH]; [done|].
  cbn [app run_routes]. unfold mbind, M_bind, lift at 1. simpl in Hp.
  by rewrite Hp.
Qed.

End navigation_facts.

Section navigation_outcomes.

Variable E : Env.
Implicit Types s : state.
Implicit Types url : list N.

Lemma trace_append_trace t s :
  trace (browser (append_trace t s)) = trace (browser s) ++ t.
Proof. reflexivity. Qed.

Lemma update_history_spec rawUrl replace fd s :
  ∃ title_,
    update_history E rawUrl replace fd s
    = if env_history_accepts E rawUrl
      then (Ret tt, append_trace [history_entry rawUrl replace title_] s)
      else (Throw security_error, s).
Proof.
  unfold update_history, mbind, M_bind, get_state, throw.
  eexists. destruct (env_history_accepts E rawUrl); [|reflexivity].
  rewrite log_spec. unfold history_entry. reflexivity.
Qed.

(** What is no effect on the page is none on the history and none on the
    document. *)
Lemma ui_effect_none t :
  omap ui_effect t = [] ->
  omap history_effect t = [] ∧ omap dom_effect t = [].
Proof.
  induction t as [|x t IH]; [done|].
  destruct x; simpl; try done; apply IH.
Qed.

(** The default render returns. *)
Lemma render_default_returns payload s :
  (∀ l ls, events (router s) !! js "navigate" ≠ Some (l :: ls)) ->
  fst (render payload s) = Ret tt
  ∧ router (snd (render payload s)) = router s.
Proof.
  intros Hev. unfold render, mbind, M_bind, get_state.
  destruct (events (router s) !! js "navigate") as [[|l ls]|] eqn:He;
    [|by destruct (Hev l ls)|].
  all: destruct (payload !! js "title") as [v|];
    [destruct (truthy (Some v))|];
    destruct (app_container (browser s));
    try destruct (payload !! js "body") as [[b| | | |]|]; done.
Qed.

(** After the route loop: the render, then the history entry, unless a
    [navigate] listener throws or [history] refuses the URL. *)
Lemma render_then_history payload rawUrl replace fd s :
  let m := render payload;; update_history E rawUrl replace fd in
  match fst (m s) with
  | Ret _ =>
      env_history_accepts E rawUrl = true
      ∧ ∃ title_,
          omap history_effect (trace (browser (snd (m s))))
          = omap history_effect (trace (browser s))
            ++ [history_entry rawUrl replace title_]
          ∧ last (trace (browser (snd (m s))))
            = Some (history_entry rawUrl replace title_)
          ∧ router (snd (m s)) = router s
  | Throw e =>
      omap history_effect (trace (browser (snd (m s))))
      = omap history_effect (trace (browser s))
      ∧ (omap dom_effect (trace (browser (snd (m s))))
         = omap dom_effect (trace (browser s))
         ∨ (env_history_accepts E rawUrl = false ∧ e = security_error))
  end.
Proof.
  cbv zeta. unfold mbind, M_bind.
  destruct (events (router s) !! js "navigate") as [[|l ls]|] eqn:Hev.
  2:{ assert (Hr : render payload s = emit (js "navigate") payload s).
      { unfold render, mbind, M_bind, get_state. by rewrite Hev. }
      rewrite Hr.
      destruct (emit_spec (js "navigate") payload s) as (t & Ht & Hcalls & _).
      pose proof (listener_calls_unselected history_effect
                    (fun _ _ _ => eq_refl) t Hcalls) as Hh.
      pose proof (listener_calls_unselected dom_effect
                    (fun _ _ _ => eq_refl) t Hcalls) as Hd.
      destruct (emit (js "navigate") payload s) as [[[]|e] s1];
        simpl in Ht; subst s1.
      - destruct (update_history_spec rawUrl replace fd
                    (append_trace (EEmit (js "navigate") payload :: t) s))
          as (title_ & ->).
        change (EEmit (js "navigate") payload :: t)
          with ([EEmit (js "navigate") payload] ++ t).
        destruct (env_history_accepts E rawUrl); cbn [fst snd].
        + split; [done|]. exists title_. rewrite append_trace_app.
          rewrite trace_append_trace. split; [|split].
          * rewrite !omap_app, Hh. unfold history_entry. by destruct replace.
          * rewrite !app_assoc. apply last_snoc.
          * done.
        + rewrite trace_append_trace, !omap_app, Hh. simpl.
          split; [by rewrite app_nil_r|by right].
      - cbn [fst snd].
        change (EEmit (js "navigate") payload :: t)
          with ([EEmit (js "navigate") payload] ++ t).
        rewrite trace_append_trace, !omap_app, Hh, Hd. simpl.
        rewrite !app_nil_r. split; [done|by left]. }
  all: assert (Hdef : ∀ l ls, events (router s) !! js "navigate" ≠ Some (l :: ls))
    by (intros ? ?; congruence).
  all: destruct (render_default_returns payload s Hdef) as [Hret Hrouter].
  all: pose proof (keeps_render history_effect (fun _ _ => eq_refl)
                     (fun _ _ _ => eq_refl) payload (fun _ => eq_refl)
                     (fun _ => eq_refl) eq_refl s) as Hkeep.
  all: destruct (render payload s) as [r s1]; simpl in Hret, Hrouter, Hkeep;
    subst r.
  all: destruct (update_history_spec rawUrl replace fd s1) as (title_ & ->).
  all: destruct (env_history_accepts E rawUrl); cbn [fst snd];
    [|split; [done|by right]].
  all: split; [done|]; exists title_; split; [|split; [|done]].
  all: simpl; rewrite ?omap_app, ?Hkeep; try apply last_snoc.
  all: unfold history_entry; by destruct replace.
Qed.

Lemma navigate_with_steps rawUrl matchUrl replace d s :
  navigate_with E rawUrl matchUrl replace d s
  = match run_routes (routes (router s)) rawUrl matchUrl (page_obj d) s with
    | (Ret fd, s1) =>
        (render (with_url rawUrl fd);; update_history E rawUrl replace fd) s1
    | (Throw e, s1) => (Throw e, s1)
    end.
Proof.
  unfold navigate_with, mbind, M_bind, get_state.
  by destruct (run_routes _ _ _ _ s) as [[fd|e] s1].
Qed.

Lemma navigate_fetched url replace s :
  fetched (trace (browser (snd (navigate E url replace s))))
  = fetched (trace (browser s))
    ++ match cache (router s) !! url with
       | Some _ => []
       | None => [(url, request_headers false)]
       end.
Proof.
  rewrite navigate_lookaside.
  destruct (no_fetch_navigate_with E url (_normalizeUrl (router s) url) replace
              (lookaside_page E s url) (lookaside_state E s url)) as [_ ->].
  rewrite lookaside_state_trace, fetched_app.
  by destruct (cache (router s) !! url).
Qed.

Lemma navigate_cache url replace s :
  cache (router (snd (navigate E url replace s)))
  = match cache (router s) !! url with
    | Some _ => cache (router s)
    | None => <[url := lookaside_page E s url]> (cache (router s))
    end.
Proof.
  rewrite navigate_lookaside.
  destruct (no_fetch_navigate_with E url (_normalizeUrl (router s) url) replace
              (lookaside_page E s url) (lookaside_state E s url)) as [-> _].
  unfold lookaside_state. by destruct (cache (router s) !! url).
Qed.

End navigation_outcomes.

(** X6: a navigation issues no request for a cached URL and exactly one,
    without the prefetch marker, for any other; whether it returns or throws,
    the cache then holds the page it worked with under the raw URL, and no
    other entry has changed. *)
Theorem navigate_requests_and_cache (E : Env) (url : list N) (replace : bool)
    (s : state) :
  let s' := snd (navigate E url replace s) in
  fetched (trace (browser s'))
  = fetched (trace (browser s))
    ++ match cache (router s) !! url with
       | Some _ => []
       | None => [(url, request_headers false)]
       end
  ∧ cache (router s') !! url = Some (lookaside_page E s url)
  ∧ ∀ u, u ≠ url -> cache (router s') !! u = cache (router s) !! u.
Proof.
  cbv zeta. rewrite navigate_fetched, navigate_cache.
  split; [done|]. unfold lookaside_page.
  destruct (cache (router s) !! url) as [d|] eqn:Hc.
  - split; done.
  - split; [apply lookup_insert_eq|].
    intros u Hu. by apply lookup_insert_ne.
Qed.

(** X7: a navigation that returns has added exactly one history entry, for
    the raw URL, pushed or replaced as asked, and it is the last thing it
    did; a navigation that throws has added none, and if by then the router
    has written to the document, it is [history] that refused the URL, with
    its [SecurityError]. *)
Theorem navigate_history (E : Env) (url : list N) (replace : bool) (s : state) :
  let s' := snd (navigate E url replace s) in
  match fst (navigate E url replace s) with
  | Ret _ =>
      env_history_accepts E url = true
      ∧ ∃ title_,
          omap history_effect (trace (browser s'))
          = omap history_effect (trace (browser s))
            ++ [history_entry url replace title_]
          ∧ last (trace (browser s')) = Some (history_entry url replace title_)
  | Throw e =>
      omap history_effect (trace (browser s'))
      = omap history_effect (trace (browser s))
      ∧ (omap dom_effect (trace (browser s'))
         ≠ omap dom_effect (trace (browser s)) ->
         env_history_accepts E url = false ∧ e = security_error)
  end.
Proof.
  cbv zeta. rewrite navigate_lookaside, navigate_with_steps.
  set (s0 := lookaside_state E s url).
  assert (Hd0 : omap dom_effect (trace (browser s0))
                = omap dom_effect (trace (browser s))).
  { subst s0. rewrite lookaside_state_trace, omap_app.
    destruct (cache (router s) !! url); simpl; by rewrite app_nil_r. }
  assert (Hh0 : omap history_effect (trace (browser s0))
                = omap history_effect (trace (browser s))).
  { subst s0. rewrite lookaside_state_trace, omap_app.
    destruct (cache (router s) !! url); simpl; by rewrite app_nil_r. }
  destruct (tidy_run_routes ui_effect (fun _ _ => eq_refl)
              (fun _ _ _ => eq_refl) (routes (router s0)) url
              (_normalizeUrl (router s) url)
              (page_obj (lookaside_page E s url)) (fun _ _ => eq_refl) s0)
    as (c1 & t1 & Hs1 & Ht1).
  apply ui_effect_none in Ht1 as [Hh1 Hd1].
  destruct (run_routes _ _ _ _ s0) as [[fd|e] s1]; simpl in Hs1; subst s1.
  - pose proof (render_then_history E (with_url url fd) url replace fd
                  (set_cache c1 (append_trace t1 s0))) as Hfin.
    cbv zeta in Hfin.
    destruct ((render (with_url url fd);; update_history E url replace fd)
                (set_cache c1 (append_trace t1 s0))) as [[[]|e] s2];
      cbn [fst snd] in *.
    + destruct Hfin as (Hacc & title_ & Hh & Hlast & _). split; [done|].
      exists title_. split; [|done]. rewrite Hh. simpl.
      by rewrite omap_app, Hh0, Hh1, app_nil_r.
    + destruct Hfin as (Hh & Hd). simpl in Hh, Hd.
      rewrite omap_app, Hh0, Hh1, app_nil_r in Hh.
      rewrite omap_app, Hd0, Hd1, app_nil_r in Hd.
      split; [done|]. intros Hdom. by destruct Hd as [Hd|Hd].
  - simpl. rewrite !omap_app, Hh0, Hd0, Hh1, Hd1, !app_nil_r.
    split; [done|]. by intros Hdom.
Qed.

Section navigation_cases.

Variable E : Env.
Implicit Types s : state.
Implicit Types url : list N.

Lemma browser_set_cache c s : browser (set_cache c s) = browser s.
Proof. reflexivity. Qed.

(** The default render of a page as fetched, then the history entry. *)
Lemma finish_default url replace d s :
  events (router s) !! js "navigate" = None ->
  let m := render (with_url url (page_obj d));;
           update_history E url replace (page_obj d) in
  fst (m s)
  = (if env_history_accepts E url then Ret tt else Throw security_error)
  ∧ handler_calls (trace (browser (snd (m s)))) = handler_calls (trace (browser s))
  ∧ emitted (trace (browser (snd (m s)))) = emitted (trace (browser s))
  ∧ app_container (browser (snd (m s)))
    = match app_container (browser s) with
      | Some _ => Some (page_body d)
      | None => None
      end
  ∧ document_title (browser (snd (m s)))
    = (if nonempty (page_title d) then page_title d
       else document_title (browser s)).
Proof.
  intros Hev. cbv zeta.
  unfold render, update_history, mbind, M_bind, get_state, throw.
  rewrite Hev, with_url_title, with_url_body, page_obj_title, page_obj_body.
  unfold truthy. destruct (env_history_accepts E url); destruct replace;
    destruct (nonempty (page_title d));
    destruct s as [r [tr tm nt dt [c|] ml me]];
    cbn [fst snd browser trace app_container document_title append_trace
         set_browser modify log add_effect with_document_title
         with_app_container router mret M_ret timers next_timer
         mouseenter_listener mouseleave_listener];
    rewrite ?handler_calls_app, ?emitted_app; cbn [handler_calls emitted omap];
    rewrite ?app_nil_r; done.
Qed.

(** The same with [navigate] listeners: they get the payload. *)
Lemma finish_custom payload url replace fd s l ls :
  events (router s) !! js "navigate" = Some (l :: ls) ->
  let m := render payload;; update_history E url replace fd in
  ∃ t, snd (m s) = append_trace (EEmit (js "navigate") payload :: t) s
       ∧ handler_calls t = []
       ∧ emitted t = []
       ∧ omap dom_effect t = [].
Proof.
  intros Hev. cbv zeta. unfold mbind, M_bind.
  assert (Hr : render payload s = emit (js "navigate") payload s).
  { unfold render, mbind, M_bind, get_state. by rewrite Hev. }
  rewrite Hr.
  destruct (emit_spec (js "navigate") payload s) as (t & Ht & Hcalls & _).
  destruct (listener_calls_silent _ Hcalls) as (_ & Hh & He).
  pose proof (listener_calls_unselected dom_effect (fun _ _ _ => eq_refl)
                t Hcalls) as Hd.
  destruct (emit (js "navigate") payload s) as [[[]|e] s1];
    simpl in Ht; subst s1; cbn [snd].
  - destruct (update_history_spec E url replace fd
                (append_trace (EEmit (js "navigate") payload :: t) s))
      as (title_ & ->).
    destruct (env_history_accepts E url); [|by exists t].
    exists (t ++ [history_entry url replace title_]). cbn [snd].
    rewrite append_trace_app, handler_calls_app, emitted_app, omap_app, Hh, He, Hd.
    unfold history_entry. by destruct replace.
  - by exists t.
Qed.

End navigation_cases.

(** X8: while a [navigate] listener is subscribed, the router leaves the
    rendering to the listeners: whether the navigation returns or throws, the
    router itself has set no title, written no markup and run no script. *)
Theorem navigate_custom_render_leaves_document (E : Env) (url : list N)
    (replace : bool) (s : state) (l : listener) (ls : list listener) :
  events (router s) !! js "navigate" = Some (l :: ls) ->
  omap dom_effect (trace (browser (snd (navigate E url replace s))))
  = omap dom_effect (trace (browser s)).
Proof.
  intros Hev. rewrite navigate_lookaside, navigate_with_steps.
  set (s0 := lookaside_state E s url).
  assert (Hd0 : omap dom_effect (trace (browser s0))
                = omap dom_effect (trace (browser s))).
  { subst s0. rewrite lookaside_state_trace, omap_app.
    destruct (cache (router s) !! url); simpl; by rewrite app_nil_r. }
  destruct (lookaside_state_router E url s) as (_ & Hev0 & _).
  fold s0 in Hev0.
  destruct (tidy_run_routes dom_effect (fun _ _ => eq_refl)
              (fun _ _ _ => eq_refl) (routes (router s0)) url
              (_normalizeUrl (router s) url)
              (page_obj (lookaside_page E s url)) (fun _ _ => eq_refl) s0)
    as (c1 & t1 & Hs1 & Ht1).
  destruct (run_routes _ _ _ _ s0) as [[fd|e] s1]; simpl in Hs1; subst s1.
  - destruct (finish_custom E (with_url url fd) url replace fd
                (set_cache c1 (append_trace t1 s0)) l ls)
      as (t & -> & _ & _ & Ht); [by rewrite <- Hev, <- Hev0|].
    change (EEmit (js "navigate") (with_url url fd) :: t)
      with ([EEmit (js "navigate") (with_url url fd)] ++ t).
    rewrite trace_append_trace, browser_set_cache, trace_append_trace.
    rewrite !omap_app, Hd0, Ht1, Ht. by rewrite !app_nil_r.
  - cbn [snd].
    rewrite browser_set_cache, trace_append_trace, omap_app, Hd0, Ht1.
    by rewrite app_nil_r.
Qed.

Lemma navigate_custom_render_leaves_document_witness :
  let s := snd (on (js "navigate")
                  {| l_id := 1; l_run := fun _ => Throw (Thrown (js "boom")) |}
                  default_router) in
  omap dom_effect (trace (browser (snd (navigate demo_env (js "/about") false s))))
  = [].
Proof.
  intros s.
  rewrite (navigate_custom_render_leaves_document demo_env (js "/about") false
             s {| l_id := 1; l_run := fun _ => Throw (Thrown (js "boom")) |} []);
    reflexivity.
Defined.

(** X9: when no registered pattern matches, no callback is called and no
    route event is emitted.  Without [navigate] listeners the navigation
    emits nothing and puts the body of the looked-up page into the
    container, and then returns if [history] takes the URL and throws its
    [SecurityError] if not; with them, the one event it emits is [navigate],
    carrying that page and the raw URL. *)
Theorem navigate_without_match (E : Env) (url : list N) (replace : bool)
    (s : state) :
  Forall (fun ph => parsePath ph.1 (_normalizeUrl (router s) url) = Ret None)
    (routes (router s)) ->
  let s' := snd (navigate E url replace s) in
  handler_calls (trace (browser s')) = handler_calls (trace (browser s))
  ∧ (events (router s) !! js "navigate" = None ->
     fst (navigate E url replace s)
     = (if env_history_accepts E url then Ret tt else Throw security_error)
     ∧ emitted (trace (browser s')) = emitted (trace (browser s))
     ∧ app_container (browser s')
       = match app_container (browser s) with
         | Some _ => Some (page_body (lookaside_page E s url))
         | None => None
         end)
  ∧ (∀ l ls, events (router s) !! js "navigate" = Some (l :: ls) ->
       emitted (trace (browser s'))
       = emitted (trace (browser s))
         ++ [(js "navigate", with_url url (page_obj (lookaside_page E s url)))]).
Proof.
  intros Hnone. cbv zeta. rewrite navigate_lookaside, navigate_with_steps.
  set (s0 := lookaside_state E s url).
  destruct (lookaside_state_router E url s) as (Hr0 & Hev0 & Hdt & Hac).
  fold s0 in Hr0, Hev0, Hdt, Hac.
  assert (Hh0 : handler_calls (trace (browser s0))
                = handler_calls (trace (browser s))).
  { subst s0. rewrite lookaside_state_trace, handler_calls_app.
    destruct (cache (router s) !! url); simpl; by rewrite app_nil_r. }
  assert (He0 : emitted (trace (browser s0)) = emitted (trace (browser s))).
  { subst s0. rewrite lookaside_state_trace, emitted_app.
    destruct (cache (router s) !! url); simpl; by rewrite app_nil_r. }
  rewrite Hr0, (run_routes_unmatched _ _ _ _ _ Hnone).
  destruct (events (router s) !! js "navigate") as [[|l ls]|] eqn:Hev.
  - split; [|split; [done|done]].
    unfold render, update_history, mbind, M_bind, get_state, throw.
    rewrite Hev0, Hev.
    destruct (env_history_accepts E url); destruct replace;
      destruct (with_url url (page_obj (lookaside_page E s url)) !! js "title")
        as [v|]; try destruct (truthy (Some v));
      destruct (app_container (browser s0));
      try destruct (with_url url (page_obj (lookaside_page E s url)) !! js "body")
        as [[b| | | |]|];
      cbn; rewrite ?handler_calls_app; cbn; rewrite ?app_nil_r; done.
  - destruct (finish_custom E (with_url url (page_obj (lookaside_page E s url)))
                url replace (page_obj (lookaside_page E s url)) s0 l ls)
      as (t & -> & Hh & He & _); [by rewrite Hev0|].
    rewrite !trace_append_trace.
    change (EEmit (js "navigate")
              (with_url url (page_obj (lookaside_page E s url))) :: t)
      with ([EEmit (js "navigate")
               (with_url url (page_obj (lookaside_page E s url)))] ++ t).
    rewrite !handler_calls_app, !emitted_app, Hh, He, Hh0, He0.
    split; [by rewrite !app_nil_r|]. split; [done|].
    intros l' ls' _. reflexivity.
  - destruct (finish_default E url replace (lookaside_page E s url) s0)
      as (Hret & Hh & He & Hc & _); [by rewrite Hev0|].
    cbv zeta in *. split; [by rewrite Hh|]. split; [|done].
    intros _. split; [done|]. split; [by rewrite He|]. by rewrite Hc, Hac.
Qed.

Lemma navigate_without_match_witness :
  let s := posts_router (overlay_title (js "A")) (replace_body (js "B")) in
  handler_calls (trace (browser (snd (navigate demo_env (js "/about") false s))))
  = []
  ∧ app_container (browser (snd (navigate demo_env (js "/about") false s)))
    = Some (js "<p>/about</p>").
Proof.
  intros s.
  destruct (navigate_without_match demo_env (js "/about") false s)
    as (Hcalls & Hdefault & _).
  - repeat constructor; by vm_compute.
  - split; [exact Hcalls|].
    destruct Hdefault as (_ & _ & Hc); [reflexivity|exact Hc].
Defined.

(** X10: a callback that throws aborts the navigation with what it threw:
    its route event is not emitted, no later callback is called and no event
    at all is emitted; the page the navigation worked with stays cached. *)
Theorem navigate_aborted_by_callback (E : Env) (url : list N) (replace : bool)
    (s : state) (rs1 rs2 : list (list N * handler)) (p : list N) (h : handler)
    (params : gmap (list N) (list N)) (e : exn) :
  routes (router s) = rs1 ++ (p, h) :: rs2 ->
  Forall (fun ph => parsePath ph.1 (_normalizeUrl (router s) url) = Ret None)
    rs1 ->
  parsePath p (_normalizeUrl (router s) url) = Ret (Some params) ->
  h params = Throw e ->
  let s' := snd (navigate E url replace s) in
  fst (navigate E url replace s) = Throw e
  ∧ handler_calls (trace (browser s'))
    = handler_calls (trace (browser s)) ++ [(p, params)]
  ∧ emitted (trace (browser s')) = emitted (trace (browser s))
  ∧ cache (router s') !! url = Some (lookaside_page E s url).
Proof.
  intros Hrs Hnone Hp Hh. cbv zeta.
  rewrite navigate_lookaside, navigate_with_steps.
  set (s0 := lookaside_state E s url).
  destruct (lookaside_state_router E url s) as (Hr0 & _).
  fold s0 in Hr0.
  rewrite Hr0, Hrs, (run_routes_app_unmatched _ _ _ _ _ _ Hnone).
  cbn [run_routes]. unfold mbind, M_bind, lift. rewrite Hp, log_spec, Hh.
  cbn [fst snd]. rewrite trace_append_trace, handler_calls_app, emitted_app.
  subst s0. rewrite lookaside_state_trace, handler_calls_app, emitted_app.
  unfold lookaside_state, lookaside_page.
  destruct (cache (router s) !! url) as [d|] eqn:Hc; simpl;
    rewrite ?app_nil_r; repeat split; try done; apply lookup_insert_eq.
Qed.

Lemma navigate_aborted_by_callback_witness :
  let s := snd (route (js "/users/:id") (fun _ => Throw (Thrown (js "boom")))
                  default_router) in
  fst (navigate demo_env (js "/users/42") false s) = Throw (Thrown (js "boom"))
  ∧ app_container (browser (snd (navigate demo_env (js "/users/42") false s)))
    = Some [].
Proof.
  intros s.
  destruct (navigate_aborted_by_callback demo_env (js "/users/42") false s
              [] [] (js "/users/:id") (fun _ => Throw (Thrown (js "boom")))
              {[ js "id" := js "42" ]} (Thrown (js "boom")))
    as (Hthrow & _); [reflexivity|constructor|by vm_compute|reflexivity|].
  split; [exact Hthrow|reflexivity].
Defined.

(** X11: a URL with a malformed escape under a parameter or wildcard of a
    registered pattern aborts the navigation with the [URIError] of
    [parsePath], after the lookaside and before any callback. *)
Theorem navigate_aborted_by_match (E : Env) (url : list N) (replace : bool)
    (s : state) (rs1 rs2 : list (list N * handler)) (p : list N) (h : handler)
    (e : exn) :
  routes (router s) = rs1 ++ (p, h) :: rs2 ->
  Forall (fun ph => parsePath ph.1 (_normalizeUrl (router s) url) = Ret None)
    rs1 ->
  parsePath p (_normalizeUrl (router s) url) = Throw e ->
  e = URIError
  ∧ navigate E url replace s = (Throw URIError, lookaside_state E s url)
  ∧ cache (router (lookaside_state E s url)) !! url
    = Some (lookaside_page E s url).
Proof.
  intros Hrs Hnone Hp.
  assert (He : e = URIError).
  { rewrite parsePath_unfold in Hp. cbv zeta in Hp.
    repeat destruct (decide _); try done;
      by destruct (match_loop_throw _ _ _ _ _ Hp). }
  subst e. split; [done|].
  rewrite navigate_lookaside, navigate_with_steps.
  destruct (lookaside_state_router E url s) as (Hr0 & _).
  rewrite Hr0, Hrs, (run_routes_app_unmatched _ _ _ _ _ _ Hnone).
  cbn [run_routes]. unfold mbind, M_bind, lift. rewrite Hp.
  split; [done|].
  unfold lookaside_state, lookaside_page.
  destruct (cache (router s) !! url) as [d|] eqn:Hc; [done|].
  apply lookup_insert_eq.
Qed.

Lemma navigate_aborted_by_match_witness :
  let s := snd (route (js "/users/:id") (replace_body (js "user"))
                  default_router) in
  fst (navigate demo_env (js "/users/100%") false s) = Throw URIError.
Proof.
  intros s.
  destruct (navigate_aborted_by_match demo_env (js "/users/100%") false s
              [] [] (js "/users/:id") (replace_body (js "user")) URIError)
    as (_ & Hnav & _); [reflexivity|constructor|by vm_compute|].
  by rewrite Hnav.
Defined.

(** ** The cache operations *)

(** X12: [clearCache(url)] removes the entry of [url] alone: the next
    navigation to [url] requests it again, and a navigation to another
    cached URL still issues no request. *)
Theorem clearCache_forgets_one (E : Env) (url : list N) (replace : bool)
    (s : state) :
  url ≠ [] ->
  let s1 := snd (clearCache (Some url) s) in
  fst (clearCache (Some url) s) = Ret tt
  ∧ cache (router s1) = delete url (cache (router s))
  ∧ fetched (trace (browser (snd (navigate E url replace s1))))
    = fetched (trace (browser s)) ++ [(url, request_headers false)]
  ∧ (∀ u, u ≠ url -> is_Some (cache (router s) !! u) ->
          fetched (trace (browser (snd (navigate E u replace s1))))
          = fetched (trace (browser s))).
Proof.
  intros Hne. destruct url as [|c url]; [done|]. cbv zeta.
  cbn [clearCache modify fst snd]. split; [done|]. split; [done|].
  set (s1 := set_cache _ s). split.
  - rewrite navigate_fetched. subst s1. simpl. by rewrite lookup_delete_eq.
  - intros u Hu [d Hd]. rewrite navigate_fetched.
    subst s1. simpl. rewrite lookup_delete_ne, Hd by done. by rewrite app_nil_r.
Qed.

Lemma clearCache_forgets_one_witness :
  let s := snd (navigate demo_env (js "/about") false default_router) in
  fetched (trace (browser (snd (navigate demo_env (js "/about") false
                                  (snd (clearCache (Some (js "/about")) s))))))
  = fetched (trace (browser s)) ++ [(js "/about", request_headers false)].
Proof.
  intros s.
  destruct (clearCache_forgets_one demo_env (js "/about") false s)
    as (_ & _ & Hre & _); [discriminate|exact Hre].
Defined.

(** X13: [clearCache()] empties the cache, and so does [clearCache("")],
    the empty string being falsy, although the empty string can be a key;
    afterwards every navigation issues a request. *)
Theorem clearCache_forgets_all (E : Env) (s : state) :
  clearCache (Some []) s = clearCache None s
  ∧ fst (clearCache None s) = Ret tt
  ∧ cache (router (snd (clearCache None s))) = ∅
  ∧ info_size (getCacheInfo (snd (clearCache None s))) = 0%nat
  ∧ info_urls (getCacheInfo (snd (clearCache None s))) = []
  ∧ ∀ url replace,
      fetched (trace (browser (snd (navigate E url replace
                                      (snd (clearCache None s))))))
      = fetched (trace (browser s)) ++ [(url, request_headers false)].
Proof.
  split; [done|]. split; [done|]. split; [done|].
  split; [apply map_size_empty|]. split.
  { unfold getCacheInfo. cbn [info_urls clearCache modify snd set_cache router cache].
    by rewrite map_to_list_empty. }
  intros url replace. rewrite navigate_fetched. simpl.
  by rewrite lookup_empty.
Qed.

(** X14: [getCacheInfo] reports as [size] the number of cached URLs, and as
    [urls] each cached URL once; a navigation adds its raw URL to them if it
    was not there, and removes none. *)
Theorem getCacheInfo_counts_urls (E : Env) (s : state) :
  info_size (getCacheInfo s) = length (info_urls (getCacheInfo s))
  ∧ NoDup (info_urls (getCacheInfo s))
  ∧ (∀ u, u ∈ info_urls (getCacheInfo s) ↔ is_Some (cache (router s) !! u))
  ∧ ∀ url replace,
      let s' := snd (navigate E url replace s) in
      url ∈ info_urls (getCacheInfo s')
      ∧ (∀ u, u ∈ info_urls (getCacheInfo s) -> u ∈ info_urls (getCacheInfo s'))
      ∧ info_size (getCacheInfo s')
        = (if decide (url ∈ info_urls (getCacheInfo s))
           then info_size (getCacheInfo s)
           else S (info_size (getCacheInfo s))).
Proof.
  assert (Hin : ∀ (s0 : state) u,
            u ∈ info_urls (getCacheInfo s0) ↔ is_Some (cache (router s0) !! u)).
  { intros s0 u. unfold getCacheInfo. cbn [info_urls].
    rewrite list_elem_of_fmap. split.
    - intros ([u' d] & -> & Hd). apply elem_of_map_to_list in Hd. by exists d.
    - intros [d Hd]. exists (u, d). split; [done|]. by apply elem_of_map_to_list. }
  split.
  { unfold getCacheInfo. cbn [info_size info_urls].
    by rewrite length_fmap, length_map_to_list. }
  split; [apply NoDup_fst_map_to_list|]. split; [apply Hin|].
  intros url replace s'. subst s'.
  split; [|split].
  - apply Hin. rewrite navigate_cache.
    destruct (cache (router s) !! url) as [d|] eqn:Hc; [by rewrite Hc|].
    rewrite lookup_insert_eq. by eexists.
  - intros u Hu. apply Hin. apply Hin in Hu. rewrite navigate_cache.
    destruct (cache (router s) !! url) as [d|] eqn:Hc; [done|].
    rewrite lookup_insert. by case_decide.
  - unfold getCacheInfo at 1. cbn [info_size]. rewrite navigate_cache.
    destruct (decide (url ∈ info_urls (getCacheInfo s))) as [Hu|Hu];
      rewrite Hin in Hu.
    + destruct Hu as [d Hd]. by rewrite Hd.
    + destruct (cache (router s) !! url) as [d|] eqn:Hc; [by destruct Hu|].
      by rewrite map_size_insert_None.
Qed.

(** ** Prefetching *)

Section prefetch_facts.

Variable E : Env.
Implicit Types s : state.
Implicit Types url : list N.

Lemma prefetch_hit url s :
  is_Some (cache (router s) !! url) -> prefetch E url s = (Ret tt, s).
Proof.
  intros Hc. unfold prefetch, mbind, M_bind, get_state.
  by rewrite bool_decide_eq_true_2.
Qed.

(** The [try] block of [fetchPage] for a prefetch whose response parses. *)
Lemma fetch_attempt_prefetch url s d :
  fetch_outcome E s url true = Ret d ->
  fetch_attempt E url true (contentSelector (router s)) s
  = (let (r, s') := emit (js "prefetch")
                      {[ js "url" := VStr url; js "data" := VPage d ]}
                      (set_cache (<[url := d]> (cache (router s)))
                         (append_trace [EFetch url (request_headers true)] s)) in
     match r with
     | Ret _ => (Ret d, s')
     | Throw e => (Throw e, s')
     end).
Proof.
  unfold fetch_outcome, fetch_attempt, mbind, M_bind, fetch, lift.
  destruct (env_fetch E _ _ _) as [r|e]; simpl; [|done].
  destruct (resp_text r) as [text|e]; simpl; [|done].
  destruct (env_parseHTML E text _) as [d'|e]; [|done].
  intros [= ->]. unfold cache_set, modify.
  by destruct (emit _ _ _) as [[[]|e] s'].
Qed.

Lemma prefetch_miss_unfold url s :
  cache (router s) !! url = None ->
  prefetch E url s
  = (let (r, s1) := fetch_attempt E url true (contentSelector (router s)) s in
     match r with
     | Ret _ => (Ret tt, s1)
     | Throw err =>
         let (r2, s2) :=
           emit (js "prefetch:error")
             {[ js "url" := VStr url; js "error" := VError err ]} s1 in
         match r2 with
         | Ret _ => (Ret tt, append_trace [EConsoleDebug url err] s2)
         | Throw e2 => (Ret tt, append_trace [EConsoleDebug url e2] s2)
         end
     end).
Proof.
  intros Hmiss. unfold prefetch, mbind, M_bind, get_state.
  rewrite bool_decide_eq_false_2 by (rewrite Hmiss; by intros [? ?]).
  unfold try_catch at 1, fetchPage, mbind, M_bind, get_state.
  rewrite Hmiss. unfold try_catch.
  destruct (fetch_attempt E url true _ s) as [[d|err] s1]; [done|].
  unfold fetch_recover, mbind, M_bind.
  by destruct (emit _ _ s1) as [[[]|e2] s2].
Qed.

End prefetch_facts.

(** X15: a prefetch of a URL that is not cached, whose response parses and
    whose [prefetch] listeners return, requests it once with the prefetch
    marker, caches the page and tells the listeners; after it a second
    prefetch does nothing and a navigation issues no further request. *)
Theorem prefetch_then_hit (E : Env) (url : list N) (s : state) (d : Page) :
  cache (router s) !! url = None ->
  fetch_outcome E s url true = Ret d ->
  Forall (fun l => l_run l {[ js "url" := VStr url; js "data" := VPage d ]}
                   = Ret tt)
    (default [] (events (router s) !! js "prefetch")) ->
  let s1 :=
    set_cache (<[url := d]> (cache (router s)))
      (append_trace
         (EFetch url (request_headers true)
          :: EEmit (js "prefetch")
               {[ js "url" := VStr url; js "data" := VPage d ]}
          :: listener_calls (default [] (events (router s) !! js "prefetch"))
               (js "prefetch")
               {[ js "url" := VStr url; js "data" := VPage d ]}) s) in
  prefetch E url s = (Ret tt, s1)
  ∧ prefetch E url s1 = (Ret tt, s1)
  ∧ ∀ replace,
      fetched (trace (browser (snd (navigate E url replace s1))))
      = fetched (trace (browser s)) ++ [(url, request_headers true)].
Proof.
  intros Hmiss Hok Hq s1.
  assert (Hcached : cache (router s1) !! url = Some d) by apply lookup_insert_eq.
  split; [|split].
  - rewrite (prefetch_miss_unfold E _ _ Hmiss), (fetch_attempt_prefetch E _ _ _ Hok).
    rewrite emit_returns; [|reflexivity|done].
    subst s1. unfold set_cache, append_trace, set_browser. simpl.
    by rewrite <- app_assoc.
  - apply prefetch_hit. by rewrite Hcached.
  - intros replace. rewrite navigate_fetched, Hcached, app_nil_r.
    subst s1. rewrite browser_set_cache, trace_append_trace.
    change (EFetch url (request_headers true) :: ?x)
      with ([EFetch url (request_headers true)] ++ x).
    rewrite !fetched_app.
    change (EEmit ?a ?b :: ?x) with ([EEmit a b] ++ x).
    rewrite fetched_app.
    assert (Hsil : fetched (listener_calls
                     (default [] (events (router s) !! js "prefetch"))
                     (js "prefetch")
                     {[ js "url" := VStr url; js "data" := VPage d ]}) = []).
    { apply listener_calls_silent, listener_calls_are_calls. }
    by rewrite Hsil.
Qed.

Lemma prefetch_then_hit_witness :
  fetched (trace (browser (snd (navigate demo_env (js "/about") false
     (snd (prefetch demo_env (js "/about") default_router))))))
  = [(js "/about", request_headers true)].
Proof.
  destruct (prefetch_then_hit demo_env (js "/about") default_router
              {| page_title := []; page_body := js "<p>/about</p>" |})
    as (Hrun & _ & Hnav); [reflexivity|reflexivity|constructor|].
  rewrite Hrun. exact (Hnav false).
Defined.

(** X16: a prefetch whose fetch fails does not stand in the way of a later
    navigation: the navigation requests the URL itself, without the prefetch
    marker, and works with what that request yields. *)
Theorem failed_prefetch_then_navigate (E : Env) (url : list N) (s : state)
    (err : exn) (replace : bool) :
  cache (router s) !! url = None ->
  fetch_outcome E s url true = Throw err ->
  let s1 := snd (prefetch E url s) in
  fetched (trace (browser (snd (navigate E url replace s1))))
  = fetched (trace (browser s))
    ++ [(url, request_headers true); (url, request_headers false)]
  ∧ cache (router (snd (navigate E url replace s1))) !! url
    = Some (match fetch_outcome E s1 url false with
            | Ret d => d
            | Throw err' => fallback_page err'
            end).
Proof.
  intros Hmiss Hfail. cbv zeta.
  destruct (prefetch_failure_run E url s err Hmiss Hfail) as (t & e' & -> & Hcalls).
  destruct (listener_calls_silent _ Hcalls) as (Hf & _).
  cbn [snd]. set (s1 := append_trace _ s).
  assert (Hc1 : cache (router s1) !! url = None) by done.
  rewrite navigate_fetched, navigate_cache, Hc1, lookup_insert_eq.
  unfold lookaside_page. rewrite Hc1. split; [|done].
  subst s1. rewrite trace_append_trace.
  change (EFetch url (request_headers true) :: ?x)
    with ([EFetch url (request_headers true)] ++ x).
  rewrite !fetched_app.
  change (EEmit ?a ?b :: ?x) with ([EEmit a b] ++ x).
  rewrite !fetched_app, Hf. by rewrite <- !app_assoc.
Qed.

Lemma failed_prefetch_then_navigate_witness :
  fetched (trace (browser (snd (navigate demo_env (js "/broken") false
     (snd (prefetch demo_env (js "/broken") default_router))))))
  = [(js "/broken", request_headers true); (js "/broken", request_headers false)].
Proof.
  destruct (failed_prefetch_then_navigate demo_env (js "/broken") default_router
              (Thrown (js "TypeError: Failed to fetch")) false)
    as (Hf & _); [reflexivity|reflexivity|exact Hf].
Defined.

(** X17: the fallback that a failed navigation caches keeps later prefetches
    of that URL from fetching, until [clearCache] removes it. *)
Theorem failed_navigate_then_prefetch (E : Env) (url : list N) (s : state)
    (err : exn) (replace : bool) :
  url ≠ [] ->
  cache (router s) !! url = None ->
  fetch_outcome E s url false = Throw err ->
  let s1 := snd (navigate E url replace s) in
  cache (router s1) !! url = Some (fallback_page err)
  ∧ prefetch E url s1 = (Ret tt, s1)
  ∧ fetched (trace (browser (snd (prefetch E url
                                    (snd (clearCache (Some url) s1))))))
    = fetched (trace (browser s))
      ++ [(url, request_headers false); (url, request_headers true)].
Proof.
  intros Hne Hmiss Hfail. cbv zeta.
  assert (Hc : cache (router (snd (navigate E url replace s))) !! url
               = Some (fallback_page err)).
  { rewrite navigate_cache, Hmiss, lookup_insert_eq.
    unfold lookaside_page. by rewrite Hmiss, Hfail. }
  split; [done|]. split; [apply prefetch_hit; by rewrite Hc|].
  destruct url as [|c url]; [done|].
  cbn [clearCache modify snd].
  set (s2 := set_cache _ _).
  destruct (prefetch_miss_fetches E (c :: url) s2) as (t & -> & Ht).
  { subst s2. simpl. apply lookup_delete_eq. }
  subst s2. rewrite browser_set_cache, fetched_app, Ht, navigate_fetched, Hmiss.
  by rewrite <- app_assoc.
Qed.

Lemma failed_navigate_then_prefetch_witness :
  let s1 := snd (navigate demo_env (js "/broken") false default_router) in
  prefetch demo_env (js "/broken") s1 = (Ret tt, s1).
Proof.
  intros s1.
  destruct (failed_navigate_then_prefetch demo_env (js "/broken") default_router
              (Thrown (js "TypeError: Failed to fetch")) false)
    as (_ & Hp & _); [discriminate|reflexivity|reflexivity|exact Hp].
Defined.

(** X18: the [prefetch] event is emitted inside the [try] block: when one of
    its listeners throws, the page is cached all the same, the
    [prefetch:error] event follows with what the listener threw, and
    [prefetch] returns. *)
Theorem prefetch_listener_throw (E : Env) (url : list N) (s : state) (d : Page)
    (ok rest : list listener) (l : listener) (e : exn) :
  cache (router s) !! url = None ->
  fetch_outcome E s url true = Ret d ->
  events (router s) !! js "prefetch" = Some (ok ++ l :: rest) ->
  Forall (fun l => l_run l {[ js "url" := VStr url; js "data" := VPage d ]}
                   = Ret tt) ok ->
  l_run l {[ js "url" := VStr url; js "data" := VPage d ]} = Throw e ->
  let s' := snd (prefetch E url s) in
  fst (prefetch E url s) = Ret tt
  ∧ cache (router s') = <[url := d]> (cache (router s))
  ∧ ∃ t, trace (browser s') = trace (browser s) ++ t
         ∧ emitted t
           = [(js "prefetch", {[ js "url" := VStr url; js "data" := VPage d ]});
              (js "prefetch:error",
               {[ js "url" := VStr url; js "error" := VError e ]})].
Proof.
  intros Hmiss Hok Hev Hq Hl. cbv zeta.
  rewrite (prefetch_miss_unfold E _ _ Hmiss), (fetch_attempt_prefetch E _ _ _ Hok).
  rewrite (emit_throws _ _ _ ok l rest e); [|done|done|done].
  set (s1 := append_trace _ (set_cache _ _)).
  destruct (emit_spec (js "prefetch:error")
              {[ js "url" := VStr url; js "error" := VError e ]} s1)
    as (t & Ht & Hcalls & _).
  destruct (listener_calls_silent _ Hcalls) as (_ & _ & He).
  assert (Hsil : emitted (listener_calls (ok ++ [l]) (js "prefetch")
                    {[ js "url" := VStr url; js "data" := VPage d ]}) = []).
  { apply listener_calls_silent, listener_calls_are_calls. }
  destruct (emit (js "prefetch:error") _ s1) as [[[]|e2] s2];
    simpl in Ht; subst s2; cbn [fst snd].
  all: split; [done|]; split; [done|].
  all: eexists; split;
    [subst s1; rewrite !trace_append_trace, browser_set_cache,
       trace_append_trace, <- !app_assoc; reflexivity|].
  all: rewrite !emitted_app;
    change (EEmit ?a ?b :: ?x) with ([EEmit a b] ++ x);
    rewrite !emitted_app, Hsil, He; reflexivity.
Qed.

Lemma prefetch_listener_throw_witness :
  let s := snd (on (js "prefetch")
                  {| l_id := 1; l_run := fun _ => Throw (Thrown (js "boom")) |}
                  default_router) in
  fst (prefetch demo_env (js "/about") s) = Ret tt
  ∧ cache (router (snd (prefetch demo_env (js "/about") s))) !! js "/about"
    = Some {| page_title := []; page_body := js "<p>/about</p>" |}.
Proof.
  intros s.
  destruct (prefetch_listener_throw demo_env (js "/about") s
              {| page_title := []; page_body := js "<p>/about</p>" |}
              [] [] {| l_id := 1; l_run := fun _ => Throw (Thrown (js "boom")) |}
              (Thrown (js "boom")))
    as (Hret & Hc & _);
    [reflexivity|reflexivity|reflexivity|constructor|reflexivity|].
  split; [exact Hret|]. rewrite Hc. by vm_compute.
Defined.

(** ** The hover and click listeners *)

Section listener_filters.

Variable E : Env.
Implicit Types s : state.

(** A hover over an eligible link, as the listener sees it. *)
Lemma on_mouseenter_eligible link href s :
  mouseenter_listener (browser s) = true ->
  link_href link = Some href -> href ≠ [] ->
  plain_link link = true -> link_no_prefetch link = false ->
  on_mouseenter E (Some link) s
  = if (prefetchDelay (router s) =? 0)%Z then prefetch E href s
    else (Ret tt,
          set_prefetchTimeouts
            (omap_set (link_id link) (next_timer (browser s))
               (prefetchTimeouts (router s)))
            (set_browser (fun b =>
               add_effect (ESetTimeout (next_timer (browser s)) href
                             (prefetchDelay (router s)))
                 (with_timers (<[next_timer (browser s) := href]> (timers b))
                    (next_timer (browser s) + 1) b)) s)).
Proof.
  intros Hl Hhref Hne Hplain Hno.
  unfold on_mouseenter, mbind, M_bind, get_state. rewrite Hl, Hhref. cbn [negb].
  destruct href as [|c href]; [done|].
  unfold plain_link in Hplain. apply negb_true_iff in Hplain.
  rewrite Hplain, Hno.
  by destruct (prefetchDelay (router s) =? 0)%Z.
Qed.

(** A timeout that is due is removed and prefetches its link. *)
Lemma fire_timer_due id href s :
  timers (browser s) !! id = Some href ->
  fire_timer E id s
  = prefetch E href
      (set_browser (fun b =>
         with_timers (delete id (timers b)) (next_timer b) b) s).
Proof.
  intros Hdue. unfold fire_timer, mbind, M_bind, get_state.
  by rewrite Hdue.
Qed.

Lemma fire_timer_idle id s :
  timers (browser s) !! id = None -> fire_timer E id s = (Ret tt, s).
Proof.
  intros Hidle. unfold fire_timer, mbind, M_bind, get_state.
  by rewrite Hidle.
Qed.

End listener_filters.

(** X19: with a delay, a hover over an eligible link schedules the prefetch
    and requests nothing; leaving the link before the timeout cancels it, and
    the timeout coming due afterwards does nothing. *)
Theorem hover_leave_cancels (E : Env) (s : state) (link : LinkElement)
    (href : list N) :
  mouseenter_listener (browser s) = true ->
  mouseleave_listener (browser s) = true ->
  prefetchDelay (router s) ≠ 0%Z ->
  next_timer (browser s) ≠ 0 ->
  link_href link = Some href -> href ≠ [] ->
  plain_link link = true -> link_no_prefetch link = false ->
  let id := next_timer (browser s) in
  let s1 := snd (on_mouseenter E (Some link) s) in
  let s2 := snd (on_mouseleave (Some link) s1) in
  timers (browser s1) !! id = Some href
  ∧ omap_get (link_id link) (prefetchTimeouts (router s1)) = Some id
  ∧ timers (browser s2) !! id = None
  ∧ fetched (trace (browser s2)) = fetched (trace (browser s))
  ∧ cache (router s2) = cache (router s)
  ∧ fire_timer E id s2 = (Ret tt, s2).
Proof.
  intros Hin Hout Hdelay Hid Hhref Hne Hplain Hno. cbv zeta.
  rewrite (on_mouseenter_eligible E link href s Hin Hhref Hne Hplain Hno).
  rewrite (proj2 (Z.eqb_neq _ _) Hdelay). cbn [snd].
  set (s1 := set_prefetchTimeouts _ _).
  assert (Hget : omap_get (link_id link) (prefetchTimeouts (router s1))
                 = Some (next_timer (browser s))) by apply omap_get_set_eq.
  assert (Ht1 : timers (browser s1) !! next_timer (browser s) = Some href)
    by apply lookup_insert_eq.
  split; [done|]. split; [done|].
  unfold on_mouseleave, mbind, M_bind, get_state.
  change (mouseleave_listener (browser s1)) with (mouseleave_listener (browser s)).
  rewrite Hout, Hget, (proj2 (N.eqb_neq _ _) Hid). cbn [negb snd].
  unfold clearTimeout, modify. cbn [snd].
  set (s2 := set_prefetchTimeouts _ _).
  assert (Ht2 : timers (browser s2) !! next_timer (browser s) = None)
    by apply lookup_delete_eq.
  split; [done|]. split.
  { subst s2 s1. simpl. rewrite !fetched_app. simpl. by rewrite !app_nil_r. }
  split; [done|]. by apply fire_timer_idle.
Qed.

Lemma hover_leave_cancels_witness :
  let s2 := snd (on_mouseleave (Some demo_link)
                   (snd (on_mouseenter demo_env (Some demo_link)
                           delayed_router))) in
  timers (browser s2) !! 1 = None ∧ fetched (trace (browser s2)) = [].
Proof.
  intros s2.
  destruct (hover_leave_cancels demo_env delayed_router demo_link (js "/about"))
    as (_ & _ & Ht & Hf & _);
    [reflexivity|reflexivity|discriminate|discriminate|reflexivity|discriminate
    |reflexivity|reflexivity|].
  split; [exact Ht|exact Hf].
Defined.

(** X20: with a delay, the timeout of a hover that comes due prefetches the
    link once: one request with the prefetch marker if the URL is not
    cached, and nothing when it comes due again. *)
Theorem delayed_hover_fires_once (E : Env) (s : state) (link : LinkElement)
    (href : list N) :
  mouseenter_listener (browser s) = true ->
  prefetchDelay (router s) ≠ 0%Z ->
  link_href link = Some href -> href ≠ [] ->
  plain_link link = true -> link_no_prefetch link = false ->
  cache (router s) !! href = None ->
  let id := next_timer (browser s) in
  let s1 := snd (on_mouseenter E (Some link) s) in
  let s2 := snd (fire_timer E id s1) in
  fetched (trace (browser s1)) = fetched (trace (browser s))
  ∧ fetched (trace (browser s2))
    = fetched (trace (browser s)) ++ [(href, request_headers true)]
  ∧ fire_timer E id s2 = (Ret tt, s2).
Proof.
  intros Hin Hdelay Hhref Hne Hplain Hno Hmiss. cbv zeta.
  rewrite (on_mouseenter_eligible E link href s Hin Hhref Hne Hplain Hno).
  rewrite (proj2 (Z.eqb_neq _ _) Hdelay). cbn [snd].
  set (s1 := set_prefetchTimeouts _ _).
  assert (Hf1 : fetched (trace (browser s1)) = fetched (trace (browser s))).
  { subst s1. simpl. rewrite fetched_app. simpl. by rewrite app_nil_r. }
  split; [done|].
  assert (Ht1 : timers (browser s1) !! next_timer (browser s) = Some href)
    by apply lookup_insert_eq.
  rewrite (fire_timer_due E _ href s1 Ht1).
  set (s1' := set_browser _ s1).
  destruct (prefetch_miss_fetches E href s1') as (t & Ht & Hft); [done|].
  destruct (cto_prefetch E href s1') as (c & t' & Hs2).
  split.
  - rewrite Ht, fetched_app, Hft.
    change (trace (browser s1')) with (trace (browser s1)).
    by rewrite Hf1.
  - apply fire_timer_idle. rewrite Hs2. apply lookup_delete_eq.
Qed.

Lemma delayed_hover_fires_once_witness :
  let s1 := snd (on_mouseenter demo_env (Some demo_link) delayed_router) in
  fetched (trace (browser s1)) = []
  ∧ fetched (trace (browser (snd (fire_timer demo_env 1 s1))))
    = [(js "/about", request_headers true)].
Proof.
  intros s1.
  destruct (delayed_hover_fires_once demo_env delayed_router demo_link
              (js "/about"))
    as (H1 & H2 & _);
    [reflexivity|discriminate|reflexivity|discriminate|reflexivity|reflexivity
    |reflexivity|].
  split; [exact H1|exact H2].
Defined.

(** X21: a router constructed with [prefetchOnHover: false] has no hover
    listeners, and [setPrefetchOnHover(true)] installs none: it sets the flag
    and every hover is still ignored. *)
Theorem enabling_hover_prefetch_installs_nothing (E : Env)
    (htmlExtension_ interceptAllLinks_ : bool) (contentSelector_ : list N)
    (prefetchDelay_ : Z) (title_ : list N) (container : option (list N)) :
  let s := snd (setPrefetchOnHover true
                  (new_MiniRouter htmlExtension_ interceptAllLinks_
                     contentSelector_ false prefetchDelay_ title_ container)) in
  prefetchOnHover (router s) = true
  ∧ ∀ target, on_mouseenter E target s = (Ret tt, s)
              ∧ on_mouseleave target s = (Ret tt, s).
Proof. cbv zeta. split; [done|]. intros target. split; reflexivity. Qed.

(** X22: a click is intercepted only on a link with a non-empty [href] that
    passes the attribute filter, and then it starts the navigation to that
    [href] with a pushed entry; on such a link an immediate hover, unless the
    link opts out, prefetches the same [href]. *)
Theorem intercepted_click_navigates (E : Env) (e : ClickEvent)
    (target : option LinkElement) (data_link : bool) (s s' : state)
    (r : res unit) :
  on_click E e target data_link s = (Ret (Intercepted r), s') ->
  ∃ link href,
    target = Some link ∧ link_href link = Some href ∧ href ≠ []
    ∧ plain_link link = true
    ∧ click_defaultPrevented e = false ∧ click_button e = 0%Z
    ∧ (interceptAllLinks (router s) = true ∨ data_link = true)
    ∧ navigate E href false s = (r, s')
    ∧ (mouseenter_listener (browser s) = true ->
       link_no_prefetch link = false ->
       prefetchDelay (router s) = 0%Z ->
       on_mouseenter E target s = prefetch E href s).
Proof.
  unfold on_click, mbind, M_bind, get_state, mret, M_ret, detached, throw.
  destruct (click_defaultPrevented e) eqn:Hdp; [done|].
  destruct (negb (click_button e =? 0)%Z || click_metaKey e || click_ctrlKey e
            || click_shiftKey e || click_altKey e) eqn:Hmod; [done|].
  destruct target as [link|]; [|done].
  destruct (negb (interceptAllLinks (router s)) && negb data_link) eqn:Hopt;
    [done|].
  destruct (link_href link) as [[|c href]|] eqn:Hhref; [done| |done].
  assert (Hbutton : click_button e = 0%Z).
  { repeat (apply orb_false_iff in Hmod as [Hmod ?]).
    apply negb_false_iff in Hmod. by apply Z.eqb_eq. }
  assert (Hint : interceptAllLinks (router s) = true ∨ data_link = true).
  { apply andb_false_iff in Hopt as [H|H]; apply negb_false_iff in H; auto. }
  assert (Hdone : ∀ (Hplain : plain_link link = true),
    navigate E (c :: href) false s = (r, s') ->
    ∃ link0 href0,
      Some link = Some link0 ∧ link_href link0 = Some href0 ∧ href0 ≠ []
      ∧ plain_link link0 = true ∧ false = false ∧ click_button e = 0%Z
      ∧ (interceptAllLinks (router s) = true ∨ data_link = true)
      ∧ navigate E href0 false s = (r, s')
      ∧ (mouseenter_listener (browser s) = true ->
         link_no_prefetch link0 = false ->
         prefetchDelay (router s) = 0%Z ->
         on_mouseenter E (Some link) s = prefetch E href0 s)).
  { intros Hplain Hnav. exists link, (c :: href).
    repeat (split; [done|]). intros Hl Hno Hd.
    rewrite (on_mouseenter_eligible E link (c :: href) s Hl Hhref) by done.
    by rewrite Hd. }
  destruct (link_is_anchor link) eqn:Ha.
  - destruct (link_target_blank link || link_download link
              || link_rel_external link) eqn:Hattr; [done|].
    destruct (link_same_origin link) as [[|]|] eqn:Ho; [|done|done].
    intros Hnav. apply Hdone.
    + unfold plain_link. by rewrite Ha, Hattr, Ho.
    + destruct (navigate E (c :: href) false s). by injection Hnav as <- <-.
  - intros Hnav. apply Hdone.
    + unfold plain_link. by rewrite Ha.
    + destruct (navigate E (c :: href) false s). by injection Hnav as <- <-.
Qed.

Lemma intercepted_click_navigates_witness :
  ∃ link href,
    Some demo_link = Some link ∧ link_href link = Some href
    ∧ plain_link link = true
    ∧ fst (navigate demo_env href false default_router)
      = fst (navigate demo_env (js "/about") false default_router).
Proof.
  destruct (intercepted_click_navigates demo_env
              {| click_defaultPrevented := false; click_button := 0;
                 click_metaKey := false; click_ctrlKey := false;
                 click_shiftKey := false; click_altKey := false |}
              (Some demo_link) true default_router
              (snd (navigate demo_env (js "/about") false default_router))
              (fst (navigate demo_env (js "/about") false default_router)))
    as (link & href & Hl & Hh & _ & Hp & _ & _ & _ & Hnav & _).
  - reflexivity.
  - exists link, href. rewrite Hnav. repeat split; assumption.
Defined.

(** X23: where the two listeners differ.  A click with a modifier key, with
    another button or already handled is left to the browser, and so is,
    without [interceptAllLinks], a click on a link without [data-link], while
    the hover listener prefetches such a link all the same; and on an anchor
    whose [href] is no URL the click listener throws where the hover listener
    returns. *)
Theorem click_and_hover_filters (E : Env) (e : ClickEvent) (link : LinkElement)
    (data_link : bool) (s : state) :
  (click_defaultPrevented e = true ∨ click_button e ≠ 0%Z
   ∨ click_metaKey e = true ∨ click_ctrlKey e = true
   ∨ click_shiftKey e = true ∨ click_altKey e = true ->
   ∀ target, on_click E e target data_link s = (Ret NotIntercepted, s))
  ∧ (interceptAllLinks (router s) = false ->
     on_click E e (Some link) false s = (Ret NotIntercepted, s))
  ∧ (∀ href,
       mouseenter_listener (browser s) = true ->
       prefetchDelay (router s) = 0%Z ->
       link_href link = Some href -> href ≠ [] ->
       plain_link link = true -> link_no_prefetch link = false ->
       on_mouseenter E (Some link) s = prefetch E href s)
  ∧ (∀ href,
       click_defaultPrevented e = false -> click_button e = 0%Z ->
       click_metaKey e = false -> click_ctrlKey e = false ->
       click_shiftKey e = false -> click_altKey e = false ->
       interceptAllLinks (router s) = true ->
       link_href link = Some href -> href ≠ [] ->
       link_is_anchor link = true -> link_target_blank link = false ->
       link_download link = false -> link_rel_external link = false ->
       link_same_origin link = None ->
       on_click E e (Some link) data_link s = (Throw invalid_url, s)
       ∧ on_mouseenter E (Some link) s = (Ret tt, s)).
Proof.
  split; [|split; [|split]].
  - intros Hskip target. unfold on_click, mbind, M_bind, get_state.
    destruct (click_defaultPrevented e); [done|].
    destruct Hskip as [?|[Hb|[->|[->|[->| ->]]]]]; [done| | | | |];
      rewrite ?orb_true_r; try done.
    by rewrite (proj2 (Z.eqb_neq _ _) Hb).
  - intros Hopt. unfold on_click, mbind, M_bind, get_state. rewrite Hopt.
    destruct (click_defaultPrevented e); [done|].
    by destruct (negb (click_button e =? 0)%Z || click_metaKey e
                 || click_ctrlKey e || click_shiftKey e || click_altKey e).
  - intros href Hl Hd Hhref Hne Hplain Hno.
    rewrite (on_mouseenter_eligible E link href s Hl Hhref Hne Hplain Hno).
    by rewrite Hd.
  - intros href Hdp Hb Hm Hc Hs Ha Hint Hhref Hne Hanchor Htb Hdl Hrel Ho.
    split.
    + unfold on_click, mbind, M_bind, get_state.
      rewrite Hdp, Hb, Hm, Hc, Hs, Ha, Hint, Hhref, Hanchor, Htb, Hdl, Hrel, Ho.
      by destruct href.
    + unfold on_mouseenter, mbind, M_bind, get_state.
      destruct (mouseenter_listener (browser s)); [|done]. cbn [negb].
      rewrite Hhref, Hanchor, Htb, Hdl, Hrel, Ho. by destruct href.
Qed.

Lemma click_and_hover_filters_witness :
  on_click demo_env
    {| click_defaultPrevented := false; click_button := 0;
       click_metaKey := false; click_ctrlKey := true;
       click_shiftKey := false; click_altKey := false |}
    (Some demo_link) false default_router
  = (Ret NotIntercepted, default_router)
  ∧ on_mouseenter demo_env (Some demo_link) default_router
    = prefetch demo_env (js "/about") default_router.
Proof.
  destruct (click_and_hover_filters demo_env
              {| click_defaultPrevented := false; click_button := 0;
                 click_metaKey := false; click_ctrlKey := true;
                 click_shiftKey := false; click_altKey := false |}
              demo_link false default_router) as (Hskip & _ & Hhover & _).
  split.
  - apply Hskip. right; right; right; left. reflexivity.
  - apply Hhover; [reflexivity|reflexivity|reflexivity|discriminate
                  |reflexivity|reflexivity].
Defined.

(** X24: going back to a URL the router has navigated to, whether that
    navigation returned or threw, is served from the cache: the [popstate]
    listener issues no request, leaves the cache as it is and returns to the
    browser, with the outcome of a navigation that replaces the entry. *)
Theorem popstate_revisit_is_cached (E : Env) (url : list N) (replace : bool)
    (s : state) :
  let s1 := snd (navigate E url replace s) in
  on_popstate E url s1
  = (Ret (fst (navigate E url true s1)), snd (navigate E url true s1))
  ∧ fetched (trace (browser (snd (on_popstate E url s1))))
    = fetched (trace (browser s1))
  ∧ cache (router (snd (on_popstate E url s1))) = cache (router s1).
Proof.
  cbv zeta. split; [reflexivity|].
  unfold on_popstate, detached. cbn [snd].
  assert (Hhit : is_Some (cache (router (snd (navigate E url replace s)))
                          !! url)).
  { rewrite navigate_cache. destruct (cache (router s) !! url) eqn:Hc.
    - by rewrite Hc.
    - rewrite lookup_insert_eq. by eexists. }
  destruct Hhit as [d Hd].
  split.
  - rewrite navigate_fetched, Hd. by rewrite app_nil_r.
  - rewrite (navigate_cache E url true), Hd. done.
Qed.

(** ** Patterns without parameters *)

Section literal_facts.

Implicit Types ps us : list (list N).

Lemma take_drop_cons a ps i us :
  take (S (length ps)) (drop i us) = a :: ps
  <-> us !! i = Some a ∧ take (length ps) (drop (S i) us) = ps.
Proof.
  destruct (us !! i) as [b|] eqn:Hb.
  - rewrite (drop_S _ _ _ Hb). cbn [take]. split.
    + intros [= -> ?]. by split.
    + intros [[= ->] ->]. done.
  - rewrite drop_ge by (by apply lookup_ge_None). cbn [take].
    split; [done|]. by intros [? _].
Qed.

Lemma match_loop_literal ps i us p :
  Forall (fun a => a ≠ js "*" ∧ starts_with_char c_colon a = false) ps ->
  match_loop ps i us p
  = Ret (if bool_decide (take (length ps) (drop i us) = ps) then Some p
         else None).
Proof.
  intros Hps. revert i.
  induction Hps as [|a ps [Hstar Hcolon] _ IH]; intros i.
  - cbn [match_loop length take]. by rewrite bool_decide_eq_true_2.
  - cbn [match_loop length]. unfold jsstring_eqb at 1.
    rewrite bool_decide_eq_false_2 by done. rewrite Hcolon.
    case_bool_decide as Hb.
    + rewrite IH. f_equal.
      case_bool_decide as Hrest.
      * rewrite bool_decide_eq_true_2; [done|]. by apply take_drop_cons.
      * rewrite bool_decide_eq_false_2; [done|].
        intros H. apply take_drop_cons in H as [_ H]. done.
    + rewrite bool_decide_eq_false_2; [done|].
      intros H. apply take_drop_cons in H as [H _]. done.
Qed.

End literal_facts.

(** X25: a pattern without parameter and wildcard segments matches exactly
    the URLs whose normal form has the same non-empty segments; the match
    binds nothing and never throws, whatever escapes the URL holds. *)
Theorem parsePath_literal (pattern url : list N) :
  literal_pattern pattern ->
  parsePath pattern url
  = Ret (if bool_decide (segments (normalizePath url)
                         = segments (normalizePath pattern))
         then Some ∅ else None).
Proof.
  intros Hlit. rewrite parsePath_unfold. cbv zeta.
  set (ps := segments (normalizePath pattern)) in *.
  set (us := segments (normalizePath url)).
  destruct (decide (last ps = Some (js "*"))) as [Hw|_].
  { apply last_wildcard_elem in Hw.
    unfold literal_pattern in Hlit. rewrite Forall_forall in Hlit.
    by destruct (Hlit _ Hw). }
  destruct (decide (length ps = length us)) as [Hlen|Hlen].
  - rewrite (match_loop_literal ps 0 us ∅ Hlit). f_equal.
    rewrite drop_0, Hlen, firstn_all. done.
  - rewrite bool_decide_eq_false_2; [done|]. intros H. by rewrite H in Hlen.
Qed.

Lemma parsePath_literal_witness :
  parsePath (js "/docs/intro") (js "docs//intro/index.HTML?tab=%E0#top")
  = Ret (Some ∅).
Proof.
  rewrite parsePath_literal.
  - reflexivity.
  - unfold literal_pattern. vm_compute.
    repeat constructor; discriminate.
Defined.
